(** * useWebSocket: the resilient streaming client

    A shallow embedding of [src/client/src/hooks/useWebSocket.ts].

    The hook is a set of callbacks that run to completion on one event loop
    and communicate through React refs and state.  It is embedded as state
    transformers on a [World]: the hook's refs and React state ([Hook]), the
    WebSocket objects it has created, the browser's table of pending timers
    and a clock.  One browser event (a socket callback, a timer firing, a DOM
    event, an effect run) is one [dispatch].

    Conventions:
    - a WebSocket object is named by its index in [sockets]; reference
      equality [ws === wsRef.current] is equality of indices;
    - the four handler slots of a socket hold either [null] or the closure
      that [connect] installed on that very socket, so a slot is a [bool];
    - timer ids are the positive integers the browser hands out, so the test
      [if (ref.current)] on a timer ref is the test for [Some];
    - what the environment decides while a callback runs (what
      [Math.random()] returns, whether [new WebSocket] throws) is an
      [Oracle] attached to the event;
    - [JSON.parse] is a browser built-in: a message event carries its
      outcome, [None] when it throws [SyntaxError];
    - a JavaScript number is the rational it denotes; [Math.pow], [*] and
      [+] round their exact result to binary64 ([fl]: to nearest, ties to
      even, subnormals included; overflow to [Infinity] is not modelled,
      and where it would occur, in [Math.pow] from attempt 1752 on,
      [Math.min] returns the cap either way).  [Math.pow] is taken
      correctly rounded: below the cap its results are binary64 numbers,
      and above it any result that is at least 15 gives the cap.
      [Math.random()] is a rational [r] with [0 <= r < 1], the binary64
      numbers of that range among them; the attempt counter is a [Z]. *)

From Stdlib Require Import ZArith QArith Qround Qminmax Qpower Qabs Lia Lqa.
From stdpp Require Import base option list strings pretty.

Open Scope Z_scope.
Open Scope string_scope.

(** ** JSON values, as [JSON.parse] returns them *)

#[local] Set Warnings "-register-all".

Inductive JValue : Type :=
| JNull
| JBool (b : bool)
| JNum (q : Q)
| JStr (s : string)
| JArr (items : list JValue)
| JObj (fields : list (string * JValue)).

(** JavaScript truthiness of a parsed value ([a && b], [if (a)]). *)
Definition truthy (v : JValue) : bool :=
  match v with
  | JNull => false
  | JBool b => b
  | JNum q => negb (Qeq_bool q 0)
  | JStr s => negb (String.eqb s "")
  | JArr _ => true
  | JObj _ => true
  end.

Fixpoint assoc (k : string) (fields : list (string * JValue)) : option JValue :=
  match fields with
  | [] => None
  | (k', v) :: rest => if String.eqb k k' then Some v else assoc k rest
  end.

(** [m.k] for a value [m] that is not [null]: [None] is [undefined]. *)
Definition prop (k : string) (m : JValue) : option JValue :=
  match m with
  | JObj fields => assoc k fields
  | _ => None
  end.

Definition truthy_prop (k : string) (m : JValue) : bool :=
  match prop k m with
  | Some v => truthy v
  | None => false
  end.

(** [m.type === t] *)
Definition type_is (t : string) (m : JValue) : bool :=
  match prop "type" m with
  | Some (JStr s) => String.eqb s t
  | _ => false
  end.

(** ** WebSocket objects *)

Inductive ReadyState : Type := CONNECTING | OPEN | CLOSING | CLOSED.

#[global] Instance ReadyState_eq_dec : EqDecision ReadyState.
Proof. solve_decision. Defined.

Inductive CloseCall : Type :=
| NotClosed
| CloseNoArgs
| CloseWith (code : Z) (reason : string).

Record Socket : Type := mkSocket {
  readyState : ReadyState;
  onopen : bool;
  onclose : bool;
  onerror : bool;
  onmessage : bool;
  closeCall : CloseCall;
  sent : list JValue
}.

Definition set_readyState (r : ReadyState) (s : Socket) : Socket :=
  mkSocket r (onopen s) (onclose s) (onerror s) (onmessage s) (closeCall s) (sent s).

(** [new WebSocket(url)] followed by the four handler assignments of
    [connect]. *)
Definition fresh_socket : Socket :=
  mkSocket CONNECTING true true true true NotClosed [].

(** [ws.onopen = null; ws.onclose = null; ws.onerror = null;
    ws.onmessage = null] *)
Definition detach (s : Socket) : Socket :=
  mkSocket (readyState s) false false false false (closeCall s) (sent s).

(** [ws.close(...)]: nothing on a socket that is closing or closed,
    otherwise the closing handshake starts. *)
Definition ws_close (c : CloseCall) (s : Socket) : Socket :=
  match readyState s with
  | CONNECTING | OPEN =>
      mkSocket CLOSING (onopen s) (onclose s) (onerror s) (onmessage s) c (sent s)
  | CLOSING | CLOSED => s
  end.

(** [ws.send(frame)] on an open socket. *)
Definition ws_send (frame : JValue) (s : Socket) : Socket :=
  mkSocket (readyState s) (onopen s) (onclose s) (onerror s) (onmessage s)
           (closeCall s) (sent s ++ [frame]).

Definition is_open (s : Socket) : bool :=
  match readyState s with OPEN => true | _ => false end.

Definition detached (s : Socket) : bool :=
  negb (onopen s || onclose s || onerror s || onmessage s).

(** ** Timers *)

Inductive TimerAct : Type :=
| ReconnectT                (* the callback of scheduleReconnect *)
| ConnTimeoutT (ws : nat)   (* the connection timeout of connect, closed over ws *)
| PingT                     (* the interval of startPingInterval *)
| GraceT                    (* the 100ms timeout of reconnect *)
| MountT.                   (* the 50ms timeout of the main effect *)

Record Timer : Type := mkTimer {
  tid : nat;
  due : Z;
  act : TimerAct
}.

Definition is_reconnect (t : Timer) : bool :=
  match act t with ReconnectT => true | _ => false end.

Definition is_grace (t : Timer) : bool :=
  match act t with GraceT => true | _ => false end.

(** ** The hook's refs and React state *)

Inductive ConnState : Type := Disconnected | Connecting | Connected.

Record Hook : Type := mkHook {
  data : option JValue;
  isConnected : bool;
  error : option string;
  signalHistory : JValue;
  wsRef : option nat;
  reconnectTimeoutRef : option nat;
  connectionTimeoutRef : option nat;
  pingIntervalRef : option nat;
  reconnectAttemptsRef : Z;
  isMountedRef : bool;
  isCleaningUpRef : bool;
  connectionStateRef : ConnState
}.

Definition setData (v : option JValue) (h : Hook) : Hook :=
  mkHook v (isConnected h) (error h) (signalHistory h) (wsRef h)
    (reconnectTimeoutRef h) (connectionTimeoutRef h) (pingIntervalRef h)
    (reconnectAttemptsRef h) (isMountedRef h) (isCleaningUpRef h) (connectionStateRef h).

Definition setIsConnected (b : bool) (h : Hook) : Hook :=
  mkHook (data h) b (error h) (signalHistory h) (wsRef h)
    (reconnectTimeoutRef h) (connectionTimeoutRef h) (pingIntervalRef h)
    (reconnectAttemptsRef h) (isMountedRef h) (isCleaningUpRef h) (connectionStateRef h).

Definition setError (e : option string) (h : Hook) : Hook :=
  mkHook (data h) (isConnected h) e (signalHistory h) (wsRef h)
    (reconnectTimeoutRef h) (connectionTimeoutRef h) (pingIntervalRef h)
    (reconnectAttemptsRef h) (isMountedRef h) (isCleaningUpRef h) (connectionStateRef h).

Definition setSignalHistory (v : JValue) (h : Hook) : Hook :=
  mkHook (data h) (isConnected h) (error h) v (wsRef h)
    (reconnectTimeoutRef h) (connectionTimeoutRef h) (pingIntervalRef h)
    (reconnectAttemptsRef h) (isMountedRef h) (isCleaningUpRef h) (connectionStateRef h).

Definition set_wsRef (r : option nat) (h : Hook) : Hook :=
  mkHook (data h) (isConnected h) (error h) (signalHistory h) r
    (reconnectTimeoutRef h) (connectionTimeoutRef h) (pingIntervalRef h)
    (reconnectAttemptsRef h) (isMountedRef h) (isCleaningUpRef h) (connectionStateRef h).

Definition set_reconnectTimeoutRef (r : option nat) (h : Hook) : Hook :=
  mkHook (data h) (isConnected h) (error h) (signalHistory h) (wsRef h)
    r (connectionTimeoutRef h) (pingIntervalRef h)
    (reconnectAttemptsRef h) (isMountedRef h) (isCleaningUpRef h) (connectionStateRef h).

Definition set_connectionTimeoutRef (r : option nat) (h : Hook) : Hook :=
  mkHook (data h) (isConnected h) (error h) (signalHistory h) (wsRef h)
    (reconnectTimeoutRef h) r (pingIntervalRef h)
    (reconnectAttemptsRef h) (isMountedRef h) (isCleaningUpRef h) (connectionStateRef h).

Definition set_pingIntervalRef (r : option nat) (h : Hook) : Hook :=
  mkHook (data h) (isConnected h) (error h) (signalHistory h) (wsRef h)
    (reconnectTimeoutRef h) (connectionTimeoutRef h) r
    (reconnectAttemptsRef h) (isMountedRef h) (isCleaningUpRef h) (connectionStateRef h).

Definition set_reconnectAttemptsRef (n : Z) (h : Hook) : Hook :=
  mkHook (data h) (isConnected h) (error h) (signalHistory h) (wsRef h)
    (reconnectTimeoutRef h) (connectionTimeoutRef h) (pingIntervalRef h)
    n (isMountedRef h) (isCleaningUpRef h) (connectionStateRef h).

Definition set_isMountedRef (b : bool) (h : Hook) : Hook :=
  mkHook (data h) (isConnected h) (error h) (signalHistory h) (wsRef h)
    (reconnectTimeoutRef h) (connectionTimeoutRef h) (pingIntervalRef h)
    (reconnectAttemptsRef h) b (isCleaningUpRef h) (connectionStateRef h).

Definition set_isCleaningUpRef (b : bool) (h : Hook) : Hook :=
  mkHook (data h) (isConnected h) (error h) (signalHistory h) (wsRef h)
    (reconnectTimeoutRef h) (connectionTimeoutRef h) (pingIntervalRef h)
    (reconnectAttemptsRef h) (isMountedRef h) b (connectionStateRef h).

Definition set_connectionStateRef (c : ConnState) (h : Hook) : Hook :=
  mkHook (data h) (isConnected h) (error h) (signalHistory h) (wsRef h)
    (reconnectTimeoutRef h) (connectionTimeoutRef h) (pingIntervalRef h)
    (reconnectAttemptsRef h) (isMountedRef h) (isCleaningUpRef h) c.

(** ** The world: hook, sockets, timers, clock *)

Inductive Level : Type := LLog | LWarn | LError.

Record World : Type := mkWorld {
  hook : Hook;
  sockets : list Socket;
  timers : list Timer;
  nextTimer : nat;
  clock : Z;
  connectTimeout : option nat;   (* the local of the main effect *)
  listeners : bool;              (* visibilitychange / online / offline registered *)
  console : list (Level * string)
}.

Definition upd_hook (f : Hook -> Hook) (w : World) : World :=
  mkWorld (f (hook w)) (sockets w) (timers w) (nextTimer w) (clock w)
          (connectTimeout w) (listeners w) (console w).

Definition set_sockets (l : list Socket) (w : World) : World :=
  mkWorld (hook w) l (timers w) (nextTimer w) (clock w)
          (connectTimeout w) (listeners w) (console w).

Definition set_timers (l : list Timer) (w : World) : World :=
  mkWorld (hook w) (sockets w) l (nextTimer w) (clock w)
          (connectTimeout w) (listeners w) (console w).

Definition set_clock (t : Z) (w : World) : World :=
  mkWorld (hook w) (sockets w) (timers w) (nextTimer w) t
          (connectTimeout w) (listeners w) (console w).

Definition set_connectTimeout (r : option nat) (w : World) : World :=
  mkWorld (hook w) (sockets w) (timers w) (nextTimer w) (clock w)
          r (listeners w) (console w).

Definition set_listeners (b : bool) (w : World) : World :=
  mkWorld (hook w) (sockets w) (timers w) (nextTimer w) (clock w)
          (connectTimeout w) b (console w).

Definition print (l : Level) (msg : string) (w : World) : World :=
  mkWorld (hook w) (sockets w) (timers w) (nextTimer w) (clock w)
          (connectTimeout w) (listeners w) (console w ++ [(l, msg)]).

Definition upd_sock (i : nat) (f : Socket -> Socket) (w : World) : World :=
  set_sockets (alter f i (sockets w)) w.

(** [ws.readyState]; a reference to an object that was never created does
    not exist in the source and reads as [CLOSED] here. *)
Definition state_of (i : nat) (w : World) : ReadyState :=
  match sockets w !! i with
  | Some s => readyState s
  | None => CLOSED
  end.

(** [setTimeout(cb, delay)] and [setInterval(cb, delay)]: the id returned
    is [nextTimer w]. *)
Definition setTimeout (a : TimerAct) (delay : Z) (w : World) : World :=
  mkWorld (hook w) (sockets w)
          (timers w ++ [mkTimer (nextTimer w) (clock w + delay) a])
          (S (nextTimer w)) (clock w)
          (connectTimeout w) (listeners w) (console w).

(** [clearTimeout(id)] and [clearInterval(id)] *)
Definition clearTimeout (id : nat) (w : World) : World :=
  set_timers (List.filter (fun t => negb (Nat.eqb (tid t) id)) (timers w)) w.

Definition init_hook : Hook :=
  mkHook None false None (JArr []) None None None None 0 false false Disconnected.

Definition init : World :=
  mkWorld init_hook [] [] 1 0 None false [].

(** ** Numbers: binary64 *)

(** The binade of a positive rational: [2^e <= x < 2^(e+1)]. *)
Definition binade (x : Q) : Z :=
  let c := Z.log2 (Qnum x) - Z.log2 (Zpos (Qden x)) in
  if Qle_bool (2 ^ c) x then c else c - 1.

(** To the nearest integer, ties to even. *)
Definition round_even (m : Q) : Z :=
  let f := Qfloor m in
  match Qcompare (m - inject_Z f) (1 # 2) with
  | Lt => f
  | Gt => f + 1
  | Eq => if Z.even f then f else f + 1
  end.

(** The spacing of the binary64 numbers around a positive [x]: 53
    significant bits, and the fixed spacing 2^-1074 of the subnormals. *)
Definition ulp (x : Q) : Q := 2 ^ Z.max (binade x - 52) (-1074).

(** Rounding to binary64, to nearest, ties to even. *)
Definition fl (x : Q) : Q :=
  match Qcompare 0 x with
  | Lt => inject_Z (round_even (x / ulp x)) * ulp x
  | Eq => 0
  | Gt => - (inject_Z (round_even (- x / ulp (- x))) * ulp (- x))
  end.

(** ** Constants *)

Definition RECONNECT_DELAY : Z := 2000.
Definition MAX_RECONNECT_DELAY : Z := 30000.
Definition CONNECTION_TIMEOUT : Z := 10000.
Definition PING_INTERVAL : Z := 25000.

(** ** The environment's choices during one callback *)

Record Oracle : Type := mkOracle {
  random : Q;          (* what Math.random() returns *)
  ctorThrows : bool    (* whether new WebSocket(url) throws *)
}.

(** ** clearTimers, cleanup, startPingInterval *)

Definition clearTimers (w : World) : World :=
  let w := match reconnectTimeoutRef (hook w) with
           | Some t => upd_hook (set_reconnectTimeoutRef None) (clearTimeout t w)
           | None => w
           end in
  let w := match connectionTimeoutRef (hook w) with
           | Some t => upd_hook (set_connectionTimeoutRef None) (clearTimeout t w)
           | None => w
           end in
  match pingIntervalRef (hook w) with
  | Some t => upd_hook (set_pingIntervalRef None) (clearTimeout t w)
  | None => w
  end.

Definition cleanup (closeSocket : bool) (w : World) : World :=
  let w := upd_hook (set_isCleaningUpRef true) w in
  let w := clearTimers w in
  let w :=
    match wsRef (hook w) with
    | Some i =>
        if closeSocket then
          (* Remove handlers to prevent callbacks during cleanup *)
          let w := upd_sock i detach w in
          let w :=
            match state_of i w with
            | OPEN => upd_sock i (ws_close (CloseWith 1000 "Client cleanup")) w
            | CONNECTING => upd_sock i (ws_close CloseNoArgs) w
            | _ => w
            end in
          upd_hook (set_wsRef None) w
        else w
    | None => w
    end in
  let w := upd_hook (set_connectionStateRef Disconnected) w in
  upd_hook (set_isCleaningUpRef false) w.

Definition startPingInterval (w : World) : World :=
  let w := match pingIntervalRef (hook w) with
           | Some t => clearTimeout t w
           | None => w
           end in
  upd_hook (set_pingIntervalRef (Some (nextTimer w))) (setTimeout PingT PING_INTERVAL w).

(** The interval's callback. *)
Definition ping_tick (w : World) : World :=
  match wsRef (hook w) with
  | Some i =>
      match state_of i w with
      | OPEN => upd_sock i (ws_send (JObj [("type", JStr "ping")])) w
      | _ => w
      end
  | None => w
  end.

(** ** scheduleReconnect *)

(** [Math.min(RECONNECT_DELAY * Math.pow(1.5, n - 1), MAX_RECONNECT_DELAY)] *)
Definition baseDelay (n : Z) : Q :=
  Qmin (fl (inject_Z RECONNECT_DELAY * fl ((3 # 2) ^ (n - 1))))
       (inject_Z MAX_RECONNECT_DELAY).

(** [Math.floor(baseDelay + Math.random() * 1000)] *)
Definition reconnect_delay (n : Z) (r : Q) : Z :=
  Qfloor (fl (baseDelay n + fl (r * 1000))).

(** [Math.round(delay / 1000)] for an integer [delay] *)
Definition round_seconds (delay : Z) : Z := (delay + 500) / 1000.

Definition scheduleReconnect (r : Q) (w : World) : World :=
  if negb (isMountedRef (hook w)) || isCleaningUpRef (hook w) then w
  else
    let w := match reconnectTimeoutRef (hook w) with
             | Some t => clearTimeout t w
             | None => w
             end in
    let n := reconnectAttemptsRef (hook w) + 1 in
    let w := upd_hook (set_reconnectAttemptsRef n) w in
    let delay := reconnect_delay n r in
    let w := print LLog "Scheduling reconnect" w in
    let w := upd_hook (setError (Some ("Reconnecting in " +:+ pretty (round_seconds delay) +:+ "s..."))) w in
    upd_hook (set_reconnectTimeoutRef (Some (nextTimer w))) (setTimeout ReconnectT delay w).

(** ** connect and the callbacks it installs *)

Definition connect (o : Oracle) (w : World) : World :=
  if negb (isMountedRef (hook w)) || isCleaningUpRef (hook w) then w
  else
    match wsRef (hook w), (match wsRef (hook w) with Some i => state_of i w | None => CLOSED end) with
    | Some _, OPEN => print LLog "WebSocket already connected" w
    | Some _, CONNECTING => print LLog "WebSocket already connecting" w
    | _, _ =>
        (* Clean up any existing dead connection without triggering reconnect *)
        let w := match wsRef (hook w) with
                 | Some i => upd_hook (set_wsRef None) (upd_sock i detach w)
                 | None => w
                 end in
        let w := clearTimers w in
        let w := upd_hook (set_connectionStateRef Connecting) w in
        let w := print LLog "Connecting to WebSocket:" w in
        let w := upd_hook (setError (Some "Connecting...")) w in
        if ctorThrows o then
          let w := print LError "Error creating WebSocket:" w in
          let w := upd_hook (set_connectionStateRef Disconnected) w in
          let w := upd_hook (setError (Some "Failed to create connection")) w in
          let w := upd_hook (setIsConnected false) w in
          if isMountedRef (hook w) then scheduleReconnect (random o) w else w
        else
          let ws := length (sockets w) in
          let w := set_sockets (sockets w ++ [fresh_socket]) w in
          let w := upd_hook (set_wsRef (Some ws)) w in
          upd_hook (set_connectionTimeoutRef (Some (nextTimer w)))
                   (setTimeout (ConnTimeoutT ws) CONNECTION_TIMEOUT w)
    end.

(** The connection timeout's callback, closed over [ws]. *)
Definition connection_timeout (o : Oracle) (ws : nat) (w : World) : World :=
  if bool_decide (wsRef (hook w) = Some ws)
     && negb (bool_decide (state_of ws w = OPEN)) then
    let w := print LWarn "Connection timeout - server may not be running" w in
    let w := upd_sock ws (ws_close CloseNoArgs) w in
    let w := upd_hook (set_connectionStateRef Disconnected) w in
    let w := upd_hook (setError (Some "Connection timeout - is the server running?")) w in
    let w := upd_hook (setIsConnected false) w in
    if isMountedRef (hook w) then scheduleReconnect (random o) w else w
  else w.

Definition ws_onopen (ws : nat) (w : World) : World :=
  if negb (bool_decide (wsRef (hook w) = Some ws)) then
    upd_sock ws (ws_close CloseNoArgs) w
  else
    let w := print LLog "WebSocket connected successfully" w in
    let w := upd_hook (set_connectionStateRef Connected) w in
    let w := upd_hook (setIsConnected true) w in
    let w := upd_hook (setError None) w in
    let w := upd_hook (set_reconnectAttemptsRef 0) w in
    let w := match connectionTimeoutRef (hook w) with
             | Some t => upd_hook (set_connectionTimeoutRef None) (clearTimeout t w)
             | None => w
             end in
    startPingInterval w.

(** [parsed] is the outcome of [JSON.parse(event.data)].  Reading [.type]
    of [null] throws inside the [try] and lands in the same [catch]. *)
Definition ws_onmessage (ws : nat) (parsed : option JValue) (w : World) : World :=
  if negb (bool_decide (wsRef (hook w) = Some ws)) then w
  else
    match parsed with
    | None => print LError "Error parsing message:" w
    | Some JNull => print LError "Error parsing message:" w
    | Some m =>
        if type_is "market_data" m && truthy_prop "data" m then
          let w := upd_hook (setData (prop "data" m)) w in
          let w := upd_hook (setError None) w in
          match prop "signal_history" m with
          | Some h => if truthy h then upd_hook (setSignalHistory h) w else w
          | None => w
          end
        else if type_is "signal_history" m && truthy_prop "data" m then
          match prop "data" m with
          | Some d => upd_hook (setSignalHistory d) w
          | None => w
          end
        else if type_is "connection" m then print LLog "Server:" w
        else w
    end.

Definition ws_onerror (ws : nat) (w : World) : World :=
  if negb (bool_decide (wsRef (hook w) = Some ws)) then w
  else print LWarn "WebSocket error - server may be unavailable" w.

Definition ws_onclose (o : Oracle) (ws : nat) (code : Z) (reason : string) (w : World) : World :=
  if negb (bool_decide (wsRef (hook w) = Some ws)) then w
  else
    let w := print LLog "WebSocket closed:" w in
    let w := upd_hook (set_connectionStateRef Disconnected) w in
    let w := upd_hook (setIsConnected false) w in
    let w := clearTimers w in
    if isCleaningUpRef (hook w) || negb (isMountedRef (hook w)) then w
    else if Z.eqb code 1000 && String.eqb reason "Client cleanup" then
      print LLog "Connection closed intentionally by client" w
    else
      let w := print LLog "Connection lost - will attempt to reconnect" w in
      let w := upd_hook (setError (Some "Connection lost - reconnecting...")) w in
      scheduleReconnect (random o) w.

(** ** reconnect, the DOM listeners, the main effect *)

Definition reconnect (w : World) : World :=
  let w := print LLog "Manual reconnect triggered" w in
  let w := upd_hook (set_reconnectAttemptsRef 0) w in
  let w := cleanup true w in
  setTimeout GraceT 100 w.

Definition handleVisibilityChange (o : Oracle) (visible : bool) (w : World) : World :=
  if visible && isMountedRef (hook w) then
    if match wsRef (hook w) with
       | None => true
       | Some i => negb (bool_decide (state_of i w = OPEN))
       end
    then
      let w := print LLog "Tab visible - checking connection..." w in
      let w := upd_hook (set_reconnectAttemptsRef 0) w in
      connect o w
    else w
  else w.

Definition handleOnline (o : Oracle) (w : World) : World :=
  if isMountedRef (hook w) then
    let w := print LLog "Network online - reconnecting..." w in
    let w := upd_hook (set_reconnectAttemptsRef 0) w in
    connect o w
  else w.

Definition handleOffline (w : World) : World :=
  let w := print LLog "Network offline" w in
  let w := upd_hook (setError (Some "Network offline")) w in
  upd_hook (setIsConnected false) w.

(** The three effects run together when the component mounts. *)
Definition effect_mount (w : World) : World :=
  let w := set_listeners true w in
  let w := upd_hook (set_isMountedRef true) w in
  set_connectTimeout (Some (nextTimer w)) (setTimeout MountT 50 w).

(** Their cleanups, run together when it unmounts. *)
Definition effect_unmount (w : World) : World :=
  let w := set_listeners false w in
  let w := print LLog "WebSocket hook unmounting" w in
  let w := match connectTimeout w with
           | Some t => clearTimeout t w
           | None => w
           end in
  let w := upd_hook (set_isMountedRef false) w in
  cleanup true w.

(** ** The event loop *)

Inductive Event : Type :=
| Mount
| Unmount
| ManualReconnect
| VisibilityChange (visible : bool)
| Online
| Offline
| TimerFire (id : nat)
| SockOpen (ws : nat)
| SockMessage (ws : nat) (parsed : option JValue)
| SockError (ws : nat)
| SockClose (ws : nat) (code : Z) (reason : string).

Record Occurrence : Type := mkOcc {
  at_time : Z;
  event : Event;
  oracle : Oracle
}.

Definition timer_callback (o : Oracle) (a : TimerAct) (w : World) : World :=
  match a with
  | ReconnectT =>
      if isMountedRef (hook w) && negb (isCleaningUpRef (hook w)) then connect o w else w
  | ConnTimeoutT ws => connection_timeout o ws w
  | PingT => ping_tick w
  | GraceT => if isMountedRef (hook w) then connect o w else w
  | MountT => if isMountedRef (hook w) then connect o w else w
  end.

(** A timeout leaves the table when it fires; the interval is re-armed. *)
Definition fire (t : Timer) (w : World) : World :=
  let rest := List.filter (fun t' => negb (Nat.eqb (tid t') (tid t))) (timers w) in
  match act t with
  | PingT => set_timers (rest ++ [mkTimer (tid t) (clock w + PING_INTERVAL) PingT]) w
  | _ => set_timers rest w
  end.

Definition deliver (o : Oracle) (e : Event) (w : World) : World :=
  match e with
  | Mount => if listeners w then w else effect_mount w
  | Unmount => if listeners w then effect_unmount w else w
  | ManualReconnect => reconnect w
  | VisibilityChange v => if listeners w then handleVisibilityChange o v w else w
  | Online => if listeners w then handleOnline o w else w
  | Offline => if listeners w then handleOffline w else w
  | TimerFire id =>
      match List.find (fun t => Nat.eqb (tid t) id) (timers w) with
      | Some t => if Z.leb (due t) (clock w) then timer_callback o (act t) (fire t w) else w
      | None => w
      end
  | SockOpen i =>
      match sockets w !! i with
      | Some s =>
          match readyState s with
          | CONNECTING =>
              let w := upd_sock i (set_readyState OPEN) w in
              if onopen s then ws_onopen i w else w
          | _ => w
          end
      | None => w
      end
  | SockMessage i parsed =>
      match sockets w !! i with
      | Some s =>
          match readyState s with
          | OPEN => if onmessage s then ws_onmessage i parsed w else w
          | _ => w
          end
      | None => w
      end
  | SockError i =>
      match sockets w !! i with
      | Some s =>
          match readyState s with
          | CLOSED => w
          | _ => if onerror s then ws_onerror i w else w
          end
      | None => w
      end
  | SockClose i code reason =>
      match sockets w !! i with
      | Some s =>
          match readyState s with
          | CLOSED => w
          | _ =>
              let w := upd_sock i (set_readyState CLOSED) w in
              if onclose s then ws_onclose o i code reason w else w
          end
      | None => w
      end
  end.

(** Time does not run backwards: an occurrence stamped before the clock is
    not an event of this run. *)
Definition dispatch (occ : Occurrence) (w : World) : World :=
  if Z.ltb (at_time occ) (clock w) then w
  else deliver (oracle occ) (event occ) (set_clock (at_time occ) w).

Fixpoint run (tr : list Occurrence) (w : World) : World :=
  match tr with
  | [] => w
  | occ :: rest => run rest (dispatch occ w)
  end.

(** [Math.random()] returns a number in [0, 1). *)
Definition valid_oracle (o : Oracle) : Prop := (0 <= random o)%Q /\ (random o < 1)%Q.

Inductive reachable : World -> Prop :=
| reach_init : reachable init
| reach_step w occ :
    reachable w -> valid_oracle (oracle occ) -> reachable (dispatch occ w).

(** * The rest of the module: the socket URL *)

(** [s.includes(sub)] *)
Fixpoint includes (s sub : string) : bool :=
  if String.prefix sub s then true
  else match s with
       | EmptyString => false
       | String _ rest => includes rest sub
       end.

Definition getWebSocketURL (protocol host : string) : string :=
  let scheme := if String.eqb protocol "https:" then "wss:" else "ws:" in
  if includes host "localhost" || includes host "127.0.0.1" then "ws://localhost:8765"
  else scheme +:+ "//" +:+ host +:+ "/ws".

(** * The dashboard's use of the hook (App.tsx) *)

(** ** Indicator cards: add, remove, drag and drop *)

(** An element of a JavaScript array of strings: [None] is [undefined]. *)
Abbreviation Slot := (option string).

(** [arr.splice(start, 1)] on a copy: the removed elements' first one (the
    destructured [removed]) and what is left.  [start] past the end removes
    nothing. *)
Definition splice_out (start : nat) (l : list Slot) : Slot * list Slot :=
  (mjoin (l !! start), (take start l ++ skipn (S start) l)%list).

(** [arr.splice(start, 0, x)]: [start] past the end appends. *)
Definition splice_in (start : nat) (x : Slot) (l : list Slot) : list Slot :=
  (take start l ++ x :: skipn start l)%list.

Record Cards : Type := mkCards {
  activeIndicators : list Slot;
  draggedFrom : option nat
}.

Definition handleDragStart (index : nat) (c : Cards) : Cards :=
  mkCards (activeIndicators c) (Some index).

Definition handleDrop (index : nat) (c : Cards) : Cards :=
  match draggedFrom c with
  | None => c
  | Some from =>
      let '(removed, rest) := splice_out from (activeIndicators c) in
      mkCards (splice_in index removed rest) None
  end.

(** ** Trade log *)

Record TradeEntry : Type := mkTrade {
  timestamp : string;
  signal : JValue;
  price : option JValue;
  pnl_pct : option JValue
}.

(** The updater passed to [setTradeHistory]. *)
Definition tradeHistory_update (newTrade : TradeEntry) (prev : list TradeEntry)
  : list TradeEntry :=
  match prev with
  | [] => take 20 (newTrade :: prev)
  | first :: _ =>
      if negb (String.eqb (timestamp first) (timestamp newTrade))
      then take 20 (newTrade :: prev)
      else prev
  end.

(** [latest.trading_signal && latest.trading_signal !== 'HOLD'] *)
Definition has_trade_signal (latest : JValue) : bool :=
  match prop "trading_signal" latest with
  | Some v => truthy v && negb (match v with JStr s => String.eqb s "HOLD" | _ => false end)
  | None => false
  end.

(** The trade part of the data effect; [now] is
    [new Date().toLocaleTimeString(...)]. *)
Definition track_trade (now : string) (latest : JValue) (prev : list TradeEntry)
  : list TradeEntry :=
  if has_trade_signal latest then
    tradeHistory_update
      (mkTrade now (default JNull (prop "trading_signal" latest))
               (prop "close" latest) (prop "pnl_pct" latest)) prev
  else prev.

(** ** Sparkline windows *)

(** [prev.slice(-49)] *)
Definition slice_last (n : nat) {A} (l : list A) : list A :=
  skipn (length l - n) l.

(** The updater passed to [setRecentCloses] and [setRecentVolumes]. *)
Definition recent_update {A} (x : A) (prev : list A) : list A :=
  (slice_last 49 prev ++ [x])%list.

(** [if (latest.close) setRecentCloses(...)], and the same for [volume]. *)
Definition track_recent (field : string) (latest : JValue) (prev : list JValue)
  : list JValue :=
  match prop field latest with
  | Some v => if truthy v then recent_update v prev else prev
  | None => prev
  end.

(** ** Highlighting of changed columns *)

Inductive Change : Type := Up | Down.

Record UpdatedItem : Type := mkItem {
  col : string;
  change : option Change
}.

Definition columns : list string :=
  ["timestamp"; "close"; "volume"; "cvd_pct"; "atr_14"; "tvi"; "svc_delta_pct";
   "phi_sigma"; "tf_mod"; "tf_crit"; "directional_indicator"].

(** [a === b] on two property reads of two different parsed messages:
    primitives compare by value, objects and arrays are never the same
    object; [None] is [undefined]. *)
Definition strict_eq (a b : option JValue) : bool :=
  match a, b with
  | None, None => true
  | Some JNull, Some JNull => true
  | Some (JBool x), Some (JBool y) => Bool.eqb x y
  | Some (JNum x), Some (JNum y) => Qeq_bool x y
  | Some (JStr x), Some (JStr y) => String.eqb x y
  | _, _ => false
  end.

(** The direction given to a changed column. *)
Definition direction (oldVal newVal : option JValue) : option Change :=
  match oldVal, newVal with
  | Some (JNum o), Some (JNum n) =>
      if negb (Qle_bool n o) then Some Up
      else if negb (Qle_bool o n) then Some Down
      else None
  | _, _ => None
  end.

(** The [columns.forEach] of the data effect; [prev] is
    [prevLatestRef.current], [None] when it is [null]. *)
Definition changed_cols (prev : option JValue) (latest : JValue) : list UpdatedItem :=
  match prev with
  | None => []
  | Some p =>
      omap (fun c =>
              let oldVal := prop c p in
              let newVal := prop c latest in
              if strict_eq newVal oldVal then None
              else Some (mkItem c (direction oldVal newVal)))
           columns
  end.

(** * Vocabulary of the properties *)

(** The socket a transport event originates from. *)
Definition origin (e : Event) : option nat :=
  match e with
  | SockOpen i | SockMessage i _ | SockError i | SockClose i _ _ => Some i
  | _ => None
  end.

(** Everything the session owns besides the console: refs and React state,
    the timer table and the effect's local.  Sockets and the clock belong to
    the environment. *)
Definition same_session (w w' : World) : Prop :=
  hook w' = hook w /\ timers w' = timers w /\ nextTimer w' = nextTimer w /\
  connectTimeout w' = connectTimeout w /\ listeners w' = listeners w.

(** The history list a parsed frame makes [ws.onmessage] store, if any. *)
Definition history_payload (m : JValue) : option JValue :=
  if type_is "market_data" m && truthy_prop "data" m then
    match prop "signal_history" m with
    | Some h => if truthy h then Some h else None
    | None => None
    end
  else if type_is "signal_history" m && truthy_prop "data" m then prop "data" m
  else None.

(** Number of records in the history buffer. *)
Definition history_size (w : World) : nat :=
  match signalHistory (hook w) with
  | JArr l => length l
  | _ => 0%nat
  end.

(** The reconnects that are scheduled: pending timers of
    [scheduleReconnect]. *)
Definition pending_reconnects (w : World) : list Timer :=
  List.filter is_reconnect (timers w).

(** The close the client itself asks for in [cleanup]. *)
Definition intentional (code : Z) (reason : string) : bool :=
  Z.eqb code 1000 && String.eqb reason "Client cleanup".

(** A socket the hook has let go of: no handler attached, closing or
    closed. *)
Definition dead (s : Socket) : bool :=
  detached s &&
  match readyState s with CLOSING | CLOSED => true | _ => false end.

(** Every socket except the current one is dead. *)
Definition stale_list (l : list Socket) (cur : option nat) : Prop :=
  forall i s, l !! i = Some s -> cur <> Some i -> dead s = true.

Definition stale_ok (w : World) : Prop :=
  stale_list (sockets w) (wsRef (hook w)).

(** A pending timer is held by the ref (or effect local) of its kind; only
    the grace timer of [reconnect] is held by nothing. *)
Definition tracked (h : Hook) (ct : option nat) (ls : bool) (t : Timer) : Prop :=
  match act t with
  | ReconnectT => reconnectTimeoutRef h = Some (tid t)
  | ConnTimeoutT _ => connectionTimeoutRef h = Some (tid t)
  | PingT => pingIntervalRef h = Some (tid t)
  | MountT => ls = true /\ ct = Some (tid t)
  | GraceT => True
  end.

Definition timers_ok (w : World) : Prop :=
  forall t, In t (timers w) -> tracked (hook w) (connectTimeout w) (listeners w) t.

(** [if (ref) clearTimeout(ref)] on the timer table. *)
Definition drop (r : option nat) (l : list Timer) : list Timer :=
  match r with
  | Some id => List.filter (fun t => negb (Nat.eqb (tid t) id)) l
  | None => l
  end.

#[global] Arguments drop : simpl never.

Definition clear_refs (h : Hook) : Hook :=
  set_pingIntervalRef None (set_connectionTimeoutRef None (set_reconnectTimeoutRef None h)).

Definition Inv (w : World) : Prop := stale_ok w /\ timers_ok w.

(** The session after [stop()]: unmounted, no socket, no listener, no timer
    ref, and nothing pending but grace timers. *)
Definition stopped (w : World) : Prop :=
  isMountedRef (hook w) = false /\
  isCleaningUpRef (hook w) = false /\
  wsRef (hook w) = None /\
  reconnectTimeoutRef (hook w) = None /\
  connectionTimeoutRef (hook w) = None /\
  pingIntervalRef (hook w) = None /\
  connectionStateRef (hook w) = Disconnected /\
  listeners w = false /\
  (forall s, In s (sockets w) -> dead s = true) /\
  (forall t, In t (timers w) -> act t = GraceT).

(** The snapshot and the history buffer. *)
Definition payload (w : World) : option JValue * JValue :=
  (data (hook w), signalHistory (hook w)).

(** A [signal_history] frame carrying [n] records. *)
Definition history_frame (n : nat) : JValue :=
  JObj [("type", JStr "signal_history"); ("data", JArr (repeat JNull n))].

Definition quiet : Oracle := mkOracle 0 false.

(** Mount, let the 50ms timer connect, open, receive [n] records. *)
Definition history_trace (n : nat) : list Occurrence :=
  [mkOcc 0 Mount quiet; mkOcc 50 (TimerFire 1) quiet;
   mkOcc 60 (SockOpen 0) quiet;
   mkOcc 70 (SockMessage 0 (Some (history_frame n))) quiet].

(** A non-negative binary64 number: [j * 2^k] with [j] of at most 53 bits
    and [k] not below the exponent of the subnormals. *)
Definition binary64 (y : Q) : Prop :=
  exists j k : Z, 0 <= j <= 2 ^ 53 /\ -1074 <= k /\ (y == inject_Z j * 2 ^ k)%Q.

(** The largest binary64 number below 1. *)
Definition below_one : Q := (2 ^ 53 - 1) # (2 ^ 53).

(** A lost closure: the close event of the current socket, its handler
    attached and the socket not yet closed, with any code and reason but
    the client's own, on a session that is mounted and not cleaning up. *)
Definition is_loss (w : World) (e : Event) : bool :=
  match e with
  | SockClose i code reason =>
      bool_decide (wsRef (hook w) = Some i) &&
      match sockets w !! i with
      | Some s => negb (bool_decide (readyState s = CLOSED)) && onclose s
      | None => false
      end &&
      negb (intentional code reason) &&
      isMountedRef (hook w) && negb (isCleaningUpRef (hook w))
  | _ => false
  end.

(** The events that may count an attempt without a closure: a connection
    timeout that fires, and an event that may call [connect] while
    [new WebSocket] throws. *)
Definition fails (w : World) (occ : Occurrence) : bool :=
  match event occ with
  | TimerFire id =>
      match List.find (fun t => Nat.eqb (tid t) id) (timers w) with
      | Some t =>
          match act t with
          | ConnTimeoutT _ => true
          | PingT => false
          | _ => ctorThrows (oracle occ)
          end
      | None => false
      end
  | Online | VisibilityChange true => ctorThrows (oracle occ)
  | _ => false
  end.

(** The events that may set the counter back to 0: an open, a manual
    reconnect, the network coming back, the tab becoming visible. *)
Definition resets (e : Event) : bool :=
  match e with
  | SockOpen _ | ManualReconnect | Online | VisibilityChange true => true
  | _ => false
  end.

(** A run in which every event arrives on time, no connection timeout
    fires, the constructor never throws and, unless [reset_ok], nothing
    resets the counter. *)
Fixpoint steady (reset_ok : bool) (tr : list Occurrence) (w : World) : Prop :=
  match tr with
  | [] => True
  | occ :: rest =>
      clock w <= at_time occ /\ valid_oracle (oracle occ) /\
      fails w occ = false /\
      (reset_ok = false -> resets (event occ) = false) /\
      steady reset_ok rest (dispatch occ w)
  end.

(** The number of lost closures in a run. *)
Fixpoint losses (tr : list Occurrence) (w : World) : Z :=
  match tr with
  | [] => 0
  | occ :: rest =>
      (if is_loss w (event occ) then 1 else 0) + losses rest (dispatch occ w)
  end.

Abbreviation attempts w := (reconnectAttemptsRef (hook w)).

(** Two hooks that differ at most in the attempt counter. *)
Definition attempts_only (h h' : Hook) : Prop :=
  exists n, h' = set_reconnectAttemptsRef n h.


(** One step of a stopped session: still stopped, no socket created, no
    ref or React state touched but the attempt counter. *)
Definition still (w w' : World) : Prop :=
  stopped w' /\ length (sockets w') = length (sockets w) /\
  attempts_only (hook w) (hook w').

Definition lost (t : Z) (ws : nat) : Occurrence := mkOcc t (SockClose ws 1006 "") quiet.
Definition tick (t : Z) (id : nat) : Occurrence := mkOcc t (TimerFire id) quiet.

(** Six lost closures in a row, each retry timer fired at its due time. *)
Definition six_losses : list Occurrence :=
  [mkOcc 0 Mount quiet; tick 50 1;
   lost 100 0; tick 2100 3;
   lost 2200 1; tick 5200 5;
   lost 5300 2; tick 9800 7;
   lost 9900 3; tick 16650 9;
   lost 16700 4; tick 26825 11;
   lost 26900 5].

(** [Math.random()] returns the largest number below 1. *)
Definition top : Oracle := mkOracle below_one false.

(** [new WebSocket] throws. *)
Definition throwing : Oracle := mkOracle 0 true.

(** Two lost closures, the tab becomes visible, a third lost closure: no
    socket has opened in between. *)
Definition losses_with_reset : list Occurrence :=
  [mkOcc 0 Mount quiet; tick 50 1;
   lost 100 0; tick 2100 3;
   lost 2200 1; mkOcc 3000 (VisibilityChange true) quiet;
   lost 3100 2].

(** A lost closure, then the retry times out and its socket closes. *)
Definition loss_then_timeout : list Occurrence :=
  [mkOcc 0 Mount quiet; tick 50 1;
   lost 100 0; tick 2100 3;
   tick 12100 4; lost 12101 1].

(** The first constructor throws, the retry connects, the socket is lost. *)
Definition throw_then_loss : list Occurrence :=
  [mkOcc 0 Mount quiet; mkOcc 50 (TimerFire 1) throwing;
   tick 2050 2; lost 2100 0].

(** After an open: a manual reconnect, a new attempt that times out, and
    the close event of its socket. *)
Definition open_then_timeout : list Occurrence :=
  [mkOcc 0 Mount quiet; tick 50 1; mkOcc 60 (SockOpen 0) quiet;
   mkOcc 100 ManualReconnect quiet; tick 200 4;
   tick 10200 5; lost 10201 1].

(** The first attempt never opens: its connection timeout fires at 10000ms
    after Connecting. *)
Definition timeout_run : list Occurrence :=
  [mkOcc 0 Mount quiet; tick 50 1; tick 10050 2].


(** Mounted, first attempt in flight. *)
Definition connecting_world : World :=
  run [mkOcc 0 Mount quiet; tick 50 1] init.

(** Mounted, first attempt open. *)
Definition open_world : World :=
  run [mkOcc 0 Mount quiet; tick 50 1; mkOcc 60 (SockOpen 0) quiet] init.

Definition open_socket : Socket := mkSocket OPEN true true true true NotClosed [].

(** A world in which socket 0 was superseded by socket 1 but still has its
    handlers. *)
Definition superseded_world : World :=
  mkWorld (set_wsRef (Some 1%nat) (set_isMountedRef true init_hook))
          [open_socket; fresh_socket] [] 1 0 None true [].

(** A [market_data] frame without [data] that carries a history list. *)
Definition headless_frame : JValue :=
  JObj [("type", JStr "market_data"); ("signal_history", JArr [JNull])].

(** * Vocabulary of the further properties *)

(** ** The dashboard *)

(** The window after a series of snapshots, starting empty. *)
Definition recent_after (field : string) (snapshots : list JValue) : list JValue :=
  fold_left (fun acc latest => track_recent field latest acc) snapshots [].

(** The truthy values of a field, in order of arrival. *)
Definition truthy_values (field : string) (snapshots : list JValue) : list JValue :=
  omap (fun latest => match prop field latest with
                      | Some v => if truthy v then Some v else None
                      | None => None
                      end) snapshots.

(** The trade log after a series of snapshots, each with the wall-clock
    string at which its effect ran, starting empty. *)
Definition trades_after (events : list (string * JValue)) : list TradeEntry :=
  fold_left (fun acc e => track_trade (fst e) (snd e) acc) events [].

(** No two neighbours carry the same timestamp. *)
Fixpoint distinct_neighbours (l : list TradeEntry) : Prop :=
  match l with
  | a :: (b :: _) as rest =>
      timestamp a <> timestamp b /\ distinct_neighbours rest
  | _ => True
  end.

(** ** What the callbacks are made of *)

(** The only frame the hook sends. *)
Definition ping_frame : JValue := JObj [("type", JStr "ping")].

(** The assignments to a socket: none but the ping touches what was sent. *)
Inductive socket_op : (Socket -> Socket) -> Prop :=
| sop_detach : socket_op detach
| sop_close c : socket_op (ws_close c)
| sop_state r : socket_op (set_readyState r)
| sop_ping : socket_op (ws_send ping_frame).

(** The assignments to refs and state that any callback may make.  Left
    out are the three that only some callbacks make: the attempt counter,
    [setIsConnected(true)] and [isCleaningUpRef]. *)
Inductive hook_op : (Hook -> Hook) -> Prop :=
| hop_data v : hook_op (setData v)
| hop_error e : hook_op (setError e)
| hop_history v : hook_op (setSignalHistory v)
| hop_offline : hook_op (setIsConnected false)
| hop_ws r : hook_op (set_wsRef r)
| hop_reconnectTimeout r : hook_op (set_reconnectTimeoutRef r)
| hop_connectionTimeout r : hook_op (set_connectionTimeoutRef r)
| hop_pingInterval r : hook_op (set_pingIntervalRef r)
| hop_mounted b : hook_op (set_isMountedRef b)
| hop_state c : hook_op (set_connectionStateRef c).

(** What a callback is allowed beyond the common operations. *)
Inductive Perm : Type :=
| Plain      (* nothing *)
| Opening    (* setIsConnected(true): ws.onopen *)
| Cleaning.  (* isCleaningUpRef.current = ...: cleanup *)

(** One elementary operation of a callback.  Every callback of the hook is
    a sequence of these, so a property kept by each of them is kept by the
    hook. *)
Inductive prim : Perm -> World -> World -> Prop :=
| prim_print p l m w : prim p w (print l m w)
| prim_hook p f w : hook_op f -> prim p w (upd_hook f w)
| prim_reset p w : prim p w (upd_hook (set_reconnectAttemptsRef 0) w)
| prim_connected w : prim Opening w (upd_hook (setIsConnected true) w)
| prim_flag b w : prim Cleaning w (upd_hook (set_isCleaningUpRef b) w)
| prim_timer p a d w :
    a <> ReconnectT -> prim p w (setTimeout a d w)
| prim_clear p id w : prim p w (clearTimeout id w)
| prim_fire p t w : In t (timers w) -> prim p w (fire t w)
| prim_schedule p r w :
    valid_oracle (mkOracle r false) ->
    isMountedRef (hook w) = true -> isCleaningUpRef (hook w) = false ->
    reconnectTimeoutRef (hook w) = None ->
    prim p w (scheduleReconnect r w)
| prim_socket p i f w : socket_op f -> prim p w (upd_sock i f w)
| prim_new p w : prim p w (set_sockets (sockets w ++ [fresh_socket]) w)
| prim_local p r w : prim p w (set_connectTimeout r w)
| prim_listen p b w : prim p w (set_listeners b w).

Inductive steps (p : Perm) : World -> World -> Prop :=
| steps_refl w : steps p w w
| steps_snoc w1 w2 w3 : steps p w1 w2 -> prim p w2 w3 -> steps p w1 w3.

(** The permission an event of the loop runs under. *)
Definition perm_of (e : Event) : Perm :=
  match e with
  | SockOpen _ => Opening
  | Unmount | ManualReconnect => Cleaning
  | _ => Plain
  end.

(** Timer ids are positive, below the next id to be handed out, and no two
    pending timers share one. *)
Definition ids_ok (w : World) : Prop :=
  (0 < nextTimer w)%nat /\ List.NoDup (map tid (timers w)) /\
  forall t, In t (timers w) -> (0 < tid t < nextTimer w)%nat.

(** Two timers armed by the same call site. *)
Definition same_kind (a b : TimerAct) : bool :=
  match a, b with
  | ReconnectT, ReconnectT => true
  | ConnTimeoutT _, ConnTimeoutT _ => true
  | PingT, PingT => true
  | GraceT, GraceT => true
  | MountT, MountT => true
  | _, _ => false
  end.

(** Everything ever sent is a ping. *)
Definition only_pings (w : World) : Prop :=
  Forall (fun s => Forall (fun m => m = ping_frame) (sent s)) (sockets w).

(** Relative to the moment [c] an event is delivered: the attempt count is
    not negative and every pending reconnect either was pending before
    (in [old]) or is due between 2000 and 31000 ms from [c], both ends
    included. *)
Definition retry_window (c : Z) (old : list Timer) (w : World) : Prop :=
  clock w = c /\ 0 <= reconnectAttemptsRef (hook w) /\
  forall t, In t (timers w) -> is_reconnect t = true ->
    In t old \/ c + 2000 <= due t <= c + 31000.

(** No occurrence of the run is the open event of a socket. *)
Definition no_open (tr : list Occurrence) : Prop :=
  Forall (fun occ => forall i, event occ <> SockOpen i) tr.

(** ** Instances *)

(** Three cards, the first one picked up. *)
Definition three_cards : Cards :=
  handleDragStart 0 (mkCards [Some "tf_mod"; Some "phi_sigma"; Some "tvi"] None).

(** One card left, and a pick-up position from before the others were
    removed. *)
Definition stale_cards : Cards := mkCards [Some "tf_mod"] (Some 2%nat).

Definition buy_snapshot : JValue :=
  JObj [("trading_signal", JStr "BUY"); ("close", JNum 100); ("pnl_pct", JNum 1)].

(** A [market_data] frame with a snapshot. *)
Definition data_frame : JValue :=
  JObj [("type", JStr "market_data"); ("data", buy_snapshot)].

(** Mounted, open, and the ping interval has fired once. *)
Definition pinged_world : World :=
  run [mkOcc 0 Mount quiet; tick 50 1; mkOcc 60 (SockOpen 0) quiet; tick 25060 3] init.

Definition pinged_socket : Socket :=
  mkSocket OPEN true true true true NotClosed [ping_frame].

Definition ping_timer : Timer := mkTimer 3 25060 PingT.


(** * Properties *)

#[local] Set Warnings "-clear-no-such-hyp".
#[local] Set Warnings "-no-such-hyp".

(** ** Stale events *)

Lemma same_session_refl w : same_session w w.
Proof. by repeat split. Qed.

Lemma stale_guard (w : World) (ws : nat) :
  wsRef (hook w) <> Some ws ->
  negb (bool_decide (wsRef (hook w) = Some ws)) = true.
Proof. intros H. by rewrite bool_decide_eq_false_2. Qed.

Lemma current_guard (w : World) (ws : nat) :
  wsRef (hook w) = Some ws ->
  negb (bool_decide (wsRef (hook w) = Some ws)) = false.
Proof. intros H. by rewrite bool_decide_eq_true_2. Qed.

Lemma ws_onopen_stale w ws :
  wsRef (hook w) <> Some ws -> ws_onopen ws w = upd_sock ws (ws_close CloseNoArgs) w.
Proof. intros H. unfold ws_onopen. by rewrite stale_guard. Qed.

Lemma ws_onmessage_stale w ws p :
  wsRef (hook w) <> Some ws -> ws_onmessage ws p w = w.
Proof. intros H. unfold ws_onmessage. by rewrite stale_guard. Qed.

Lemma ws_onerror_stale w ws :
  wsRef (hook w) <> Some ws -> ws_onerror ws w = w.
Proof. intros H. unfold ws_onerror. by rewrite stale_guard. Qed.

Lemma ws_onclose_stale o w ws c r :
  wsRef (hook w) <> Some ws -> ws_onclose o ws c r w = w.
Proof. intros H. unfold ws_onclose. by rewrite stale_guard. Qed.

(** C1. Stale-event immunity.  An open, message, error or close event whose
    socket is not the one in [wsRef] leaves every ref and React state of the
    hook (snapshot, history, connection state, connected flag, attempt
    counter, timer refs) and the table of pending timers as they were.  The
    message, error and close callbacks return at once; the open callback
    only calls [close()] on the stale socket itself. *)
Theorem stale_event_immunity (w : World) (occ : Occurrence) (ws : nat) :
  origin (event occ) = Some ws ->
  wsRef (hook w) <> Some ws ->
  same_session w (dispatch occ w) /\
  console (dispatch occ w) = console w /\
  (forall p, ws_onmessage ws p w = w) /\
  ws_onerror ws w = w /\
  (forall o c r, ws_onclose o ws c r w = w) /\
  same_session w (ws_onopen ws w).
Proof.
  intros Ho Hne.
  apply (and_assoc (same_session w (dispatch occ w))). split.
  - unfold dispatch. destruct (Z.ltb _ _); [by repeat split|].
    destruct occ as [t e o]; simpl in *.
    destruct e; simpl in Ho; try discriminate; injection Ho as ->; simpl;
      destruct (sockets w !! ws) as [s|]; try (by repeat split);
      destruct (readyState s); try (by repeat split).
    + destruct (onopen s); [|by repeat split].
      rewrite ws_onopen_stale by done. by repeat split.
    + destruct (onmessage s); [|by repeat split].
      rewrite ws_onmessage_stale by done. by repeat split.
    + destruct (onerror s); [|by repeat split].
      rewrite ws_onerror_stale by done. by repeat split.
    + destruct (onerror s); [|by repeat split].
      rewrite ws_onerror_stale by done. by repeat split.
    + destruct (onerror s); [|by repeat split].
      rewrite ws_onerror_stale by done. by repeat split.
    + destruct (onclose s); [|by repeat split].
      rewrite ws_onclose_stale by done. by repeat split.
    + destruct (onclose s); [|by repeat split].
      rewrite ws_onclose_stale by done. by repeat split.
    + destruct (onclose s); [|by repeat split].
      rewrite ws_onclose_stale by done. by repeat split.
  - split; [intros; by apply ws_onmessage_stale|].
    split; [by apply ws_onerror_stale|].
    split; [intros; by apply ws_onclose_stale|].
    rewrite ws_onopen_stale by done. by repeat split.
Qed.

(** ** Rounding to binary64 *)

Lemma two_pos (k : Z) : (0 < 2 ^ k)%Q.
Proof. apply Qpower_0_lt. reflexivity. Qed.

Lemma two_plus (a b : Z) : (2 ^ (a + b) == 2 ^ a * 2 ^ b)%Q.
Proof. apply Qpower_plus. discriminate. Qed.

Lemma two_mono (a b : Z) : a <= b -> (2 ^ a <= 2 ^ b)%Q.
Proof. intros H. apply Qpower_le_compat_l; [done|]. discriminate. Qed.

Lemma two_inject (a : Z) : 0 <= a -> (inject_Z (2 ^ a) == 2 ^ a)%Q.
Proof. intros H. by rewrite Zpower_Qpower. Qed.

Lemma round_even_ge (j : Z) (m : Q) : (inject_Z j <= m)%Q -> j <= round_even m.
Proof.
  intros H. unfold round_even.
  assert (j <= Qfloor m).
  { rewrite <- (Qfloor_Z j). by apply Qfloor_resp_le. }
  destruct (Qcompare _ _); [destruct (Z.even _)| |]; lia.
Qed.

Lemma round_even_le (j : Z) (m : Q) : (m <= inject_Z j)%Q -> round_even m <= j.
Proof.
  intros H. unfold round_even.
  pose proof (Qfloor_le m) as Hf.
  assert (Hj : Qfloor m <= j).
  { rewrite <- (Qfloor_Z j). by apply Qfloor_resp_le. }
  destruct (Z.eq_dec (Qfloor m) j) as [E|E].
  - (* m is the integer j *)
    assert (Hm : (m - inject_Z (Qfloor m) == 0)%Q).
    { rewrite E in *. lra. }
    destruct (Qcompare_spec (m - inject_Z (Qfloor m)) (1 # 2)) as [C|C|C];
      rewrite Hm in C; [discriminate C|lia|].
    exfalso. revert C. apply Qle_not_lt. discriminate.
  - destruct (Qcompare _ _); [destruct (Z.even _)| |]; lia.
Qed.

Lemma fl_nonneg (x : Q) : (0 <= x)%Q -> (0 <= fl x)%Q.
Proof.
  intros H. unfold fl.
  destruct (Qcompare_spec 0 x) as [E|L|G]; cbv iota; [lra| |lra].
  apply Qmult_le_0_compat; [|apply Qlt_le_weak, two_pos].
  change 0%Q with (inject_Z 0). rewrite <- Zle_Qle.
  apply round_even_ge.
  apply Qle_shift_div_l; [apply two_pos|].
  change (inject_Z 0) with 0%Q. rewrite Qmult_0_l. by apply Qlt_le_weak.
Qed.

(** What rounding does to a positive number, with the spacing named. *)
Lemma fl_pos (x : Q) :
  (0 < x)%Q -> fl x = (inject_Z (round_even (x / ulp x)) * ulp x)%Q.
Proof.
  intros H. unfold fl.
  destruct (Qcompare_spec 0 x) as [E|L|G]; cbv iota; [|done|].
  - rewrite <- E in H. by apply Qlt_irrefl in H.
  - exfalso. apply (Qlt_irrefl x). by apply Qlt_trans with 0%Q.
Qed.

Lemma binade_lower (x : Q) : (0 < x)%Q -> (2 ^ binade x <= x)%Q.
Proof.
  intros Hx. unfold binade.
  set (c := Z.log2 (Qnum x) - Z.log2 (Zpos (Qden x))).
  destruct (Qle_bool (2 ^ c) x) eqn:E; [by apply Qle_bool_iff|].
  destruct x as [p q]. cbn [Qnum Qden] in c.
  assert (Hp : 0 < p) by (unfold Qlt in Hx; simpl in Hx; lia).
  pose proof (Z.log2_spec p Hp) as [Hp1 _].
  pose proof (Z.log2_spec (Zpos q) (Pos2Z.is_pos q)) as [_ Hq2].
  pose proof (Z.log2_nonneg p) as Lp.
  pose proof (Z.log2_nonneg (Zpos q)) as Lq.
  (* 2^(lp - lq - 1) * q <= 2^(lp - lq - 1) * 2^(lq + 1) = 2^lp <= p *)
  rewrite (Qmake_Qdiv p q).
  apply Qle_shift_div_l; [reflexivity|].
  apply Qle_trans with (2 ^ (c - 1) * 2 ^ (Z.log2 (Zpos q) + 1))%Q.
  - apply Qmult_le_l; [apply two_pos|].
    rewrite <- two_inject by lia. rewrite <- Zle_Qle. lia.
  - rewrite <- two_plus. replace (c - 1 + (Z.log2 (Z.pos q) + 1)) with (Z.log2 p) by (unfold c; lia).
    rewrite <- two_inject by lia. by rewrite <- Zle_Qle.
Qed.

Lemma binade_upper (x : Q) : (0 < x)%Q -> (x < 2 ^ (binade x + 1))%Q.
Proof.
  intros Hx. unfold binade.
  set (c := Z.log2 (Qnum x) - Z.log2 (Zpos (Qden x))).
  destruct (Qle_bool (2 ^ c) x) eqn:E.
  - destruct x as [p q]. cbn [Qnum Qden] in c.
    assert (Hp : 0 < p) by (unfold Qlt in Hx; simpl in Hx; lia).
    pose proof (Z.log2_spec p Hp) as [_ Hp2].
    pose proof (Z.log2_spec (Zpos q) (Pos2Z.is_pos q)) as [Hq1 _].
    pose proof (Z.log2_nonneg p) as Lp.
    pose proof (Z.log2_nonneg (Zpos q)) as Lq.
    rewrite (Qmake_Qdiv p q).
    apply Qlt_shift_div_r; [reflexivity|].
    apply Qlt_le_trans with (2 ^ (Z.log2 p + 1))%Q.
    + rewrite <- two_inject by lia. by rewrite <- Zlt_Qlt.
    + replace (Z.log2 p + 1) with (c + 1 + Z.log2 (Zpos q)) by (unfold c; lia).
      rewrite two_plus. apply Qmult_le_l; [apply two_pos|].
      rewrite <- two_inject by lia. by rewrite <- Zle_Qle.
  - replace (c - 1 + 1) with c by lia.
    apply Qnot_le_lt. intros H. apply Qle_bool_iff in H. congruence.
Qed.


(** A binary64 number on the grid of [x], or not above the bottom of the
    binade of [x]. *)
Lemma binary64_grid (x y : Q) :
  (0 < x)%Q -> binary64 y ->
  (exists J : Z, (y == inject_Z J * ulp x)%Q) \/
  ((y <= 2 ^ binade x)%Q /\ (inject_Z (2 ^ 52) * ulp x == 2 ^ binade x)%Q).
Proof.
  intros Hx (j & k & [Hj0 Hj] & Hk & Ey). unfold ulp.
  set (K := Z.max (binade x - 52) (-1074)).
  destruct (Z.le_gt_cases K k) as [Hle|Hgt].
  - left. exists (j * 2 ^ (k - K)).
    rewrite Ey, inject_Z_mult, two_inject by lia.
    rewrite <- Qmult_assoc, <- two_plus.
    by replace (k - K + K) with k by lia.
  - right. assert (EK : K = binade x - 52) by lia.
    split.
    + rewrite Ey.
      apply Qle_trans with (inject_Z (2 ^ 53) * 2 ^ k)%Q.
      * apply Qmult_le_compat_r; [by rewrite <- Zle_Qle|].
        apply Qlt_le_weak, two_pos.
      * rewrite two_inject, <- two_plus by lia. apply two_mono. lia.
    + rewrite two_inject, <- two_plus by lia. by replace (52 + K) with (binade x) by lia.
Qed.

Lemma fl_ge (x y : Q) : binary64 y -> (0 < x)%Q -> (y <= x)%Q -> (y <= fl x)%Q.
Proof.
  intros Hy Hx Hle. rewrite fl_pos by done.
  pose proof (two_pos (Z.max (binade x - 52) (-1074))) as Hu.
  fold (ulp x) in Hu.
  destruct (binary64_grid x y Hx Hy) as [[J EJ]|[Hlow Etop]].
  - rewrite EJ. apply Qmult_le_compat_r; [|by apply Qlt_le_weak].
    rewrite <- Zle_Qle. apply round_even_ge.
    apply Qle_shift_div_l; [done|]. by rewrite <- EJ.
  - apply Qle_trans with (2 ^ binade x)%Q; [done|].
    rewrite <- Etop. apply Qmult_le_compat_r; [|by apply Qlt_le_weak].
    rewrite <- Zle_Qle. apply round_even_ge.
    apply Qle_shift_div_l; [done|]. rewrite Etop. by apply binade_lower.
Qed.

Lemma fl_le (x y : Q) : binary64 y -> (0 < x)%Q -> (x <= y)%Q -> (fl x <= y)%Q.
Proof.
  intros Hy Hx Hle. rewrite fl_pos by done.
  pose proof (two_pos (Z.max (binade x - 52) (-1074))) as Hu.
  fold (ulp x) in Hu.
  destruct (binary64_grid x y Hx Hy) as [[J EJ]|[Hlow Etop]].
  - rewrite EJ. apply Qmult_le_compat_r; [|by apply Qlt_le_weak].
    rewrite <- Zle_Qle. apply round_even_le.
    apply Qle_shift_div_r; [done|]. by rewrite <- EJ.
  - apply Qle_trans with (2 ^ binade x)%Q.
    + rewrite <- Etop. apply Qmult_le_compat_r; [|by apply Qlt_le_weak].
      rewrite <- Zle_Qle. apply round_even_le.
      apply Qle_shift_div_r; [done|]. rewrite Etop.
      by apply Qle_trans with y.
    + apply Qle_trans with x; [by apply binade_lower|done].
Qed.

(** A binary64 number rounds to itself. *)
Lemma fl_exact (y : Q) : binary64 y -> (fl y == y)%Q.
Proof.
  intros Hy.
  destruct (Qlt_le_dec 0 y) as [H|H].
  - apply Qle_antisym; [apply fl_le|apply fl_ge]; try done; apply Qle_refl.
  - destruct Hy as (j & k & [Hj0 Hj] & Hk & Ey).
    assert (0 <= y)%Q.
    { rewrite Ey. apply Qmult_le_0_compat; [|apply Qlt_le_weak, two_pos].
      change 0%Q with (inject_Z 0). by rewrite <- Zle_Qle. }
    assert (E : (0 == y)%Q) by (by apply Qle_antisym).
    unfold fl. destruct (Qcompare_spec 0 y) as [E'|L|G]; cbv iota; [done| |].
    + rewrite <- E in L. by apply Qlt_irrefl in L.
    + rewrite <- E in G. by apply Qlt_irrefl in G.
Qed.

Lemma binary64_Z (n : Z) : 0 <= n <= 2 ^ 53 -> binary64 (inject_Z n).
Proof. intros H. exists n, 0. split; [done|]. split; [lia|]. simpl. ring. Qed.

Lemma round_even_near (m : Q) :
  (inject_Z (round_even m) - m <= 1 # 2)%Q /\ (m - inject_Z (round_even m) <= 1 # 2)%Q.
Proof.
  unfold round_even.
  pose proof (Qfloor_le m) as F1.
  pose proof (Qlt_floor m) as F2.
  rewrite inject_Z_plus in F2. change (inject_Z 1) with 1%Q in F2.
  destruct (Qcompare_spec (m - inject_Z (Qfloor m)) (1 # 2)) as [C|C|C];
    [destruct (Z.even _)| |];
    rewrite ?inject_Z_plus; change (inject_Z 1) with 1%Q; lra.
Qed.

(** Rounding gives a binary64 number. *)
Lemma fl_binary64 (x : Q) : (0 <= x)%Q -> binary64 (fl x).
Proof.
  intros H. destruct (Qlt_le_dec 0 x) as [Hx|Hx].
  - rewrite fl_pos by done. unfold ulp.
    exists (round_even (x / ulp x)), (Z.max (binade x - 52) (-1074)).
    split; [|split; [lia|reflexivity]].
    pose proof (two_pos (Z.max (binade x - 52) (-1074))) as Hu.
    fold (ulp x) in Hu.
    split.
    + apply round_even_ge. apply Qle_shift_div_l; [done|].
      change (inject_Z 0) with 0%Q. lra.
    + apply round_even_le. apply Qle_shift_div_r; [done|].
      apply Qle_trans with (2 ^ (binade x + 1))%Q;
        [apply Qlt_le_weak; by apply binade_upper|].
      unfold ulp. rewrite two_inject, <- two_plus by lia.
      apply two_mono. lia.
  - assert (E : (0 == x)%Q) by (by apply Qle_antisym).
    unfold fl. destruct (Qcompare_spec 0 x) as [E'|L|G]; cbv iota.
    + exists 0, 0. split; [by vm_compute|]. split; [lia|reflexivity].
    + rewrite <- E in L. by apply Qlt_irrefl in L.
    + rewrite <- E in G. by apply Qlt_irrefl in G.
Qed.

(** The rounded number is within half a spacing of the number. *)
Lemma fl_nearest (x : Q) :
  (0 < x)%Q ->
  (fl x - x <= ulp x / 2)%Q /\ (x - fl x <= ulp x / 2)%Q.
Proof.
  intros Hx. rewrite fl_pos by done.
  pose proof (two_pos (Z.max (binade x - 52) (-1074))) as Hu.
  fold (ulp x) in Hu.
  destruct (round_even_near (x / ulp x)) as [N1 N2].
  set (R := inject_Z (round_even (x / ulp x))) in *.
  set (m := (x / ulp x)%Q) in *.
  assert (E : (x == m * ulp x)%Q).
  { unfold m. field. intros E0. rewrite E0 in Hu. by apply Qlt_irrefl in Hu. }
  assert (H1 : ((R - m) * ulp x <= (1 # 2) * ulp x)%Q)
    by (apply Qmult_le_compat_r; [done|by apply Qlt_le_weak]).
  assert (H2 : ((m - R) * ulp x <= (1 # 2) * ulp x)%Q)
    by (apply Qmult_le_compat_r; [done|by apply Qlt_le_weak]).
  clearbody R m. revert Hu E H1 H2. generalize (ulp x). intros u Hu E H1 H2.
  assert (E3 : (u / 2 == (1 # 2) * u)%Q) by field.
  rewrite E3. split; first [lra|nra].
Qed.

(** Known values: the binary64 number nearest to 0.1; 0.1 + 0.2 in binary64,
    which is not the number nearest to 0.3; and the two sums of a base delay
    and the largest jitter that round up to a whole number. *)
Lemma fl_examples :
  (fl (1 # 10) == 3602879701896397 # 36028797018963968)%Q /\
  (fl (fl (1 # 10) + fl (2 # 10)) == 5404319552844596 # 18014398509481984)%Q /\
  (fl (3 # 10) == 5404319552844595 # 18014398509481984)%Q /\
  (fl (2000 + fl (below_one * 1000)) == 3000)%Q /\
  (fl (30000 + fl (below_one * 1000)) == 31000)%Q.
Proof. repeat split; vm_compute; reflexivity. Qed.

(** ** The backoff delay *)

#[global] Instance binary64_proper : Proper (Qeq ==> iff) binary64.
Proof.
  intros x y E. unfold binary64.
  split; intros (j & k & Hj & Hk & Ey); exists j, k;
    (split; [exact Hj|]); (split; [exact Hk|]).
  - rewrite <- E. exact Ey.
  - rewrite E. exact Ey.
Qed.

Lemma binary64_scaled (j k : Z) :
  0 <= j <= 2 ^ 53 -> -1074 <= k -> binary64 (inject_Z j * 2 ^ k).
Proof.
  intros Hj Hk. exists j, k. split; [exact Hj|]. split; [exact Hk|]. reflexivity.
Qed.

(** The base delays below the cap are binary64 numbers, computed without
    rounding error. *)
Lemma baseDelay_small :
  (baseDelay 1 == 2000)%Q /\ (baseDelay 2 == 3000)%Q /\ (baseDelay 3 == 4500)%Q /\
  (baseDelay 4 == 6750)%Q /\ (baseDelay 5 == 10125)%Q /\
  (baseDelay 6 == 30375 # 2)%Q /\ (baseDelay 7 == 91125 # 4)%Q.
Proof. repeat split; vm_compute; reflexivity. Qed.

Lemma pow15_grows (n : Z) : 8 <= n -> (16 <= (3 # 2) ^ (n - 1))%Q.
Proof.
  intros H. apply Qle_trans with ((3 # 2) ^ 7)%Q; [by vm_compute|].
  apply Qpower_le_compat_l; [lia|]. by vm_compute.
Qed.

Lemma baseDelay_capped (n : Z) : 8 <= n -> (baseDelay n == 30000)%Q.
Proof.
  intros H. unfold baseDelay.
  pose proof (pow15_grows n H) as Hp.
  assert (H16 : (16 <= fl ((3 # 2) ^ (n - 1)))%Q).
  { apply fl_ge; [apply (binary64_Z 16); by vm_compute|lra|done]. }
  apply Q.min_r.
  change (inject_Z MAX_RECONNECT_DELAY) with 30000%Q.
  change (inject_Z RECONNECT_DELAY) with 2000%Q.
  apply fl_ge; [apply (binary64_Z 30000); by vm_compute|lra|lra].
Qed.

(** [baseDelay] is the exact minimum: rounding never shows. *)
Lemma baseDelay_exact (n : Z) :
  1 <= n -> (baseDelay n == Qmin (2000 * (3 # 2) ^ (n - 1)) 30000)%Q.
Proof.
  intros H.
  destruct (Z.le_gt_cases 8 n) as [H8|H8].
  - rewrite baseDelay_capped by done. symmetry. apply Q.min_r.
    pose proof (pow15_grows n H8). lra.
  - assert (n = 1 \/ n = 2 \/ n = 3 \/ n = 4 \/ n = 5 \/ n = 6 \/ n = 7)
      as [->|[->|[->|[->|[->|[->| ->]]]]]] by lia;
      vm_compute; reflexivity.
Qed.

Lemma baseDelay_cap n : (baseDelay n <= 30000)%Q.
Proof. unfold baseDelay. apply Q.le_min_r. Qed.

Lemma baseDelay_mono n m : 1 <= n <= m -> (baseDelay n <= baseDelay m)%Q.
Proof.
  intros H. rewrite !baseDelay_exact by lia.
  apply Q.min_le_compat_r.
  apply Qmult_le_l; [reflexivity|].
  apply Qpower_le_compat_l; [lia|]. discriminate.
Qed.

Lemma baseDelay_floor_1 n : 1 <= n -> (2000 <= baseDelay n)%Q.
Proof.
  intros H. destruct baseDelay_small as (E & _). rewrite <- E.
  apply baseDelay_mono. lia.
Qed.

(** The base delay and the base delay plus 1000 are binary64 numbers. *)
Lemma baseDelay_binary64 (n : Z) :
  1 <= n ->
  binary64 (baseDelay n) /\ binary64 (baseDelay n + 1000) /\
  Qfloor (baseDelay n + 1000) = Qfloor (baseDelay n) + 1000.
Proof.
  intros H.
  assert (G : forall j k : Z,
    0 <= j -> j + 1000 * 2 ^ k <= 2 ^ 53 -> 0 <= k <= 10 ->
    (baseDelay n == inject_Z j * 2 ^ (- k))%Q ->
    binary64 (baseDelay n) /\ binary64 (baseDelay n + 1000) /\
    Qfloor (baseDelay n + 1000) = Qfloor (baseDelay n) + 1000).
  { intros j k Hj Hj' Hk E.
    assert (E' : (baseDelay n + 1000 == inject_Z (j + 1000 * 2 ^ k) * 2 ^ (- k))%Q).
    { rewrite E, inject_Z_plus, inject_Z_mult, two_inject by lia.
      rewrite Qmult_plus_distr_l, <- Qmult_assoc, <- two_plus.
      replace (k + - k) with 0 by lia. simpl. ring. }
    split; [|split].
    - rewrite E. apply binary64_scaled; lia.
    - rewrite E'. apply binary64_scaled; lia.
    - pose proof (Qfloor_le (baseDelay n)) as F1.
      pose proof (Qlt_floor (baseDelay n)) as F2.
      rewrite inject_Z_plus in F2. change (inject_Z 1) with 1%Q in F2.
      apply Z.le_antisymm.
      + apply Z.lt_succ_r. rewrite Zlt_Qlt.
        apply Qle_lt_trans with (baseDelay n + 1000)%Q; [apply Qfloor_le|].
        unfold Z.succ. rewrite !inject_Z_plus.
        change (inject_Z 1000) with 1000%Q. change (inject_Z 1) with 1%Q. lra.
      + rewrite <- (Qfloor_Z (Qfloor (baseDelay n) + 1000)).
        apply Qfloor_resp_le. rewrite inject_Z_plus.
        change (inject_Z 1000) with 1000%Q. lra. }
  destruct baseDelay_small as (E1 & E2 & E3 & E4 & E5 & E6 & E7).
  destruct (Z.le_gt_cases 8 n) as [H8|H8].
  - apply (G 30000 0); [lia|by vm_compute|lia|].
    rewrite baseDelay_capped by done. by vm_compute.
  - assert (n = 1 \/ n = 2 \/ n = 3 \/ n = 4 \/ n = 5 \/ n = 6 \/ n = 7)
      as [->|[->|[->|[->|[->|[->| ->]]]]]] by lia.
    + apply (G 2000 0); [lia|by vm_compute|lia|]. rewrite E1. by vm_compute.
    + apply (G 3000 0); [lia|by vm_compute|lia|]. rewrite E2. by vm_compute.
    + apply (G 4500 0); [lia|by vm_compute|lia|]. rewrite E3. by vm_compute.
    + apply (G 6750 0); [lia|by vm_compute|lia|]. rewrite E4. by vm_compute.
    + apply (G 10125 0); [lia|by vm_compute|lia|]. rewrite E5. by vm_compute.
    + apply (G 30375 1); [lia|by vm_compute|lia|]. rewrite E6. by vm_compute.
    + apply (G 91125 2); [lia|by vm_compute|lia|]. rewrite E7. by vm_compute.
Qed.

Lemma jitter_bounds (r : Q) :
  (0 <= r)%Q -> (r < 1)%Q -> (0 <= fl (r * 1000))%Q /\ (fl (r * 1000) <= 1000)%Q.
Proof.
  intros H0 H1. split; [apply fl_nonneg; lra|].
  destruct (Qlt_le_dec 0 (r * 1000)) as [H|H].
  - apply fl_le; [apply (binary64_Z 1000); by vm_compute|done|lra].
  - assert (E : (0 == r * 1000)%Q) by lra.
    unfold fl. destruct (Qcompare_spec 0 (r * 1000)) as [E'|L|G]; cbv iota.
    + discriminate.
    + lra.
    + lra.
Qed.

(** The scheduled delay lies between the floor of the base delay and 1000
    above it, both ends included. *)
Lemma reconnect_delay_bounds n r :
  1 <= n -> (0 <= r)%Q -> (r < 1)%Q ->
  Qfloor (baseDelay n) <= reconnect_delay n r <= Qfloor (baseDelay n) + 1000.
Proof.
  intros Hn H0 H1. unfold reconnect_delay.
  destruct (jitter_bounds r H0 H1) as [J0 J1].
  destruct (baseDelay_binary64 n Hn) as (B1 & B2 & <-).
  pose proof (baseDelay_floor_1 n Hn) as Hb.
  split; apply Qfloor_resp_le.
  - apply fl_ge; [done|lra|lra].
  - apply fl_le; [done|lra|lra].
Qed.

Lemma reconnect_delay_range n r :
  1 <= n -> (0 <= r)%Q -> (r < 1)%Q -> 2000 <= reconnect_delay n r <= 31000.
Proof.
  intros Hn H0 H1.
  destruct (reconnect_delay_bounds n r Hn H0 H1) as [Hlo Hhi].
  assert (2000 <= Qfloor (baseDelay n)).
  { change 2000 with (Qfloor (inject_Z 2000)). apply Qfloor_resp_le.
    by apply baseDelay_floor_1. }
  assert (Qfloor (baseDelay n) <= 30000).
  { change 30000 with (Qfloor (inject_Z 30000)). apply Qfloor_resp_le.
    apply baseDelay_cap. }
  lia.
Qed.

Lemma reconnect_delay_first r :
  (0 <= r)%Q -> (r < 1)%Q -> 2000 <= reconnect_delay 1 r <= 3000.
Proof.
  intros H0 H1.
  destruct (reconnect_delay_bounds 1 r) as [Hlo Hhi]; [lia|done|done|].
  destruct baseDelay_small as (E & _). rewrite E in Hlo, Hhi.
  change (Qfloor 2000) with 2000 in *. lia.
Qed.

(** Both ends are reached: [Math.random()] returning 0 gives 2000, and the
    largest number below 1 gives 3000, because 2000 + 999.99999999999989
    is not a binary64 number and the nearest one is 3000. *)
Lemma reconnect_delay_ends :
  reconnect_delay 1 0 = 2000 /\ reconnect_delay 1 below_one = 3000 /\
  (0 <= below_one)%Q /\ (below_one < 1)%Q /\ binary64 below_one.
Proof.
  split; [by vm_compute|]. split; [by vm_compute|].
  split; [by vm_compute|]. split; [by vm_compute|].
  exists (2 ^ 53 - 1), (-53). split; [by vm_compute|]. split; [lia|].
  by vm_compute.
Qed.

(** ** Closed forms of the helpers *)

Lemma In_drop r l t : In t (drop r l) <-> In t l /\ r <> Some (tid t).
Proof.
  destruct r as [id|]; unfold drop.
  - rewrite filter_In, negb_true_iff, Nat.eqb_neq. naive_solver.
  - split; [by intros ?; split|by intros []].
Qed.

Lemma clearTimers_eq w :
  clearTimers w =
  mkWorld (clear_refs (hook w)) (sockets w)
    (drop (pingIntervalRef (hook w))
       (drop (connectionTimeoutRef (hook w))
          (drop (reconnectTimeoutRef (hook w)) (timers w))))
    (nextTimer w) (clock w) (connectTimeout w) (listeners w) (console w).
Proof.
  destruct w as [[d ic e sh ws rr cr pr n m c cs] ss ts nt ck ct ls co].
  unfold clearTimers; simpl.
  destruct rr, cr, pr; reflexivity.
Qed.

Lemma scheduleReconnect_eq r w :
  isMountedRef (hook w) = true -> isCleaningUpRef (hook w) = false ->
  scheduleReconnect r w =
  let n := reconnectAttemptsRef (hook w) + 1 in
  let delay := reconnect_delay n r in
  mkWorld
    (set_reconnectTimeoutRef (Some (nextTimer w))
       (setError (Some ("Reconnecting in " +:+ pretty (round_seconds delay) +:+ "s..."))
          (set_reconnectAttemptsRef n (hook w))))
    (sockets w)
    (drop (reconnectTimeoutRef (hook w)) (timers w)
       ++ [mkTimer (nextTimer w) (clock w + delay) ReconnectT])
    (S (nextTimer w)) (clock w) (connectTimeout w) (listeners w)
    (console w ++ [(LLog, "Scheduling reconnect")]).
Proof.
  destruct w as [[d ic e sh ws rr cr pr n m c cs] ss ts nt ck ct ls co].
  simpl. intros -> ->. unfold scheduleReconnect; simpl.
  destruct rr; reflexivity.
Qed.

Lemma scheduleReconnect_off r w :
  isMountedRef (hook w) = false \/ isCleaningUpRef (hook w) = true ->
  scheduleReconnect r w = w.
Proof.
  unfold scheduleReconnect. intros [-> | ->]; simpl; [done|].
  by rewrite orb_true_r.
Qed.

Lemma startPingInterval_eq w :
  startPingInterval w =
  mkWorld (set_pingIntervalRef (Some (nextTimer w)) (hook w)) (sockets w)
    (drop (pingIntervalRef (hook w)) (timers w)
       ++ [mkTimer (nextTimer w) (clock w + PING_INTERVAL) PingT])
    (S (nextTimer w)) (clock w) (connectTimeout w) (listeners w) (console w).
Proof.
  destruct w as [[d ic e sh ws rr cr pr n m c cs] ss ts nt ck ct ls co].
  unfold startPingInterval; simpl. destruct pr; reflexivity.
Qed.

(** ** Dead sockets *)

Lemma dead_inv s :
  dead s = true <->
  onopen s = false /\ onclose s = false /\ onerror s = false /\ onmessage s = false /\
  (readyState s = CLOSING \/ readyState s = CLOSED).
Proof.
  unfold dead, detached.
  destruct (onopen s), (onclose s), (onerror s), (onmessage s), (readyState s);
    simpl; split; intros H; try discriminate; try done; naive_solver.
Qed.

Lemma dead_detach s : dead s = true -> dead (detach s) = true.
Proof. rewrite !dead_inv. simpl. naive_solver. Qed.

Lemma dead_ws_close c s : dead s = true -> dead (ws_close c s) = true.
Proof. rewrite !dead_inv. unfold ws_close. destruct (readyState s) eqn:E; simpl; naive_solver. Qed.

Lemma dead_ws_send f s : dead s = true -> dead (ws_send f s) = true.
Proof. rewrite !dead_inv. simpl. naive_solver. Qed.

Lemma dead_set_closed s : dead s = true -> dead (set_readyState CLOSED s) = true.
Proof. rewrite !dead_inv. simpl. naive_solver. Qed.

Lemma dead_close_detach c s : dead (ws_close c (detach s)) = true.
Proof. rewrite dead_inv. unfold ws_close. simpl. destruct (readyState s) eqn:E; simpl; rewrite ?E; naive_solver. Qed.

Lemma dead_not_open s : dead s = true -> readyState s <> OPEN /\ readyState s <> CONNECTING.
Proof. rewrite dead_inv. intros (_ & _ & _ & _ & [-> | ->]); done. Qed.

(** ** The stale-socket invariant on lists *)

Lemma stale_list_alter_dead l r i f :
  (forall s, dead s = true -> dead (f s) = true) ->
  stale_list l r -> stale_list (alter f i l) r.
Proof.
  intros Hf H j s Hj Hne.
  destruct (decide (i = j)) as [->|Hij].
  - rewrite list_lookup_alter_eq in Hj.
    destruct (l !! j) as [s0|] eqn:E; simpl in Hj; [|done].
    injection Hj as <-. apply Hf. by apply (H j).
  - rewrite list_lookup_alter_ne in Hj by done. by apply (H j).
Qed.

Lemma stale_list_alter_cur l i f :
  stale_list l (Some i) -> stale_list (alter f i l) (Some i).
Proof.
  intros H j s Hj Hne.
  rewrite list_lookup_alter_ne in Hj by congruence. by apply (H j).
Qed.

Lemma stale_list_release l i f :
  stale_list l (Some i) ->
  (forall s, l !! i = Some s -> dead (f s) = true) ->
  stale_list (alter f i l) None.
Proof.
  intros H Hf j s Hj _.
  destruct (decide (i = j)) as [->|Hij].
  - rewrite list_lookup_alter_eq in Hj.
    destruct (l !! j) as [s0|] eqn:E; simpl in Hj; [|done].
    injection Hj as <-. by apply Hf.
  - rewrite list_lookup_alter_ne in Hj by done. apply (H j); congruence.
Qed.

Lemma stale_list_new l s :
  stale_list l None -> stale_list (l ++ [s]) (Some (length l)).
Proof.
  intros H j s' Hj Hne.
  destruct (decide (j < length l)%nat) as [Hlt|Hge].
  - rewrite lookup_app_l in Hj by done. by apply (H j).
  - assert (j = length l) as ->; [|done].
    apply lookup_lt_Some in Hj. rewrite length_app in Hj. simpl in Hj. lia.
Qed.

Lemma stale_list_all_dead l :
  stale_list l None <-> (forall s, In s l -> dead s = true).
Proof.
  split.
  - intros H s Hin. apply list_elem_of_In, list_elem_of_lookup in Hin as [i Hi].
    by apply (H i).
  - intros H i s Hi _. apply H, list_elem_of_In, list_elem_of_lookup. eauto.
Qed.

Lemma state_of_lookup i w s :
  sockets w !! i = Some s -> state_of i w = readyState s.
Proof. unfold state_of. by intros ->. Qed.

(** ** Preservation of the invariant by the callbacks *)

Lemma scheduleReconnect_sockets r w : sockets (scheduleReconnect r w) = sockets w.
Proof. unfold scheduleReconnect. repeat case_match; reflexivity. Qed.

Lemma scheduleReconnect_wsRef r w : wsRef (hook (scheduleReconnect r w)) = wsRef (hook w).
Proof. unfold scheduleReconnect. repeat case_match; reflexivity. Qed.

Ltac norm :=
  repeat (rewrite ?scheduleReconnect_sockets, ?scheduleReconnect_wsRef,
            ?clearTimers_eq, ?startPingInterval_eq; simpl).

Ltac tk H :=
  let t := fresh "t" in
  let Hin := fresh "Hin" in
  let Ht := fresh "Ht" in
  intros t Hin; pose proof (H t) as Ht; simpl in Hin, Ht;
  rewrite ?in_app_iff, ?In_drop in Hin;
  rewrite ?in_app_iff, ?In_drop in Ht; simpl in Hin, Ht;
  unfold tracked in *; simpl in *;
  destruct t as [? ? []]; simpl in *; naive_solver.

Lemma clearTimers_Inv w : Inv w -> Inv (clearTimers w).
Proof.
  intros [Hs Ht]. rewrite clearTimers_eq. split; [exact Hs|].
  unfold timers_ok in *; simpl. tk Ht.
Qed.

Lemma scheduleReconnect_Inv r w : Inv w -> Inv (scheduleReconnect r w).
Proof.
  intros [Hs Ht].
  destruct (isMountedRef (hook w)) eqn:Em; [|by rewrite scheduleReconnect_off by auto].
  destruct (isCleaningUpRef (hook w)) eqn:Ec; [by rewrite scheduleReconnect_off by auto|].
  rewrite scheduleReconnect_eq by done. split; [exact Hs|].
  unfold timers_ok in *; simpl. tk Ht.
Qed.

Lemma startPingInterval_Inv w : Inv w -> Inv (startPingInterval w).
Proof.
  intros [Hs Ht]. rewrite startPingInterval_eq. split; [exact Hs|].
  unfold timers_ok in *; simpl. tk Ht.
Qed.

Lemma Inv_print l m w : Inv w -> Inv (print l m w).
Proof. intros H. exact H. Qed.

Lemma Inv_set_clock t w : Inv w -> Inv (set_clock t w).
Proof. intros H. exact H. Qed.

Lemma Inv_upd_hook f w :
  (forall h, wsRef (f h) = wsRef h /\
             reconnectTimeoutRef (f h) = reconnectTimeoutRef h /\
             connectionTimeoutRef (f h) = connectionTimeoutRef h /\
             pingIntervalRef (f h) = pingIntervalRef h) ->
  Inv w -> Inv (upd_hook f w).
Proof.
  intros Hf [Hs Ht]. destruct (Hf (hook w)) as (E1 & E2 & E3 & E4). split.
  - unfold stale_ok; simpl. by rewrite E1.
  - intros t Hin. specialize (Ht t Hin).
    unfold tracked in *; simpl. rewrite E2, E3, E4. exact Ht.
Qed.

Ltac frame_hook := apply Inv_upd_hook; [by intros|].

Lemma Inv_alter_cur i f w :
  wsRef (hook w) = Some i -> Inv w -> Inv (upd_sock i f w).
Proof.
  intros E [Hs Ht]. split; [|exact Ht].
  unfold stale_ok in *; simpl. rewrite E in *. by apply stale_list_alter_cur.
Qed.

Lemma Inv_alter_dead i f w :
  (forall s, dead s = true -> dead (f s) = true) ->
  Inv w -> Inv (upd_sock i f w).
Proof.
  intros Hf [Hs Ht]. split; [|exact Ht].
  unfold stale_ok in *; simpl. by apply stale_list_alter_dead.
Qed.

Lemma Inv_release i f w :
  wsRef (hook w) = Some i ->
  (forall s, sockets w !! i = Some s -> dead (f s) = true) ->
  Inv w -> Inv (upd_hook (set_wsRef None) (upd_sock i f w)).
Proof.
  intros E Hf [Hs Ht]. split; [|exact Ht].
  unfold stale_ok in *; simpl. rewrite E in Hs. by apply stale_list_release.
Qed.

(** [connect] on a session that holds no socket. *)
Lemma connect_fresh_Inv o w :
  wsRef (hook w) = None -> Inv w -> Inv (connect o w).
Proof.
  intros E HI. unfold connect. rewrite E.
  destruct (negb (isMountedRef (hook w)) || isCleaningUpRef (hook w)) eqn:G; [done|].
  apply orb_false_iff in G as [Gm Gc]. apply negb_false_iff in Gm.
  destruct (ctorThrows o).
  - norm. rewrite Gm. simpl.
    apply scheduleReconnect_Inv.
    repeat first [apply Inv_print | frame_hook].
    rewrite <- clearTimers_eq. by apply clearTimers_Inv.
  - norm.
    apply clearTimers_Inv in HI. rewrite clearTimers_eq in HI.
    destruct HI as [Hs Ht]. split.
    + unfold stale_ok in *; simpl in *. rewrite E in Hs. by apply stale_list_new.
    + unfold timers_ok in *; simpl in *. tk Ht.
Qed.

Lemma connect_off o w :
  isMountedRef (hook w) = false \/ isCleaningUpRef (hook w) = true ->
  connect o w = w.
Proof.
  unfold connect. intros [-> | ->]; simpl; [done|]. by rewrite orb_true_r.
Qed.

Lemma connect_abandon o w i :
  isMountedRef (hook w) = true -> isCleaningUpRef (hook w) = false ->
  wsRef (hook w) = Some i ->
  state_of i w = CLOSING \/ state_of i w = CLOSED ->
  connect o w = connect o (upd_hook (set_wsRef None) (upd_sock i detach w)).
Proof.
  intros Em Ec E Hst. unfold connect; simpl. rewrite Em, Ec, E; simpl.
  destruct Hst as [-> | ->]; reflexivity.
Qed.

Lemma connect_busy o w i :
  wsRef (hook w) = Some i ->
  state_of i w = OPEN \/ state_of i w = CONNECTING ->
  same_session w (connect o w) /\ sockets (connect o w) = sockets w /\
  clock (connect o w) = clock w.
Proof.
  intros E Hst. unfold connect. rewrite E.
  destruct (_ || _); [by repeat split|].
  destruct Hst as [-> | ->]; by repeat split.
Qed.

Lemma Inv_same w w' :
  same_session w w' -> sockets w' = sockets w -> Inv w -> Inv w'.
Proof.
  intros (Eh & Et & _ & Ec & El) Es [Hs Ht]. split.
  - unfold stale_ok. by rewrite Eh, Es.
  - unfold timers_ok. by rewrite Eh, Et, Ec, El.
Qed.

Lemma connect_Inv o w : Inv w -> Inv (connect o w).
Proof.
  intros HI.
  destruct (isMountedRef (hook w)) eqn:Em; [|by rewrite connect_off by auto].
  destruct (isCleaningUpRef (hook w)) eqn:Ec; [by rewrite connect_off by auto|].
  destruct (wsRef (hook w)) as [i|] eqn:E; [|by apply connect_fresh_Inv].
  destruct (state_of i w) eqn:Es.
  - destruct (connect_busy o w i E (or_intror Es)) as (H1 & H2 & _). by apply (Inv_same w).
  - destruct (connect_busy o w i E (or_introl Es)) as (H1 & H2 & _). by apply (Inv_same w).
  - rewrite (connect_abandon o w i) by auto.
    apply connect_fresh_Inv; [done|].
    apply Inv_release; [done| |done].
    intros s Hs. rewrite (state_of_lookup _ _ _ Hs) in Es.
    apply dead_inv; simpl; rewrite Es; naive_solver.
  - rewrite (connect_abandon o w i) by auto.
    apply connect_fresh_Inv; [done|].
    apply Inv_release; [done| |done].
    intros s Hs. rewrite (state_of_lookup _ _ _ Hs) in Es.
    apply dead_inv; simpl; rewrite Es; naive_solver.
Qed.

Lemma Inv_setTimeout_grace d w : Inv w -> Inv (setTimeout GraceT d w).
Proof.
  intros [Hs Ht]. split; [exact Hs|].
  unfold timers_ok in *; simpl. tk Ht.
Qed.

Lemma state_of_alter_detach i j w :
  state_of i (upd_sock j detach w) = state_of i w.
Proof.
  unfold state_of; simpl.
  destruct (decide (j = i)) as [->|Hne].
  - rewrite list_lookup_alter_eq. by destruct (sockets w !! i).
  - by rewrite list_lookup_alter_ne.
Qed.

(** What [cleanup(true)] leaves of a session that held socket [i]. *)
Lemma cleanup_sockets_dead i w :
  wsRef (hook w) = Some i -> stale_ok w ->
  stale_list (sockets (cleanup true w)) None.
Proof.
  intros E Hs. unfold cleanup. rewrite clearTimers_eq; simpl. rewrite E.
  rewrite state_of_alter_detach.
  unfold stale_ok in Hs. rewrite E in Hs.
  destruct (state_of i _) eqn:Es; simpl.
  - rewrite list_alter_alter_eq. apply stale_list_release; [done|].
    intros s _. apply dead_close_detach.
  - rewrite list_alter_alter_eq. apply stale_list_release; [done|].
    intros s _. apply dead_close_detach.
  - apply stale_list_release; [done|]. intros s Hl.
    unfold state_of in Es; simpl in Es. rewrite Hl in Es.
    apply dead_inv; simpl; rewrite Es; naive_solver.
  - apply stale_list_release; [done|]. intros s Hl.
    unfold state_of in Es; simpl in Es.
    destruct (sockets w !! i) eqn:El; [|done]. injection Hl as ->.
    apply dead_inv; simpl; rewrite Es; naive_solver.
Qed.

Lemma cleanup_frame w :
  hook (cleanup true w) =
    set_isCleaningUpRef false
      (set_connectionStateRef Disconnected
         (set_wsRef None (clear_refs (set_isCleaningUpRef true (hook w))))) /\
  timers (cleanup true w) =
    drop (pingIntervalRef (hook w))
      (drop (connectionTimeoutRef (hook w))
         (drop (reconnectTimeoutRef (hook w)) (timers w))) /\
  nextTimer (cleanup true w) = nextTimer w /\
  clock (cleanup true w) = clock w /\
  connectTimeout (cleanup true w) = connectTimeout w /\
  listeners (cleanup true w) = listeners w /\
  console (cleanup true w) = console w /\
  length (sockets (cleanup true w)) = length (sockets w) /\
  (wsRef (hook w) = None -> sockets (cleanup true w) = sockets w).
Proof.
  unfold cleanup. rewrite clearTimers_eq; simpl.
  destruct (wsRef (hook w)) as [i|] eqn:E; simpl.
  - destruct (state_of i _); simpl; repeat split; try done;
      rewrite ?length_alter; done.
  - destruct w as [[d ic e sh ws rr cr pr n m c cs] ss ts nt ck ct ls co].
    simpl in *. subst. by repeat split.
Qed.

Lemma cleanup_Inv w : Inv w -> Inv (cleanup true w).
Proof.
  intros [Hs Ht].
  destruct (cleanup_frame w) as (Eh & Et & _ & _ & Ec & El & _ & _ & Hn).
  split.
  - unfold stale_ok.
    replace (wsRef (hook (cleanup true w))) with (@None nat) by (by rewrite Eh).
    destruct (wsRef (hook w)) as [i|] eqn:E.
    + by apply (cleanup_sockets_dead i).
    + rewrite Hn by done. unfold stale_ok in Hs. by rewrite E in Hs.
  - unfold timers_ok. rewrite Eh, Et, Ec, El. tk Ht.
Qed.

Lemma connection_timeout_Inv o ws w : Inv w -> Inv (connection_timeout o ws w).
Proof.
  intros HI. unfold connection_timeout.
  destruct (bool_decide (wsRef (hook w) = Some ws)) eqn:E; simpl; [|done].
  apply bool_decide_eq_true in E.
  destruct (negb _); [|done].
  assert (Inv (upd_hook (setIsConnected false)
            (upd_hook (setError (Some "Connection timeout - is the server running?"))
               (upd_hook (set_connectionStateRef Disconnected)
                  (upd_sock ws (ws_close CloseNoArgs)
                     (print LWarn "Connection timeout - server may not be running" w))))))
    as HI'.
  { repeat frame_hook. by apply Inv_alter_cur. }
  destruct (isMountedRef (hook w)); [|done].
  by apply scheduleReconnect_Inv.
Qed.

Lemma ws_onopen_eq ws w :
  wsRef (hook w) = Some ws ->
  ws_onopen ws w =
  startPingInterval
    (mkWorld
       (set_connectionTimeoutRef None
          (set_reconnectAttemptsRef 0
             (setError None
                (setIsConnected true
                   (set_connectionStateRef Connected (hook w))))))
       (sockets w)
       (drop (connectionTimeoutRef (hook w)) (timers w))
       (nextTimer w) (clock w) (connectTimeout w) (listeners w)
       (console w ++ [(LLog, "WebSocket connected successfully")])).
Proof.
  intros E. unfold ws_onopen. rewrite current_guard by done.
  destruct w as [[d ic e sh ws' rr cr pr n m c cs] ss ts nt ck ct ls co].
  simpl. destruct cr; reflexivity.
Qed.

Lemma ws_onopen_Inv ws w : Inv w -> Inv (ws_onopen ws w).
Proof.
  intros HI.
  destruct (decide (wsRef (hook w) = Some ws)) as [E|E].
  - rewrite ws_onopen_eq by done.
    apply startPingInterval_Inv.
    destruct HI as [Hs Ht]. split; [exact Hs|].
    unfold timers_ok in *; simpl. tk Ht.
  - rewrite ws_onopen_stale by done.
    apply Inv_alter_dead; [apply dead_ws_close|done].
Qed.

Lemma ws_onmessage_Inv ws p w : Inv w -> Inv (ws_onmessage ws p w).
Proof.
  intros HI. unfold ws_onmessage.
  repeat case_match; try done; by repeat frame_hook.
Qed.

Lemma ws_onerror_Inv ws w : Inv w -> Inv (ws_onerror ws w).
Proof. intros HI. unfold ws_onerror. by case_match. Qed.

Lemma ws_onclose_Inv o ws c r w : Inv w -> Inv (ws_onclose o ws c r w).
Proof.
  intros HI. unfold ws_onclose.
  destruct (negb _); [done|].
  assert (Inv (clearTimers
            (upd_hook (setIsConnected false)
               (upd_hook (set_connectionStateRef Disconnected)
                  (print LLog "WebSocket closed:" w))))) as HI'.
  { apply clearTimers_Inv. by repeat frame_hook. }
  destruct (_ || _); [done|].
  destruct (_ && _); [done|].
  apply scheduleReconnect_Inv. by frame_hook.
Qed.

Lemma reconnect_Inv w : Inv w -> Inv (reconnect w).
Proof.
  intros HI. unfold reconnect.
  apply Inv_setTimeout_grace, cleanup_Inv. by frame_hook.
Qed.

Lemma handleVisibilityChange_Inv o v w : Inv w -> Inv (handleVisibilityChange o v w).
Proof.
  intros HI. unfold handleVisibilityChange.
  destruct (_ && _); [|done]. case_match; [|done].
  apply connect_Inv. by frame_hook.
Qed.

Lemma handleOnline_Inv o w : Inv w -> Inv (handleOnline o w).
Proof.
  intros HI. unfold handleOnline.
  destruct (isMountedRef _); [|done].
  apply connect_Inv. by frame_hook.
Qed.

Lemma handleOffline_Inv w : Inv w -> Inv (handleOffline w).
Proof. intros HI. unfold handleOffline. by repeat frame_hook. Qed.

Lemma effect_mount_Inv w : listeners w = false -> Inv w -> Inv (effect_mount w).
Proof.
  intros El [Hs Ht]. split; [exact Hs|].
  unfold timers_ok in *; simpl. rewrite El in Ht. tk Ht.
Qed.

Lemma effect_unmount_eq w :
  effect_unmount w =
  cleanup true
    (mkWorld (set_isMountedRef false (hook w)) (sockets w)
       (drop (connectTimeout w) (timers w))
       (nextTimer w) (clock w) (connectTimeout w) false
       (console w ++ [(LLog, "WebSocket hook unmounting")])).
Proof.
  destruct w as [h ss ts nt ck ct ls co].
  unfold effect_unmount. simpl. destruct ct; reflexivity.
Qed.

Lemma effect_unmount_Inv w : Inv w -> Inv (effect_unmount w).
Proof.
  intros [Hs Ht]. rewrite effect_unmount_eq.
  apply cleanup_Inv. split; [exact Hs|].
  unfold timers_ok in *; simpl. tk Ht.
Qed.

Lemma ping_tick_Inv w : Inv w -> Inv (ping_tick w).
Proof.
  intros HI. unfold ping_tick.
  destruct (wsRef (hook w)) as [i|] eqn:E; [|done].
  destruct (state_of i w); try done. apply Inv_alter_cur; [exact E|exact HI].
Qed.

Lemma fire_Inv t w : In t (timers w) -> Inv w -> Inv (fire t w).
Proof.
  intros Hin [Hs Ht]. split; [unfold stale_ok, fire; by destruct (act t)|].
  pose proof (Ht t Hin) as Htr.
  unfold timers_ok, fire in *.
  change (List.filter (fun t' : Timer => negb (Nat.eqb (tid t') (tid t))) (timers w))
    with (drop (Some (tid t)) (timers w)).
  destruct t as [id d a]; simpl in *.
  destruct a; simpl; unfold tracked in Htr; simpl in Htr; tk Ht.
Qed.

Lemma timer_callback_Inv o a w : Inv w -> Inv (timer_callback o a w).
Proof.
  intros HI. destruct a; simpl.
  - destruct (_ && _); [by apply connect_Inv|done].
  - by apply connection_timeout_Inv.
  - by apply ping_tick_Inv.
  - destruct (isMountedRef _); [by apply connect_Inv|done].
  - destruct (isMountedRef _); [by apply connect_Inv|done].
Qed.

(** A socket that is still connecting or open is the current one. *)
Lemma alive_is_current w i s :
  stale_ok w -> sockets w !! i = Some s ->
  readyState s = CONNECTING \/ readyState s = OPEN ->
  wsRef (hook w) = Some i.
Proof.
  intros Hs Hl Hst.
  destruct (decide (wsRef (hook w) = Some i)) as [E|E]; [done|].
  pose proof (dead_not_open s (Hs i s Hl E)). naive_solver.
Qed.

Lemma deliver_Inv o e w : Inv w -> Inv (deliver o e w).
Proof.
  intros HI. destruct e; simpl.
  - destruct (listeners w) eqn:El; [done|by apply effect_mount_Inv].
  - destruct (listeners w); [by apply effect_unmount_Inv|done].
  - by apply reconnect_Inv.
  - destruct (listeners w); [by apply handleVisibilityChange_Inv|done].
  - destruct (listeners w); [by apply handleOnline_Inv|done].
  - destruct (listeners w); [by apply handleOffline_Inv|done].
  - destruct (find _ _) as [t|] eqn:Ef; [|done].
    destruct (Z.leb _ _); [|done].
    apply find_some in Ef as [Hin _].
    by apply timer_callback_Inv, fire_Inv.
  - destruct (sockets w !! ws) as [s|] eqn:El; [|done].
    destruct (readyState s) eqn:Es; try done.
    assert (wsRef (hook w) = Some ws) as E
      by (apply (alive_is_current w ws s); [apply HI|done|auto]).
    assert (Inv (upd_sock ws (set_readyState OPEN) w)) by (by apply Inv_alter_cur).
    destruct (onopen s); [by apply ws_onopen_Inv|done].
  - destruct (sockets w !! ws) as [s|] eqn:El; [|done].
    destruct (readyState s); try done.
    destruct (onmessage s); [by apply ws_onmessage_Inv|done].
  - destruct (sockets w !! ws) as [s|] eqn:El; [|done].
    destruct (readyState s); try done;
      (destruct (onerror s); [by apply ws_onerror_Inv|done]).
  - destruct (sockets w !! ws) as [s|] eqn:El; [|done].
    assert (Inv (upd_sock ws (set_readyState CLOSED) w)).
    { destruct (decide (wsRef (hook w) = Some ws)) as [E|E].
      - by apply Inv_alter_cur.
      - apply Inv_alter_dead; [apply dead_set_closed|done]. }
    destruct (readyState s); try done;
      (destruct (onclose s); [by apply ws_onclose_Inv|done]).
Qed.

Lemma dispatch_Inv occ w : Inv w -> Inv (dispatch occ w).
Proof.
  intros HI. unfold dispatch. destruct (Z.ltb _ _); [done|].
  by apply deliver_Inv, Inv_set_clock.
Qed.

Lemma init_Inv : Inv init.
Proof. split; [by intros [|i] s|by intros t]. Qed.

Lemma reachable_Inv w : reachable w -> Inv w.
Proof.
  induction 1 as [|w occ _ IH _]; [apply init_Inv|by apply dispatch_Inv].
Qed.

Lemma reachable_run tr w :
  reachable w -> Forall (fun occ => valid_oracle (oracle occ)) tr ->
  reachable (run tr w).
Proof.
  revert w. induction tr as [|occ tr IH]; intros w Hw Hv; [done|].
  inversion Hv; subst. simpl. apply IH; [|done]. by constructor.
Qed.

(** ** Message dispatch *)

Lemma dispatch_on_time occ w :
  clock w <= at_time occ ->
  dispatch occ w = deliver (oracle occ) (event occ) (set_clock (at_time occ) w).
Proof.
  intros H. unfold dispatch.
  destruct (Z.ltb_spec (at_time occ) (clock w)); [lia|done].
Qed.

Lemma deliver_message o ws p w s :
  sockets w !! ws = Some s -> readyState s = OPEN -> onmessage s = true ->
  deliver o (SockMessage ws p) w = ws_onmessage ws p w.
Proof. intros Hl Hs Hm. simpl. by rewrite Hl, Hs, Hm. Qed.

(** C7. A frame that fails to parse, arriving on the current attempt while
    the connection is open, is logged with [console.error] and dropped: the
    hook's refs and React state (so the connection state, the snapshot and
    the history), the sockets (so the transport stays open) and the timer
    table (so no reconnect is scheduled) are unchanged. *)
Theorem malformed_frame_nonfatal (w : World) (occ : Occurrence) (ws : nat) (s : Socket) :
  event occ = SockMessage ws None ->
  clock w <= at_time occ ->
  wsRef (hook w) = Some ws ->
  sockets w !! ws = Some s -> readyState s = OPEN -> onmessage s = true ->
  connectionStateRef (hook w) = Connected ->
  let w' := dispatch occ w in
  same_session w w' /\ sockets w' = sockets w /\
  connectionStateRef (hook w') = Connected /\
  data (hook w') = data (hook w) /\
  signalHistory (hook w') = signalHistory (hook w) /\
  state_of ws w' = OPEN /\
  pending_reconnects w' = pending_reconnects w /\
  console w' = (console w ++ [(LError, "Error parsing message:")])%list.
Proof.
  intros He Ht Hc Hl Hs Hm Hst w'. subst w'.
  rewrite dispatch_on_time by done. rewrite He.
  rewrite (deliver_message _ ws None _ s) by done.
  unfold ws_onmessage. rewrite current_guard by done. simpl.
  unfold state_of, pending_reconnects; simpl. rewrite Hl.
  by repeat split.
Qed.

Lemma type_is_not_null t m : type_is t m = true -> m <> JNull.
Proof. by intros H ->. Qed.

(** C10. A [market_data] or [signal_history] frame whose [data] field is
    absent or [null] changes no ref and no React state of the hook: the
    snapshot, the history and the error status stay as they are, whatever
    [signal_history] list the frame carries. *)
Theorem missing_payload_guard (w : World) (occ : Occurrence) (ws : nat) (m : JValue) :
  event occ = SockMessage ws (Some m) ->
  type_is "market_data" m = true \/ type_is "signal_history" m = true ->
  prop "data" m = None \/ prop "data" m = Some JNull ->
  let w' := dispatch occ w in
  hook w' = hook w /\ ws_onmessage ws (Some m) w = w.
Proof.
  intros He Hty Hd.
  assert (Hm : m <> JNull) by (destruct Hty; by eapply type_is_not_null).
  assert (Htp : truthy_prop "data" m = false)
    by (unfold truthy_prop; destruct Hd as [-> | ->]; done).
  assert (Hc : type_is "connection" m = false).
  { unfold type_is in *. destruct (prop "type" m) as [[]|]; try done.
    destruct Hty as [H|H]; apply String.eqb_eq in H; by subst. }
  assert (Hon : ws_onmessage ws (Some m) w = w).
  { unfold ws_onmessage. destruct (negb _); [done|].
    destruct m; try done; by rewrite Htp, !andb_false_r, Hc. }
  split; [|done].
  unfold dispatch. destruct (Z.ltb _ _); [done|].
  rewrite He; simpl.
  destruct (sockets w !! ws) as [s|]; [|done].
  destruct (readyState s); try done.
  destruct (onmessage s); [|done].
  unfold ws_onmessage; simpl. destruct (negb _); [done|].
  destruct m; try done; by rewrite Htp, !andb_false_r, Hc.
Qed.

(** ** What only a message can change *)

Ltac keep :=
  repeat (case_match; simpl); try reflexivity.

Lemma clearTimers_payload w : payload (clearTimers w) = payload w.
Proof. by rewrite clearTimers_eq. Qed.

Lemma scheduleReconnect_payload r w : payload (scheduleReconnect r w) = payload w.
Proof. unfold scheduleReconnect. keep. Qed.

Lemma startPingInterval_payload w : payload (startPingInterval w) = payload w.
Proof. by rewrite startPingInterval_eq. Qed.

Lemma cleanup_payload w : payload (cleanup true w) = payload w.
Proof.
  unfold payload. destruct (cleanup_frame w) as (-> & _). reflexivity.
Qed.

Lemma connect_payload o w : payload (connect o w) = payload w.
Proof.
  unfold connect. keep; rewrite ?scheduleReconnect_payload; unfold payload; simpl;
    by rewrite clearTimers_eq.
Qed.

Lemma connection_timeout_payload o ws w : payload (connection_timeout o ws w) = payload w.
Proof. unfold connection_timeout. keep. by rewrite scheduleReconnect_payload. Qed.

Lemma ws_onopen_payload ws w : payload (ws_onopen ws w) = payload w.
Proof.
  destruct (decide (wsRef (hook w) = Some ws)) as [E|E].
  - rewrite ws_onopen_eq by done. by rewrite startPingInterval_payload.
  - by rewrite ws_onopen_stale.
Qed.

Lemma ws_onerror_payload ws w : payload (ws_onerror ws w) = payload w.
Proof. unfold ws_onerror. keep. Qed.

Lemma ws_onclose_payload o ws c r w : payload (ws_onclose o ws c r w) = payload w.
Proof.
  unfold ws_onclose. keep; rewrite ?scheduleReconnect_payload; unfold payload; simpl;
    by rewrite clearTimers_eq.
Qed.

Lemma reconnect_eq w :
  reconnect w =
  setTimeout GraceT 100
    (cleanup true (upd_hook (set_reconnectAttemptsRef 0)
                     (print LLog "Manual reconnect triggered" w))).
Proof. reflexivity. Qed.

Lemma setTimeout_hook a d w : hook (setTimeout a d w) = hook w.
Proof. reflexivity. Qed.

Lemma reconnect_payload w : payload (reconnect w) = payload w.
Proof.
  rewrite reconnect_eq. unfold payload at 1. rewrite setTimeout_hook.
  fold (payload (cleanup true (upd_hook (set_reconnectAttemptsRef 0)
            (print LLog "Manual reconnect triggered" w)))).
  by rewrite cleanup_payload.
Qed.

Lemma handleVisibilityChange_payload o v w :
  payload (handleVisibilityChange o v w) = payload w.
Proof. unfold handleVisibilityChange. keep; by rewrite connect_payload. Qed.

Lemma handleOnline_payload o w : payload (handleOnline o w) = payload w.
Proof. unfold handleOnline. keep. by rewrite connect_payload. Qed.

Lemma effect_unmount_payload w : payload (effect_unmount w) = payload w.
Proof. rewrite effect_unmount_eq. by rewrite cleanup_payload. Qed.

Lemma ping_tick_payload w : payload (ping_tick w) = payload w.
Proof. unfold ping_tick. keep. Qed.

Lemma fire_payload t w : payload (fire t w) = payload w.
Proof. unfold fire. keep. Qed.

Lemma timer_callback_payload o a w : payload (timer_callback o a w) = payload w.
Proof.
  destruct a; simpl; keep;
    by rewrite ?connect_payload, ?connection_timeout_payload, ?ping_tick_payload.
Qed.

(** What [ws.onmessage] does to the history buffer. *)
Lemma ws_onmessage_history ws p w :
  signalHistory (hook (ws_onmessage ws p w)) =
  if bool_decide (wsRef (hook w) = Some ws) then
    match p with
    | Some m => match history_payload m with
                | Some h => h
                | None => signalHistory (hook w)
                end
    | None => signalHistory (hook w)
    end
  else signalHistory (hook w).
Proof.
  unfold ws_onmessage.
  destruct (bool_decide (wsRef (hook w) = Some ws)); simpl; [|done].
  destruct p as [m|]; [|done].
  unfold history_payload.
  destruct m; try done.
  destruct (type_is "market_data" _ && truthy_prop "data" _).
  - destruct (prop "signal_history" _) as [h|]; [|done]. by destruct (truthy h).
  - destruct (type_is "signal_history" _ && truthy_prop "data" _) eqn:E.
    + apply andb_true_iff in E as [_ E]. unfold truthy_prop in E.
      by destruct (prop "data" _).
    + by destruct (type_is "connection" _).
Qed.

Lemma deliver_history o e w :
  signalHistory (hook (deliver o e w)) = signalHistory (hook w) \/
  exists ws m h, e = SockMessage ws (Some m) /\ wsRef (hook w) = Some ws /\
                 history_payload m = Some h /\
                 signalHistory (hook (deliver o e w)) = h.
Proof.
  assert (P : forall w1 w2, payload w1 = payload w2 ->
                            signalHistory (hook w1) = signalHistory (hook w2))
    by (by intros w1 w2 [= _ ->]).
  destruct e as [| | | v | | | id | ws | ws parsed | ws | ws code reason];
    unfold deliver.
  - left. by destruct (listeners w).
  - left. destruct (listeners w); [|done]. apply P, effect_unmount_payload.
  - left. apply P, reconnect_payload.
  - left. destruct (listeners w); [|done]. apply P, handleVisibilityChange_payload.
  - left. destruct (listeners w); [|done]. apply P, handleOnline_payload.
  - left. by destruct (listeners w).
  - left. destruct (find _ _) as [t|]; [|done]. destruct (Z.leb _ _); [|done].
    apply P. by rewrite timer_callback_payload, fire_payload.
  - left. destruct (sockets w !! ws) as [s|]; [|done].
    destruct (readyState s); try done.
    destruct (onopen s); [|done]. apply P. by rewrite ws_onopen_payload.
  - destruct (sockets w !! ws) as [s|]; [|by left].
    destruct (readyState s); try by left.
    destruct (onmessage s); [|by left].
    rewrite ws_onmessage_history.
    destruct (bool_decide (wsRef (hook w) = Some ws)) eqn:E; [|by left].
    apply bool_decide_eq_true in E.
    destruct parsed as [m|]; [|by left].
    destruct (history_payload m) as [h|] eqn:Eh; [|by left].
    right. by exists ws, m, h.
  - left. destruct (sockets w !! ws) as [s|]; [|done].
    destruct (readyState s); try done;
      (destruct (onerror s); [|done]); apply P, ws_onerror_payload.
  - left. destruct (sockets w !! ws) as [s|]; [|done].
    destruct (readyState s); try done;
      (destruct (onclose s); [|done]); apply P; by rewrite ws_onclose_payload.
Qed.

Lemma type_is_unique a b m : type_is a m = true -> type_is b m = true -> a = b.
Proof.
  unfold type_is. destruct (prop "type" m) as [[]|]; try done.
  intros Ha Hb. apply String.eqb_eq in Ha, Hb. congruence.
Qed.

Lemma history_payload_spec m h :
  history_payload m = Some h <->
  (type_is "market_data" m = true /\ truthy_prop "data" m = true /\
   prop "signal_history" m = Some h /\ truthy h = true) \/
  (type_is "signal_history" m = true /\
   prop "data" m = Some h /\ truthy h = true).
Proof.
  unfold history_payload.
  destruct (type_is "market_data" m) eqn:Em; simpl.
  - assert (Es : type_is "signal_history" m = false).
    { destruct (type_is "signal_history" m) eqn:Es; [|done].
      by pose proof (type_is_unique _ _ _ Em Es). }
    rewrite Es; simpl.
    destruct (truthy_prop "data" m).
    + destruct (prop "signal_history" m) as [h'|]; [destruct (truthy h') eqn:Eh|].
      * naive_solver.
      * split; [done|]. intros [(_ & _ & [= ->] & ?)|(? & _)]; congruence.
      * naive_solver.
    + naive_solver.
  - destruct (type_is "signal_history" m); simpl; [|naive_solver].
    unfold truthy_prop.
    destruct (prop "data" m) as [d|]; [destruct (truthy d) eqn:Ed|]; simpl.
    + naive_solver.
    + split; [done|]. intros [(? & _)|(_ & [= ->] & ?)]; congruence.
    + naive_solver.
Qed.

(** ** The history buffer *)

Lemma valid_quiet : valid_oracle quiet.
Proof. split; [discriminate|reflexivity]. Qed.

Lemma history_trace_size n : history_size (run (history_trace n) init) = n.
Proof. unfold history_size. simpl. apply repeat_length. Qed.

Lemma history_trace_reachable n : reachable (run (history_trace n) init).
Proof.
  apply reachable_run; [constructor|].
  repeat constructor; apply valid_quiet.
Qed.

(** C9, as stated, fails: no fixed maximum bounds the history buffer.  The
    hook stores whatever list the server sends. *)
Lemma history_unbounded :
  ~ exists N : nat, forall w, reachable w -> (history_size w <= N)%nat.
Proof.
  intros [N H].
  specialize (H _ (history_trace_reachable (S N))).
  rewrite history_trace_size in H. lia.
Qed.

(** C9, amended.  The history buffer is replaced wholesale, by the list the
    frame carries, when a history payload is delivered on the current
    attempt (a [signal_history] frame with a [data] list, or a [market_data]
    frame that has a [data] payload and a [signal_history] list), and no
    other frame or event changes it. *)
Theorem history_replaced_only_by_payload (w : World) (occ : Occurrence) :
  (forall ws m h s,
      event occ = SockMessage ws (Some m) ->
      clock w <= at_time occ ->
      wsRef (hook w) = Some ws ->
      sockets w !! ws = Some s -> readyState s = OPEN -> onmessage s = true ->
      history_payload m = Some h ->
      signalHistory (hook (dispatch occ w)) = h) /\
  (signalHistory (hook (dispatch occ w)) = signalHistory (hook w) \/
   exists ws m h,
     event occ = SockMessage ws (Some m) /\ wsRef (hook w) = Some ws /\
     history_payload m = Some h /\ signalHistory (hook (dispatch occ w)) = h).
Proof.
  split.
  - intros ws m h s He Ht Hc Hl Hs Hm Hp.
    rewrite dispatch_on_time by done. rewrite He.
    rewrite (deliver_message _ ws _ _ s) by done.
    rewrite ws_onmessage_history. simpl.
    rewrite bool_decide_eq_true_2 by done. by rewrite Hp.
  - unfold dispatch. destruct (Z.ltb _ _); [by left|].
    apply (deliver_history (oracle occ) (event occ) (set_clock (at_time occ) w)).
Qed.

(** ** At most one open transport *)

(** C2. In every reachable state at most one socket is open, and
    [connect()] changes nothing but the console when the current socket is
    open or connecting: no socket is created, no ref, React state or timer
    is touched. *)
Theorem at_most_one_open_transport (w : World) :
  reachable w ->
  (forall i j si sj,
      sockets w !! i = Some si -> sockets w !! j = Some sj ->
      readyState si = OPEN -> readyState sj = OPEN -> i = j) /\
  (forall o i,
      wsRef (hook w) = Some i ->
      state_of i w = OPEN \/ state_of i w = CONNECTING ->
      same_session w (connect o w) /\ sockets (connect o w) = sockets w).
Proof.
  intros Hr. destruct (reachable_Inv w Hr) as [Hs _]. split.
  - intros i j si sj Hi Hj Hoi Hoj.
    pose proof (alive_is_current w i si Hs Hi (or_intror Hoi)) as Ei.
    pose proof (alive_is_current w j sj Hs Hj (or_intror Hoj)) as Ej.
    congruence.
  - intros o i E Hst.
    destruct (connect_busy o w i E Hst) as (H1 & H2 & _). by split.
Qed.

(** ** Close classification *)

Lemma filter_none {A} (p : A -> bool) (l : list A) :
  (forall x, In x l -> p x = false) -> List.filter p l = [].
Proof.
  induction l as [|a l IH]; intros H; simpl; [done|].
  rewrite (H a) by (by left). apply IH. intros x Hx. apply H. by right.
Qed.

Lemma no_reconnect_after_clear w a b :
  timers_ok w ->
  List.filter is_reconnect
    (drop a (drop b (drop (reconnectTimeoutRef (hook w)) (timers w)))) = [].
Proof.
  intros Ht. apply filter_none. intros t Hin.
  rewrite !In_drop in Hin. destruct Hin as [[[Hin Hne] _] _].
  specialize (Ht t Hin). unfold tracked, is_reconnect in *.
  by destruct (act t).
Qed.

Lemma deliver_close o ws c r w s :
  sockets w !! ws = Some s -> readyState s <> CLOSED -> onclose s = true ->
  deliver o (SockClose ws c r) w =
  ws_onclose o ws c r (upd_sock ws (set_readyState CLOSED) w).
Proof. intros Hl Hs Hc. simpl. rewrite Hl, Hc. by destruct (readyState s). Qed.

(** [ws.onclose] on the current socket. *)
Lemma ws_onclose_eq o ws c r w :
  wsRef (hook w) = Some ws ->
  ws_onclose o ws c r w =
  let w1 :=
    mkWorld (clear_refs (setIsConnected false (set_connectionStateRef Disconnected (hook w))))
      (sockets w)
      (drop (pingIntervalRef (hook w))
         (drop (connectionTimeoutRef (hook w))
            (drop (reconnectTimeoutRef (hook w)) (timers w))))
      (nextTimer w) (clock w) (connectTimeout w) (listeners w)
      (console w ++ [(LLog, "WebSocket closed:")]) in
  if isCleaningUpRef (hook w) || negb (isMountedRef (hook w)) then w1
  else if intentional c r then
    print LLog "Connection closed intentionally by client" w1
  else
    scheduleReconnect (random o)
      (upd_hook (setError (Some "Connection lost - reconnecting..."))
         (print LLog "Connection lost - will attempt to reconnect" w1)).
Proof.
  intros E. unfold ws_onclose. rewrite current_guard by done.
  rewrite clearTimers_eq. reflexivity.
Qed.

(** C3. A close event for the current socket with code 1000 and reason
    "Client cleanup" leaves no reconnect scheduled; with any other code and
    reason, while the hook is mounted and not cleaning up, it leaves exactly
    one: the timer held by [reconnectTimeoutRef], armed with the backoff
    delay of the incremented attempt count. *)
Theorem close_classification
  (w : World) (occ : Occurrence) (ws : nat) (code : Z) (reason : string) (s : Socket) :
  reachable w ->
  event occ = SockClose ws code reason ->
  clock w <= at_time occ ->
  wsRef (hook w) = Some ws ->
  sockets w !! ws = Some s -> readyState s <> CLOSED -> onclose s = true ->
  let w' := dispatch occ w in
  ((code = 1000 /\ reason = "Client cleanup") -> pending_reconnects w' = []) /\
  (~ (code = 1000 /\ reason = "Client cleanup") ->
   isMountedRef (hook w) = true -> isCleaningUpRef (hook w) = false ->
   let n := reconnectAttemptsRef (hook w) + 1 in
   pending_reconnects w' =
     [mkTimer (nextTimer w) (at_time occ + reconnect_delay n (random (oracle occ)))
              ReconnectT] /\
   reconnectTimeoutRef (hook w') = Some (nextTimer w) /\
   reconnectAttemptsRef (hook w') = n).
Proof.
  intros Hr He Ht Hc Hl Hs Ho w'. subst w'.
  destruct (reachable_Inv w Hr) as [_ Htk].
  rewrite dispatch_on_time by done. rewrite He.
  rewrite (deliver_close _ ws _ _ _ s) by done.
  rewrite ws_onclose_eq by done. simpl.
  split.
  - intros [-> ->]. unfold intentional; simpl.
    destruct (_ || _); unfold pending_reconnects; simpl;
      by apply no_reconnect_after_clear.
  - intros Hni Hm Hcl. rewrite Hm, Hcl; simpl.
    assert (intentional code reason = false) as ->.
    { unfold intentional. apply andb_false_iff.
      destruct (Z.eqb_spec code 1000); [|by left].
      destruct (String.eqb_spec reason "Client cleanup"); [|by right].
      naive_solver. }
    rewrite scheduleReconnect_eq by done. simpl.
    unfold pending_reconnects; simpl. unfold drop at 1.
    rewrite List.filter_app, no_reconnect_after_clear by done.
    by repeat split.
Qed.

(** ** The attempt counter *)

Lemma ws_onopen_attempts ws w :
  wsRef (hook w) = Some ws -> attempts (ws_onopen ws w) = 0.
Proof. intros E. rewrite ws_onopen_eq by done. by rewrite startPingInterval_eq. Qed.

Lemma cleanup_attempts w : attempts (cleanup true w) = attempts w.
Proof. destruct (cleanup_frame w) as (-> & _). reflexivity. Qed.

Lemma deliver_open o ws w s :
  sockets w !! ws = Some s -> readyState s = CONNECTING -> onopen s = true ->
  deliver o (SockOpen ws) w = ws_onopen ws (upd_sock ws (set_readyState OPEN) w).
Proof. intros Hl Hs Ho. simpl. by rewrite Hl, Hs, Ho. Qed.

(** ** Stop *)

Lemma drop_id r l : (forall t, In t l -> r <> Some (tid t)) -> drop r l = l.
Proof.
  destruct r as [id|]; unfold drop; [|done]. intros H.
  induction l as [|a l IH]; simpl; [done|].
  destruct (Nat.eqb (tid a) id) eqn:E; simpl.
  - exfalso. apply Nat.eqb_eq in E. apply (H a); [by left|by rewrite E].
  - f_equal. apply IH. intros t Ht. apply H. by right.
Qed.

(** [stopped] read off the components of a world. *)
Lemma stopped_intro h ss ts nt ck ct ls co :
  isMountedRef h = false -> isCleaningUpRef h = false -> wsRef h = None ->
  reconnectTimeoutRef h = None -> connectionTimeoutRef h = None ->
  pingIntervalRef h = None -> connectionStateRef h = Disconnected ->
  ls = false ->
  (forall s, In s ss -> dead s = true) ->
  (forall t, In t ts -> act t = GraceT) ->
  stopped (mkWorld h ss ts nt ck ct ls co).
Proof. intros. by repeat split. Qed.

Lemma world_eta w :
  w = mkWorld (hook w) (sockets w) (timers w) (nextTimer w) (clock w)
        (connectTimeout w) (listeners w) (console w).
Proof. by destruct w. Qed.

Lemma stopped_same w w' :
  stopped w -> hook w' = hook w -> sockets w' = sockets w ->
  timers w' = timers w -> listeners w' = listeners w -> stopped w'.
Proof.
  intros H Eh Es Et El. unfold stopped in *. by rewrite Eh, Es, Et, El.
Qed.

Lemma effect_unmount_stopped w : Inv w -> stopped (effect_unmount w).
Proof.
  intros [Hs Ht]. rewrite effect_unmount_eq.
  match goal with |- stopped (cleanup true ?W0) => generalize (eq_refl W0); generalize W0 at 1 3 end.
  intros W EW.
  assert (EWh : hook W = set_isMountedRef false (hook w)) by (by rewrite EW).
  assert (EWs : sockets W = sockets w) by (by rewrite EW).
  assert (EWt : timers W = drop (connectTimeout w) (timers w)) by (by rewrite EW).
  assert (EWl : listeners W = false) by (by rewrite EW).
  clear EW.
  destruct (cleanup_frame W) as (Eh & Et & _ & _ & _ & El & _ & _ & Hn).
  assert (Hd : forall s, In s (sockets (cleanup true W)) -> dead s = true).
  { apply stale_list_all_dead.
    destruct (wsRef (hook w)) as [i|] eqn:E.
    - apply (cleanup_sockets_dead i W).
      + by rewrite EWh.
      + unfold stale_ok. rewrite EWs, EWh. exact Hs.
    - rewrite Hn by (by rewrite EWh). rewrite EWs.
      unfold stale_ok in Hs. by rewrite E in Hs. }
  assert (Hg : forall t, In t (timers (cleanup true W)) -> act t = GraceT).
  { rewrite Et, EWt, EWh. intros t Hin.
    rewrite !In_drop in Hin.
    destruct Hin as [[[[Hin H1] H2] H3] H4].
    specialize (Ht t Hin). unfold tracked in Ht. simpl in H2, H3, H4.
    destruct (act t); naive_solver. }
  unfold stopped. rewrite Eh, El, EWl, EWh. by repeat split.
Qed.

Lemma stopped_hook_cleanup h :
  isCleaningUpRef h = false -> wsRef h = None ->
  reconnectTimeoutRef h = None -> connectionTimeoutRef h = None ->
  pingIntervalRef h = None -> connectionStateRef h = Disconnected ->
  set_isCleaningUpRef false
    (set_connectionStateRef Disconnected
       (set_wsRef None (clear_refs (set_isCleaningUpRef true h)))) = h.
Proof.
  destruct h; simpl. by intros -> -> -> -> -> ->.
Qed.

(** [cleanup(true)] on a stopped session changes nothing. *)
Lemma cleanup_stopped w :
  stopped w ->
  hook (cleanup true w) = hook w /\ sockets (cleanup true w) = sockets w /\
  timers (cleanup true w) = timers w.
Proof.
  intros (Hm & Hc & Hw & Hr & Hct & Hp & Hcs & Hl & Hd & Hg).
  destruct (cleanup_frame w) as (Eh & Et & _ & _ & _ & _ & _ & _ & Hn).
  rewrite Eh, Et, Hn by done. rewrite Hr, Hct, Hp.
  split; [by apply stopped_hook_cleanup|done].
Qed.

Lemma attempts_only_refl h : attempts_only h h.
Proof. exists (reconnectAttemptsRef h). by destruct h. Qed.

Lemma attempts_only_trans h1 h2 h3 :
  attempts_only h1 h2 -> attempts_only h2 h3 -> attempts_only h1 h3.
Proof. intros [n ->] [m ->]. by exists m. Qed.

Lemma dead_closed_or_closing s :
  dead s = true ->
  onopen s = false /\ onmessage s = false /\ onerror s = false /\ onclose s = false /\
  readyState s <> CONNECTING /\ readyState s <> OPEN.
Proof. rewrite dead_inv. intros (? & ? & ? & ? & [-> | ->]); by repeat split. Qed.

Lemma In_alter {A} (f : A -> A) i (l : list A) x :
  In x (alter f i l) -> In x l \/ exists y, In y l /\ x = f y.
Proof.
  revert i. induction l as [|a l IH]; intros i; simpl; [done|].
  destruct i as [|i]; simpl.
  - intros [<- | H]; [right; exists a; auto | auto].
  - intros [<- | H]; [auto|].
    destruct (IH i H) as [?|(y & ? & ?)]; [auto|]. right. exists y. auto.
Qed.

Lemma still_refl w : stopped w -> still w w.
Proof. intros H. split; [done|split; [done|apply attempts_only_refl]]. Qed.

Lemma stopped_attempts n l m w :
  stopped w -> stopped (upd_hook (set_reconnectAttemptsRef n) (print l m w)).
Proof.
  intros (Hm & Hc & Hw & Hr & Hct & Hp & Hcs & Hl & Hd & Hg).
  unfold stopped; simpl. by repeat split.
Qed.

Lemma reconnect_stopped w : stopped w -> still w (reconnect w).
Proof.
  intros Hst. rewrite reconnect_eq.
  match goal with |- still _ (setTimeout _ _ (cleanup true ?W0)) =>
    assert (H1 : stopped W0) by (by apply stopped_attempts);
    assert (E1 : hook W0 = set_reconnectAttemptsRef 0 (hook w)) by reflexivity;
    assert (E2 : sockets W0 = sockets w) by reflexivity;
    assert (E3 : timers W0 = timers w) by reflexivity;
    generalize dependent W0
  end.
  intros W1 H1 E1 E2 E3.
  destruct (cleanup_stopped W1 H1) as (Eh & Es & Et).
  destruct (cleanup_frame W1) as (_ & _ & En & Ek & Ec & El & Eco & _).
  pose proof H1 as (Hm & Hc & Hw & Hr & Hct & Hp & Hcs & Hl & Hd & Hg).
  rewrite (world_eta (cleanup true W1)). rewrite Eh, Es, Et, En, Ek, Ec, El, Eco.
  unfold setTimeout; simpl.
  split; [|split].
  - apply stopped_intro; try done.
    intros t Hin. apply in_app_iff in Hin as [Hin|[<-|[]]]; [by apply Hg|done].
  - by rewrite E2.
  - rewrite E1. by exists 0.
Qed.

Lemma fire_grace_stopped o t w :
  stopped w -> In t (timers w) ->
  still w (timer_callback o (act t) (fire t w)).
Proof.
  intros Hst Hin.
  pose proof Hst as (Hm & Hc & Hw & Hr & Hct & Hp & Hcs & Hl & Hd & Hg).
  pose proof (Hg t Hin) as Ha.
  assert (Ef : fire t w = set_timers
            (List.filter (fun t' => negb (Nat.eqb (tid t') (tid t))) (timers w)) w)
    by (unfold fire; by rewrite Ha).
  rewrite Ha, Ef. simpl. rewrite Hm.
  split; [|split; [done|apply attempts_only_refl]].
  rewrite (world_eta w) in *. simpl in *. apply stopped_intro; try done.
  intros t' Hin'. apply filter_In in Hin' as [Hin' _]. by apply Hg.
Qed.

Lemma stopped_lookup w i s :
  stopped w -> sockets w !! i = Some s -> dead s = true.
Proof.
  intros (_ & _ & _ & _ & _ & _ & _ & _ & Hd & _) Hl.
  apply Hd, list_elem_of_In, list_elem_of_lookup. eauto.
Qed.

Lemma close_dead_stopped w i :
  stopped w -> still w (upd_sock i (set_readyState CLOSED) w).
Proof.
  intros Hst.
  pose proof Hst as (Hm & Hc & Hw & Hr & Hct & Hp & Hcs & Hl & Hd & Hg).
  split; [|split; [simpl; by rewrite length_alter|apply attempts_only_refl]].
  rewrite (world_eta w) in *. simpl in *. apply stopped_intro; try done.
  intros s' Hin. apply In_alter in Hin as [Hin|(y & Hin & ->)]; [by apply Hd|].
  apply dead_set_closed. by apply Hd.
Qed.

Lemma deliver_stopped o e w :
  stopped w -> e <> Mount -> still w (deliver o e w).
Proof.
  intros Hst Hne.
  pose proof Hst as (Hm & Hc & Hw & Hr & Hct & Hp & Hcs & Hl & Hd & Hg).
  destruct e as [| | | v | | | id | ws | ws parsed | ws | ws code reason];
    unfold deliver.
  - done.
  - rewrite Hl. by apply still_refl.
  - by apply reconnect_stopped.
  - rewrite Hl. by apply still_refl.
  - rewrite Hl. by apply still_refl.
  - rewrite Hl. by apply still_refl.
  - destruct (find _ _) as [t|] eqn:Ef; [|by apply still_refl].
    destruct (Z.leb _ _); [|by apply still_refl].
    apply find_some in Ef as [Hin _]. by apply fire_grace_stopped.
  - destruct (sockets w !! ws) as [s|] eqn:El; [|by apply still_refl].
    destruct (dead_closed_or_closing s (stopped_lookup w ws s Hst El))
      as (_ & _ & _ & _ & Hs1 & Hs2).
    destruct (readyState s); try done; by apply still_refl.
  - destruct (sockets w !! ws) as [s|] eqn:El; [|by apply still_refl].
    destruct (dead_closed_or_closing s (stopped_lookup w ws s Hst El))
      as (_ & _ & _ & _ & Hs1 & Hs2).
    destruct (readyState s); try done; by apply still_refl.
  - destruct (sockets w !! ws) as [s|] eqn:El; [|by apply still_refl].
    destruct (dead_closed_or_closing s (stopped_lookup w ws s Hst El))
      as (_ & _ & -> & _ & Hs1 & Hs2).
    destruct (readyState s); try done; by apply still_refl.
  - destruct (sockets w !! ws) as [s|] eqn:El; [|by apply still_refl].
    destruct (dead_closed_or_closing s (stopped_lookup w ws s Hst El))
      as (_ & _ & _ & -> & Hs1 & Hs2).
    destruct (readyState s); try done;
      [by apply close_dead_stopped|by apply still_refl].
Qed.

Lemma stopped_step occ w :
  stopped w -> event occ <> Mount -> still w (dispatch occ w).
Proof.
  intros Hst Hne. unfold dispatch.
  destruct (Z.ltb _ _); [by apply still_refl|].
  assert (HW : stopped (set_clock (at_time occ) w))
    by (apply (stopped_same w); [exact Hst|reflexivity..]).
  destruct (deliver_stopped (oracle occ) (event occ) _ HW Hne) as (H1 & H2 & H3).
  split; [exact H1|split; [exact H2|exact H3]].
Qed.

Lemma stopped_run tr w :
  stopped w -> Forall (fun occ => event occ <> Mount) tr -> still w (run tr w).
Proof.
  revert w. induction tr as [|occ tr IH]; intros w Hst Hne.
  - by apply still_refl.
  - inversion Hne as [|? ? Ho Hne']; subst. simpl.
    destruct (stopped_step occ w Hst Ho) as (H1 & H2 & H3).
    destruct (IH _ H1 Hne') as (H4 & H5 & H6).
    split; [done|]. split; [congruence|].
    by apply attempts_only_trans with (hook (dispatch occ w)).
Qed.

Lemma set_isMountedRef_id h : isMountedRef h = false -> set_isMountedRef false h = h.
Proof. destruct h; simpl. by intros ->. Qed.

(** Unmounting a second time, with the same effect local. *)
Lemma stopped_unmount_again w1 :
  stopped w1 ->
  (forall t, In t (timers w1) -> connectTimeout w1 <> Some (tid t)) ->
  same_session w1 (effect_unmount w1) /\ sockets (effect_unmount w1) = sockets w1.
Proof.
  intros Hst Hfresh. rewrite effect_unmount_eq.
  pose proof Hst as (Hm & Hc & Hw & Hr & Hct & Hp & Hcs & Hl & Hd & Hg).
  rewrite set_isMountedRef_id, drop_id by done.
  match goal with |- context [cleanup true ?W0] =>
    assert (HW : stopped W0) by (by apply stopped_intro);
    assert (E1 : hook W0 = hook w1) by reflexivity;
    assert (E2 : sockets W0 = sockets w1) by reflexivity;
    assert (E3 : timers W0 = timers w1) by reflexivity;
    assert (E4 : nextTimer W0 = nextTimer w1) by reflexivity;
    assert (E5 : connectTimeout W0 = connectTimeout w1) by reflexivity;
    assert (E6 : listeners W0 = false) by reflexivity;
    generalize dependent W0
  end.
  intros W HW E1 E2 E3 E4 E5 E6.
  destruct (cleanup_stopped W HW) as (Eh & Es & Et).
  destruct (cleanup_frame W) as (_ & _ & En & _ & Ec & El & _).
  unfold same_session. rewrite Eh, Es, Et, En, Ec, El, E1, E2, E3, E4, E5, E6, Hl.
  by repeat split.
Qed.

Lemma effect_unmount_fresh w t :
  In t (timers (effect_unmount w)) -> connectTimeout (effect_unmount w) <> Some (tid t).
Proof.
  rewrite effect_unmount_eq.
  match goal with |- context [cleanup true ?W0] =>
    assert (E3 : timers W0 = drop (connectTimeout w) (timers w)) by reflexivity;
    assert (E5 : connectTimeout W0 = connectTimeout w) by reflexivity;
    generalize dependent W0
  end.
  intros W E3 E5.
  destruct (cleanup_frame W) as (_ & Et & _ & _ & Ec & _).
  rewrite Et, Ec, E3, E5. rewrite !In_drop. naive_solver.
Qed.

Lemma effect_unmount_twice w :
  Inv w ->
  same_session (effect_unmount w) (effect_unmount (effect_unmount w)) /\
  sockets (effect_unmount (effect_unmount w)) = sockets (effect_unmount w).
Proof.
  intros HI. apply stopped_unmount_again.
  - by apply effect_unmount_stopped.
  - apply effect_unmount_fresh.
Qed.

(** C6, as stated, fails: [stop()] does not cancel the grace timer of
    [reconnect], and that timer's callback still fires after the unmount.
    Mount at 0, manual reconnect at 10, unmount at 20: timer 2 is pending
    after the unmount and fires at 110. *)
Lemma stop_leaves_grace_timer :
  let w1 := run [mkOcc 0 Mount quiet; mkOcc 10 ManualReconnect quiet;
                 mkOcc 20 Unmount quiet] init in
  isMountedRef (hook w1) = false /\
  timers w1 = [mkTimer 2 110 GraceT] /\
  timers (dispatch (mkOcc 110 (TimerFire 2) quiet) w1) = [].
Proof. vm_compute. by repeat split. Qed.

(** C6, amended.  Unmounting twice changes nothing the second time but one
    console line; the unmount detaches every callback, closes the socket and
    cancels the reconnect, connection-timeout, ping and initial-connect
    timers, leaving at most grace timers of [reconnect] pending; and as long
    as the component is not mounted again no event, including those grace
    timers firing, creates a socket or changes any ref or React state other
    than the attempt counter. *)
Theorem stop_idempotent_and_final (w : World) (tr : list Occurrence) :
  reachable w ->
  Forall (fun occ => event occ <> Mount) tr ->
  let w1 := effect_unmount w in
  let w2 := run tr w1 in
  (same_session w1 (effect_unmount w1) /\ sockets (effect_unmount w1) = sockets w1) /\
  stopped w1 /\
  stopped w2 /\
  length (sockets w2) = length (sockets w1) /\
  attempts_only (hook w1) (hook w2).
Proof.
  intros Hr Hne.
  pose proof (reachable_Inv w Hr) as HI.
  pose proof (effect_unmount_stopped w HI) as Hst.
  generalize (effect_unmount_twice w HI).
  generalize dependent (effect_unmount w). intros w1 Hst Htw. cbv zeta.
  split; [exact Htw|]. split; [exact Hst|].
  by apply stopped_run.
Qed.

(** ** The connection timeout *)

(** C5 fails on the code.  The timeout callback closes the socket, which
    stays the current one with its handlers attached, and schedules the
    first retry (attempt 1, due 2000ms later).  The close event that the
    socket's [close()] produces is then handled as a second lost closure:
    it cancels that retry, raises the attempt count to 2 and schedules the
    retry 3000ms after the close. *)
Lemma connection_timeout_counted_twice :
  let w1 := run timeout_run init in
  let w2 := dispatch (lost 10051 0) w1 in
  (wsRef (hook w1) = Some 0%nat /\ state_of 0 w1 = CLOSING /\
   reconnectAttemptsRef (hook w1) = 1 /\
   pending_reconnects w1 = [mkTimer 3 12050 ReconnectT]) /\
  (reconnectAttemptsRef (hook w2) = 2 /\
   pending_reconnects w2 = [mkTimer 4 13051 ReconnectT]).
Proof. vm_compute. by repeat split. Qed.

(** ** Instances *)

Lemma connecting_world_reachable : reachable connecting_world.
Proof.
  apply reachable_run; [constructor|]. repeat constructor; apply valid_quiet.
Qed.

Lemma open_world_reachable : reachable open_world.
Proof.
  apply reachable_run; [constructor|]. repeat constructor; apply valid_quiet.
Qed.

Lemma stale_event_immunity_witness :
  let occ := mkOcc 5 (SockMessage 0 (Some (history_frame 3))) quiet in
  same_session superseded_world (dispatch occ superseded_world) /\
  console (dispatch occ superseded_world) = console superseded_world.
Proof.
  intros occ.
  destruct (stale_event_immunity superseded_world occ 0%nat) as (H1 & H2 & _).
  - reflexivity.
  - discriminate.
  - split; [exact H1|exact H2].
Defined.

Lemma at_most_one_open_transport_witness :
  reachable open_world /\
  same_session open_world (connect quiet open_world).
Proof.
  split; [apply open_world_reachable|].
  destruct (at_most_one_open_transport open_world open_world_reachable) as [_ H].
  destruct (H quiet 0%nat) as [H1 _].
  - reflexivity.
  - left. reflexivity.
  - exact H1.
Defined.

Lemma close_classification_witness :
  pending_reconnects (dispatch (lost 100 0) open_world) =
  [mkTimer 4 (100 + reconnect_delay 1 0) ReconnectT].
Proof.
  destruct (close_classification open_world (lost 100 0) 0%nat 1006 "" open_socket)
    as [_ H].
  - apply open_world_reachable.
  - reflexivity.
  - vm_compute. discriminate.
  - reflexivity.
  - reflexivity.
  - discriminate.
  - reflexivity.
  - destruct H as (H & _).
    + intros [H _]. discriminate.
    + reflexivity.
    + reflexivity.
    + exact H.
Defined.

Lemma stop_idempotent_and_final_witness :
  let tr := [tick 100000 3; mkOcc 100100 Online quiet;
             mkOcc 100200 ManualReconnect quiet; tick 100300 4;
             mkOcc 100400 (SockOpen 0) quiet] in
  stopped (run tr (effect_unmount open_world)) /\
  length (sockets (run tr (effect_unmount open_world))) = 1%nat.
Proof.
  intros tr.
  destruct (stop_idempotent_and_final open_world tr) as (_ & _ & H1 & H2 & _).
  - apply open_world_reachable.
  - repeat constructor; discriminate.
  - split; [exact H1|exact H2].
Defined.

Lemma malformed_frame_nonfatal_witness :
  let occ := mkOcc 70 (SockMessage 0 None) quiet in
  same_session open_world (dispatch occ open_world) /\
  state_of 0 (dispatch occ open_world) = OPEN.
Proof.
  intros occ.
  destruct (malformed_frame_nonfatal open_world occ 0%nat open_socket)
    as (H1 & _ & _ & _ & _ & H2 & _).
  - reflexivity.
  - vm_compute. discriminate.
  - reflexivity.
  - reflexivity.
  - reflexivity.
  - reflexivity.
  - reflexivity.
  - split; [exact H1|exact H2].
Defined.

Lemma history_replaced_only_by_payload_witness :
  let occ := mkOcc 70 (SockMessage 0 (Some (history_frame 2))) quiet in
  signalHistory (hook (dispatch occ open_world)) = JArr [JNull; JNull].
Proof.
  intros occ.
  apply (proj1 (history_replaced_only_by_payload open_world occ)
           0%nat (history_frame 2) (JArr [JNull; JNull]) open_socket).
  - reflexivity.
  - vm_compute. discriminate.
  - reflexivity.
  - reflexivity.
  - reflexivity.
  - reflexivity.
  - reflexivity.
Defined.

Lemma missing_payload_guard_witness :
  let occ := mkOcc 70 (SockMessage 0 (Some headless_frame)) quiet in
  hook (dispatch occ open_world) = hook open_world.
Proof.
  intros occ.
  destruct (missing_payload_guard open_world occ 0%nat headless_frame) as [H _].
  - reflexivity.
  - left. reflexivity.
  - left. reflexivity.
  - exact H.
Defined.
(** * Further properties *)

(** ** The callbacks as sequences of elementary operations *)

Lemma steps_trans p w1 w2 w3 : steps p w1 w2 -> steps p w2 w3 -> steps p w1 w3.
Proof.
  intros H12 H23. induction H23; [done|].
  eapply steps_snoc; [|done]. by apply IHsteps.
Qed.

Lemma steps_one p w1 w2 : prim p w1 w2 -> steps p w1 w2.
Proof. intros H. eapply steps_snoc; [apply steps_refl|done]. Qed.

(** Peel the outermost operation off the goal [steps p w (op ...)]. *)
Ltac peel :=
  first
    [ apply steps_refl
    | eapply steps_snoc;
      [| first [ apply prim_print
               | apply prim_reset
           | apply prim_connected
           | apply prim_flag
               | apply prim_connected
               | apply prim_flag
               | apply prim_hook; constructor
               | apply prim_timer; discriminate
               | apply prim_clear
               | apply prim_socket; constructor
               | apply prim_new
               | apply prim_local
               | apply prim_listen ] ] ].

Lemma clearTimers_steps p w : steps p w (clearTimers w).
Proof.
  unfold clearTimers.
  destruct (reconnectTimeoutRef (hook w)); simpl;
    destruct (connectionTimeoutRef (hook w)); simpl;
      destruct (pingIntervalRef (hook w)); simpl; repeat peel.
Qed.

Lemma scheduleReconnect_clear r w t :
  isMountedRef (hook w) = true -> isCleaningUpRef (hook w) = false ->
  reconnectTimeoutRef (hook w) = Some t ->
  scheduleReconnect r w =
  scheduleReconnect r (upd_hook (set_reconnectTimeoutRef None) (clearTimeout t w)).
Proof.
  intros Hm Hc Hr. rewrite !scheduleReconnect_eq by done. simpl. by rewrite Hr.
Qed.

Lemma scheduleReconnect_steps p r w :
  valid_oracle (mkOracle r false) -> steps p w (scheduleReconnect r w).
Proof.
  intros Hv.
  destruct (isMountedRef (hook w)) eqn:Em;
    [|rewrite scheduleReconnect_off by auto; apply steps_refl].
  destruct (isCleaningUpRef (hook w)) eqn:Ec;
    [rewrite scheduleReconnect_off by auto; apply steps_refl|].
  destruct (reconnectTimeoutRef (hook w)) as [t|] eqn:Er.
  - rewrite (scheduleReconnect_clear r w t) by done.
    eapply steps_snoc; [|by apply prim_schedule]. repeat peel.
  - apply steps_one. by apply prim_schedule.
Qed.

Lemma startPingInterval_steps p w : steps p w (startPingInterval w).
Proof.
  unfold startPingInterval.
  destruct (pingIntervalRef (hook w)); repeat peel.
Qed.

Lemma cleanup_steps w : steps Cleaning w (cleanup true w).
Proof.
  unfold cleanup.
  eapply steps_snoc; [|apply prim_flag].
  eapply steps_snoc; [|apply prim_hook; constructor].
  match goal with |- steps _ _ (match wsRef (hook ?W) with _ => _ end) =>
    assert (HW : steps Cleaning w W)
      by (eapply steps_trans; [|apply clearTimers_steps];
          apply steps_one, prim_flag);
    generalize dependent W
  end.
  intros W HW.
  destruct (wsRef (hook W)) as [i|]; [|done].
  eapply steps_snoc; [|apply prim_hook; constructor].
  destruct (state_of i (upd_sock i detach W));
    repeat (eapply steps_snoc; [|apply prim_socket; constructor]); done.
Qed.

Lemma connect_steps p o w : valid_oracle o -> steps p w (connect o w).
Proof.
  intros Hv.
  assert (T : forall w1, steps p w w1 ->
    steps p w
      (let w := clearTimers w1 in
       let w := upd_hook (set_connectionStateRef Connecting) w in
       let w := print LLog "Connecting to WebSocket:" w in
       let w := upd_hook (setError (Some "Connecting...")) w in
       if ctorThrows o then
         let w := print LError "Error creating WebSocket:" w in
         let w := upd_hook (set_connectionStateRef Disconnected) w in
         let w := upd_hook (setError (Some "Failed to create connection")) w in
         let w := upd_hook (setIsConnected false) w in
         if isMountedRef (hook w) then scheduleReconnect (random o) w else w
       else
         let ws := length (sockets w) in
         let w := set_sockets (sockets w ++ [fresh_socket]) w in
         let w := upd_hook (set_wsRef (Some ws)) w in
         upd_hook (set_connectionTimeoutRef (Some (nextTimer w)))
           (setTimeout (ConnTimeoutT ws) CONNECTION_TIMEOUT w))).
  { intros w1 H1. cbv zeta.
    assert (H2 : steps p w (clearTimers w1))
      by (eapply steps_trans; [exact H1|apply clearTimers_steps]).
    generalize dependent (clearTimers w1). intros w2 H2.
    destruct (ctorThrows o).
    - match goal with |- steps _ _ (if _ then scheduleReconnect _ ?W else _) =>
        assert (HW : steps p w W)
          by (repeat (eapply steps_snoc;
                      [|first [apply prim_print | apply prim_hook; constructor]]);
              exact H2);
        generalize dependent W
      end.
      intros W HW. destruct (isMountedRef (hook W)); [|done].
      eapply steps_trans; [exact HW|]. by apply scheduleReconnect_steps.
    - repeat (eapply steps_snoc;
              [|first [apply prim_print | apply prim_hook; constructor
                      | apply prim_timer; discriminate | apply prim_new]]).
      exact H2. }
  unfold connect.
  destruct (_ || _); [apply steps_refl|].
  destruct (wsRef (hook w)) as [i|] eqn:E.
  - destruct (state_of i w); try (apply steps_one, prim_print);
      apply T; repeat peel.
  - apply T, steps_refl.
Qed.

Ltac peel' :=
  eapply steps_snoc;
  [| first [ apply prim_print
           | apply prim_reset
           | apply prim_connected
           | apply prim_flag
           | apply prim_hook; constructor
           | apply prim_timer; discriminate
           | apply prim_clear
           | apply prim_socket; constructor
           | apply prim_new
           | apply prim_local
           | apply prim_listen ] ].

(** Close [steps p w (g W)] for a composite [g] whose own lemma is [L]. *)
Ltac via L := eapply steps_trans; [|apply L]; repeat peel'; try done.

Lemma connection_timeout_steps p o ws w :
  valid_oracle o -> steps p w (connection_timeout o ws w).
Proof.
  intros Hv. unfold connection_timeout.
  destruct (_ && _); [|apply steps_refl].
  cbv zeta.
  match goal with |- steps _ _ (if isMountedRef (hook ?W) then _ else _) =>
    assert (HW : steps p w W) by (repeat peel); generalize dependent W end.
  intros W HW. destruct (isMountedRef (hook W)); [|done].
  eapply steps_trans; [exact HW|]. by apply scheduleReconnect_steps.
Qed.

Lemma ws_onopen_steps ws w : steps Opening w (ws_onopen ws w).
Proof.
  unfold ws_onopen. destruct (negb _); [repeat peel|].
  cbv zeta. eapply steps_trans; [|apply startPingInterval_steps].
  match goal with |- steps _ _ (match connectionTimeoutRef (hook ?W) with _ => _ end) =>
    assert (HW : steps Opening w W) by (repeat peel); generalize dependent W end.
  intros W HW. destruct (connectionTimeoutRef (hook W)); [|done].
  repeat peel'; done.
Qed.

Lemma ws_onmessage_steps p ws parsed w : steps p w (ws_onmessage ws parsed w).
Proof.
  unfold ws_onmessage. destruct (negb _); [apply steps_refl|].
  destruct parsed as [m|]; [|repeat peel].
  assert (G : steps p w
    (if type_is "market_data" m && truthy_prop "data" m
     then
      let w0 := upd_hook (setData (prop "data" m)) w in
      let w1 := upd_hook (setError None) w0 in
      match prop "signal_history" m with
      | Some h => if truthy h then upd_hook (setSignalHistory h) w1 else w1
      | None => w1
      end
     else
      if type_is "signal_history" m && truthy_prop "data" m
      then match prop "data" m with
           | Some d => upd_hook (setSignalHistory d) w
           | None => w
           end
      else if type_is "connection" m then print LLog "Server:" w else w)).
  { destruct (_ && _).
    - cbv zeta. destruct (prop "signal_history" m) as [h|];
        [destruct (truthy h)|]; repeat peel.
    - destruct (_ && _).
      + destruct (prop "data" m); repeat peel.
      + destruct (type_is "connection" m); repeat peel. }
  destruct m; try exact G. repeat peel.
Qed.

Lemma ws_onerror_steps p ws w : steps p w (ws_onerror ws w).
Proof. unfold ws_onerror. destruct (negb _); repeat peel. Qed.

Lemma ws_onclose_steps p o ws code reason w :
  valid_oracle o -> steps p w (ws_onclose o ws code reason w).
Proof.
  intros Hv. unfold ws_onclose. destruct (negb _); [apply steps_refl|].
  cbv zeta.
  match goal with |- steps _ _ (if isCleaningUpRef (hook ?W) || _ then _ else _) =>
    assert (HW : steps p w W) by (via clearTimers_steps; apply steps_refl);
    generalize dependent W end.
  intros W HW. destruct (_ || _); [done|].
  destruct (_ && _); [by peel'|].
  eapply steps_trans; [|by apply scheduleReconnect_steps].
  by repeat peel'.
Qed.

Lemma reconnect_steps w : steps Cleaning w (reconnect w).
Proof.
  unfold reconnect. cbv zeta. peel'.
  eapply steps_trans; [|apply cleanup_steps]. repeat peel.
Qed.

Lemma handleVisibilityChange_steps p o v w :
  valid_oracle o -> steps p w (handleVisibilityChange o v w).
Proof.
  intros Hv. unfold handleVisibilityChange.
  destruct (_ && _); [|apply steps_refl].
  match goal with |- steps _ _ (if ?b then _ else _) => destruct b end;
    [|apply steps_refl].
  cbv zeta. eapply steps_trans; [|by apply connect_steps]. repeat peel.
Qed.

Lemma handleOnline_steps p o w : valid_oracle o -> steps p w (handleOnline o w).
Proof.
  intros Hv. unfold handleOnline. destruct (isMountedRef _); [|apply steps_refl].
  cbv zeta. eapply steps_trans; [|by apply connect_steps]. repeat peel.
Qed.

Lemma handleOffline_steps p w : steps p w (handleOffline w).
Proof. unfold handleOffline. repeat peel. Qed.

Lemma effect_mount_steps p w : steps p w (effect_mount w).
Proof. unfold effect_mount. repeat peel. Qed.

Lemma effect_unmount_steps w : steps Cleaning w (effect_unmount w).
Proof.
  unfold effect_unmount. cbv zeta.
  eapply steps_trans; [|apply cleanup_steps]. peel'.
  destruct (connectTimeout _); repeat peel.
Qed.

Lemma timer_callback_steps p o a w :
  valid_oracle o -> steps p w (timer_callback o a w).
Proof.
  intros Hv. destruct a as [|ws| | |]; simpl.
  - destruct (_ && _); [by apply connect_steps|apply steps_refl].
  - by apply connection_timeout_steps.
  - unfold ping_tick. destruct (wsRef (hook w)) as [i|]; [|apply steps_refl].
    destruct (state_of i w); try apply steps_refl.
    apply steps_one. apply prim_socket. constructor.
  - destruct (isMountedRef _); [by apply connect_steps|apply steps_refl].
  - destruct (isMountedRef _); [by apply connect_steps|apply steps_refl].
Qed.

(** Every callback of the hook, and every event of the loop, is a sequence
    of elementary operations. *)
Lemma callbacks_are_steps o e w :
  valid_oracle o -> steps (perm_of e) w (deliver o e w).
Proof.
  intros Hv.
  destruct e as [| | | v | | | id | ws | ws parsed | ws | ws code reason];
    unfold deliver.
  - destruct (listeners w); [apply steps_refl|apply effect_mount_steps].
  - destruct (listeners w); [apply effect_unmount_steps|apply steps_refl].
  - apply reconnect_steps.
  - destruct (listeners w); [by apply handleVisibilityChange_steps|apply steps_refl].
  - destruct (listeners w); [by apply handleOnline_steps|apply steps_refl].
  - destruct (listeners w); [by apply handleOffline_steps|apply steps_refl].
  - destruct (List.find _ _) as [t|] eqn:E; [|apply steps_refl].
    destruct (Z.leb _ _); [|apply steps_refl].
    eapply steps_trans; [|by apply timer_callback_steps].
    apply steps_one, prim_fire. by apply find_some in E as [? _].
  - destruct (sockets w !! ws) as [s|]; [|apply steps_refl].
    destruct (readyState s); try apply steps_refl.
    cbv zeta. destruct (onopen s).
    + eapply steps_trans; [|apply ws_onopen_steps]. repeat peel.
    + repeat peel.
  - destruct (sockets w !! ws) as [s|]; [|apply steps_refl].
    destruct (readyState s); try apply steps_refl.
    destruct (onmessage s); [apply ws_onmessage_steps|apply steps_refl].
  - destruct (sockets w !! ws) as [s|]; [|apply steps_refl].
    destruct (readyState s); try apply steps_refl;
      (destruct (onerror s); [apply ws_onerror_steps|apply steps_refl]).
  - destruct (sockets w !! ws) as [s|]; [|apply steps_refl].
    destruct (readyState s); try apply steps_refl; cbv zeta;
      (destruct (onclose s);
       [eapply steps_trans; [|by apply ws_onclose_steps]; repeat peel
       |repeat peel]).
Qed.

Lemma steps_keep p (P : World -> Prop) :
  (forall w w', prim p w w' -> P w -> P w') ->
  forall w w', steps p w w' -> P w -> P w'.
Proof. intros HP w w' Hs. induction Hs; eauto. Qed.

Lemma reachable_keep (P : World -> Prop) :
  P init ->
  (forall t w, P w -> P (set_clock t w)) ->
  (forall p w w', prim p w w' -> P w -> P w') ->
  forall w, reachable w -> P w.
Proof.
  intros H0 Hc Hp w Hr. induction Hr as [|w occ Hr IH Hv]; [done|].
  unfold dispatch. destruct (Z.ltb _ _); [done|].
  eapply steps_keep; [apply Hp|by apply callbacks_are_steps|]. by apply Hc.
Qed.

(** ** Timer ids *)

Lemma NoDup_tid_filter (q : Timer -> bool) l :
  List.NoDup (map tid l) -> List.NoDup (map tid (List.filter q l)).
Proof.
  induction l as [|x l IH]; simpl; [done|].
  intros H. apply List.NoDup_cons_iff in H as [Hx Hl].
  destruct (q x); simpl; [|by apply IH].
  apply List.NoDup_cons_iff. split; [|by apply IH].
  rewrite in_map_iff in *. intros (y & Ey & Hy).
  apply filter_In in Hy as [Hy _]. apply Hx. by exists y.
Qed.

Lemma NoDup_tid_snoc l t :
  List.NoDup (map tid l) -> (forall x, In x l -> tid x <> tid t) ->
  List.NoDup (map tid (l ++ [t])).
Proof.
  induction l as [|x l IH]; simpl; intros Hd Hne.
  - apply List.NoDup_cons_iff. split; [by intros []|constructor].
  - apply List.NoDup_cons_iff in Hd as [Hx Hl].
    apply List.NoDup_cons_iff. split; [|apply IH; auto].
    rewrite in_map_iff in *. intros (y & Ey & Hy).
    apply in_app_iff in Hy as [Hy|[<-|[]]].
    + apply Hx. by exists y.
    + by apply (Hne x); [left|].
Qed.

Lemma NoDup_tid_inj l t1 t2 :
  List.NoDup (map tid l) -> In t1 l -> In t2 l -> tid t1 = tid t2 -> t1 = t2.
Proof.
  induction l as [|x l IH]; simpl; [done|].
  intros Hd H1 H2 E. apply List.NoDup_cons_iff in Hd as [Hx Hl].
  rewrite in_map_iff in Hx.
  destruct H1 as [<-|H1], H2 as [<-|H2]; try done.
  - exfalso. apply Hx. by exists t2.
  - exfalso. apply Hx. by exists t1.
  - by apply IH.
Qed.

Lemma ids_ok_drop r w w' :
  timers w' = drop r (timers w) -> nextTimer w' = nextTimer w ->
  ids_ok w -> ids_ok w'.
Proof.
  intros Et En (Hn & Hd & Hlt). unfold ids_ok. rewrite Et, En.
  split; [done|]. destruct r as [id|]; unfold drop; [|done].
  split; [by apply NoDup_tid_filter|].
  intros t Ht. apply filter_In in Ht as [Ht _]. by apply Hlt.
Qed.

Lemma ids_ok_arm a d w w' :
  timers w' = (timers w ++ [mkTimer (nextTimer w) d a])%list ->
  nextTimer w' = S (nextTimer w) ->
  ids_ok w -> ids_ok w'.
Proof.
  intros Et En (Hn & Hd & Hlt). unfold ids_ok. rewrite Et, En.
  split; [lia|]. split.
  - apply NoDup_tid_snoc; [done|]. intros x Hx. specialize (Hlt x Hx).
    simpl. lia.
  - intros t Ht. apply in_app_iff in Ht as [Ht|[<-|[]]]; simpl.
    + specialize (Hlt t Ht). lia.
    + lia.
Qed.

Lemma prim_ids_ok p w w' : prim p w w' -> ids_ok w -> ids_ok w'.
Proof.
  destruct 1 as [p l m w|p f w Hf|p w|w|b w|p a d w Ha|p id w|p t w Ht
                |p r w Hv Hm Hc Hr|p i f w Hf|p w|p r w|p b w]; intros Hi;
    try exact Hi.
  - by apply (ids_ok_arm a (clock w + d) w).
  - by apply (ids_ok_drop (Some id) w).
  - destruct Hi as (Hn & Hd & Hlt). destruct w as [h ss ts nt ck ct ls co].
    unfold ids_ok, fire; simpl in *.
    assert (Hrest : forall x,
      In x (List.filter (fun t' => negb (Nat.eqb (tid t') (tid t))) ts) ->
      In x ts /\ tid x <> tid t).
    { intros x Hx. apply filter_In in Hx as [Hx Hne]. split; [done|].
      intros E. by rewrite E, Nat.eqb_refl in Hne. }
    destruct (act t); simpl; (split; [done|]);
      try (split; [by apply NoDup_tid_filter|intros x Hx; apply Hlt; by apply Hrest]).
    split.
    + apply NoDup_tid_snoc; [by apply NoDup_tid_filter|].
      intros x Hx. by apply Hrest.
    + intros x Hx. apply in_app_iff in Hx as [Hx|[<-|[]]]; simpl.
      * apply Hlt. by apply Hrest.
      * by apply Hlt.
  - rewrite scheduleReconnect_eq by done. rewrite Hr. cbv zeta.
    eapply (ids_ok_arm ReconnectT _ w); [reflexivity|reflexivity|done].
Qed.

Lemma reachable_ids_ok w : reachable w -> ids_ok w.
Proof.
  apply reachable_keep.
  - split; [simpl; lia|]. split; [apply List.NoDup_nil|by intros].
  - intros t w' H. exact H.
  - apply prim_ids_ok.
Qed.

(** ** Only pings *)

Lemma prim_only_pings p w w' : prim p w w' -> only_pings w -> only_pings w'.
Proof.
  destruct 1 as [p l m w|p f w Hf|p w|w|b w|p a d w Ha|p id w|p t w Ht
                |p r w Hv Hm Hc Hr|p i f w Hf|p w|p r w|p b w]; intros Hi;
    try exact Hi.
  - unfold only_pings, fire in *. by destruct (act t).
  - unfold only_pings. by rewrite scheduleReconnect_sockets.
  - unfold only_pings in *; simpl. apply Forall_alter; [done|].
    intros s _ Hs. destruct Hf; simpl; try done.
    + unfold ws_close. by destruct (readyState s).
    + apply Forall_app. split; [done|]. by constructor.
  - unfold only_pings in *; simpl. apply Forall_app. split; [done|].
    by repeat constructor.
Qed.

(** ** The retry window *)

Lemma prim_retry_window c old p w w' :
  prim p w w' -> retry_window c old w -> retry_window c old w'.
Proof.
  destruct 1 as [p l m w|p f w Hf|p w|w|b w|p a d w Ha|p id w|p t w Ht
                |p r w Hv Hm Hc Hr|p i f w Hf|p w|p r w|p b w];
    intros (Hk & Hn & Hw); try (by repeat split).
  - repeat split; try done. by destruct Hf.
  - repeat split; try done.
    simpl. intros t Ht Hr. apply in_app_iff in Ht as [Ht|[<-|[]]]; [by apply Hw|].
    unfold is_reconnect in Hr; simpl in Hr. by destruct a.
  - repeat split; try done.
    simpl. intros t Ht. apply filter_In in Ht as [Ht _]. by apply Hw.
  - unfold fire.
    assert (Hrest : forall x,
      In x (List.filter (fun t' => negb (Nat.eqb (tid t') (tid t))) (timers w)) ->
      is_reconnect x = true -> In x old \/ c + 2000 <= due x <= c + 31000).
    { intros x Hx. apply filter_In in Hx as [Hx _]. by apply Hw. }
    destruct (act t); repeat split; try done. simpl.
    intros x Hx Hr. apply in_app_iff in Hx as [Hx|[<-|[]]]; [by apply Hrest|].
    done.
  - rewrite scheduleReconnect_eq by done. rewrite Hr. cbv zeta.
    unfold retry_window; simpl. repeat split; [done|lia|].
    intros t Ht Hrt. apply in_app_iff in Ht as [Ht|[<-|[]]]; [by apply Hw|].
    right. simpl. destruct Hv as [H0 H1]; simpl in *.
    destruct (reconnect_delay_range (reconnectAttemptsRef (hook w) + 1) r);
      [lia|done|done|]. lia.
Qed.

Lemma reachable_attempts w : reachable w -> 0 <= reconnectAttemptsRef (hook w).
Proof.
  intros Hr. induction Hr as [|w occ Hr IH Hv]; [done|].
  unfold dispatch. destruct (Z.ltb _ _); [done|].
  enough (retry_window (at_time occ) (timers w)
            (deliver (oracle occ) (event occ) (set_clock (at_time occ) w)))
    as (_ & H & _) by done.
  eapply steps_keep; [apply prim_retry_window|by apply callbacks_are_steps|].
  repeat split; auto.
Qed.

(** X1. Timer ids are never reused while pending, and at most one timer of each
    kind other than the grace timer of [reconnect] is pending: one reconnect
    timer, one connection timeout, one ping interval, one mount timer. *)
Theorem one_timer_per_kind (w : World) (t1 t2 : Timer) :
  reachable w ->
  In t1 (timers w) -> In t2 (timers w) ->
  (tid t1 = tid t2 \/ (same_kind (act t1) (act t2) = true /\ act t1 <> GraceT)) ->
  t1 = t2.
Proof.
  intros Hr H1 H2 H.
  destruct (reachable_ids_ok w Hr) as (_ & Hd & _).
  apply (NoDup_tid_inj (timers w)); try done.
  destruct H as [E|[Hk Hg]]; [done|].
  destruct (reachable_Inv w Hr) as [_ Ht].
  pose proof (Ht t1 H1) as T1. pose proof (Ht t2 H2) as T2.
  unfold tracked in *.
  destruct (act t1), (act t2); try done; try congruence.
  destruct T1 as [_ T1], T2 as [_ T2]. congruence.
Qed.

(** X2. The only frames the hook ever sends are pings. *)
Theorem only_pings_sent (w : World) (s : Socket) (m : JValue) :
  reachable w -> In s (sockets w) -> In m (sent s) -> m = ping_frame.
Proof.
  intros Hr.
  assert (H : only_pings w).
  { revert w Hr. apply reachable_keep.
    - constructor.
    - intros t w' H. exact H.
    - apply prim_only_pings. }
  intros Hs Hm. unfold only_pings in H. rewrite List.Forall_forall in H.
  specialize (H s Hs). rewrite List.Forall_forall in H. by apply H.
Qed.

(** X3. The attempt counter is never negative, and whatever event arrives, a
    reconnect it schedules is due no sooner than 2 s and no later than 31 s
    after the event. *)
Theorem retry_delay_window (w : World) (occ : Occurrence) (t : Timer) :
  reachable w -> valid_oracle (oracle occ) -> clock w <= at_time occ ->
  let w' := dispatch occ w in
  0 <= reconnectAttemptsRef (hook w') /\
  (In t (timers w') -> is_reconnect t = true -> ~ In t (timers w) ->
   at_time occ + 2000 <= due t <= at_time occ + 31000).
Proof.
  intros Hr Hv Hc w'. subst w'. rewrite dispatch_on_time by done.
  assert (H : retry_window (at_time occ) (timers w)
            (deliver (oracle occ) (event occ) (set_clock (at_time occ) w))).
  { eapply steps_keep; [apply prim_retry_window|by apply callbacks_are_steps|].
    split; [reflexivity|]. split; [exact (reachable_attempts w Hr)|].
    intros t0 Ht0 _. by left. }
  destruct H as (_ & Hn & Hw). split; [done|].
  intros Ht Hrt Hnew. destruct (Hw t Ht Hrt); [done|lia].
Qed.

(** ** The two flags *)

Lemma prim_calm p w w' :
  prim p w w' -> p <> Cleaning ->
  isCleaningUpRef (hook w) = false -> isCleaningUpRef (hook w') = false.
Proof.
  destruct 1 as [p l m w|p f w Hf|p w|w|b w|p a d w Ha|p id w|p t w Ht
                |p r w Hv Hm Hc Hr|p i f w Hf|p w|p r w|p b w]; intros Hp Hi;
    try exact Hi; try done.
  - by destruct Hf.
  - unfold fire. by destruct (act t).
  - by rewrite scheduleReconnect_eq.
Qed.

Lemma prim_not_raised p w w' :
  prim p w w' -> p <> Opening ->
  isConnected (hook w') = true -> isConnected (hook w) = true.
Proof.
  destruct 1 as [p l m w|p f w Hf|p w|w|b w|p a d w Ha|p id w|p t w Ht
                |p r w Hv Hm Hc Hr|p i f w Hf|p w|p r w|p b w]; intros Hp Hi;
    try exact Hi; try done.
  - by destruct Hf.
  - unfold fire in Hi. by destruct (act t).
  - by rewrite scheduleReconnect_eq in Hi.
Qed.

Lemma steps_not_raised p w w' :
  steps p w w' -> p <> Opening ->
  isConnected (hook w') = true -> isConnected (hook w) = true.
Proof.
  intros Hs Hp. induction Hs as [|w1 w2 w3 Hs IH Hpr]; [done|].
  intros H. apply IH. by apply (prim_not_raised p w2 w3).
Qed.

Lemma deliver_not_raised o e w :
  valid_oracle o -> (forall i, e <> SockOpen i) ->
  isConnected (hook (deliver o e w)) = true -> isConnected (hook w) = true.
Proof.
  intros Hv He. apply (steps_not_raised (perm_of e)).
  - by apply callbacks_are_steps.
  - destruct e; try done. by destruct (He ws).
Qed.

Lemma cleanup_calm w : isCleaningUpRef (hook (cleanup true w)) = false.
Proof. destruct (cleanup_frame w) as (-> & _). reflexivity. Qed.

Lemma deliver_calm o e w :
  valid_oracle o ->
  isCleaningUpRef (hook w) = false ->
  isCleaningUpRef (hook (deliver o e w)) = false.
Proof.
  intros Hv Hc.
  assert (G : perm_of e <> Cleaning ->
              isCleaningUpRef (hook (deliver o e w)) = false).
  { intros E.
    eapply (steps_keep (perm_of e)
              (fun w => isCleaningUpRef (hook w) = false));
      [|by apply callbacks_are_steps|done].
    intros w1 w2 Hp. by apply (prim_calm _ _ _ Hp). }
  destruct e; try (by apply G); unfold deliver.
  - destruct (listeners w); [|done].
    rewrite effect_unmount_eq. apply cleanup_calm.
  - rewrite reconnect_eq, setTimeout_hook. apply cleanup_calm.
Qed.

Lemma run_not_raised tr w :
  Forall (fun occ => valid_oracle (oracle occ)) tr -> no_open tr ->
  isConnected (hook (run tr w)) = true -> isConnected (hook w) = true.
Proof.
  revert w. induction tr as [|occ tr IH]; intros w Hv Hn; [done|].
  inversion Hv; subst. inversion Hn; subst. simpl. intros H.
  apply IH in H; [|done|done].
  unfold dispatch in H. destruct (Z.ltb _ _); [done|].
  apply deliver_not_raised in H; [exact H|done|done].
Qed.


(** X4. Between events [isCleaningUpRef] is false: [cleanup] lowers the flag
    before it returns, so no callback ever finds it raised, and the tests
    of it in [connect], [scheduleReconnect], [ws.onclose] and the reconnect
    timer never decide anything. *)
Theorem cleaning_flag_never_seen (w : World) :
  reachable w -> isCleaningUpRef (hook w) = false.
Proof.
  induction 1 as [|w occ Hr IH Hv]; [reflexivity|].
  unfold dispatch. destruct (Z.ltb _ _); [exact IH|].
  apply deliver_calm; [exact Hv|]. exact IH.
Qed.

(** X5. [isConnected] goes from false to true only in [ws.onopen] of the current
    socket: the event is the open event of the socket [wsRef] holds, that
    socket was connecting with its handler attached, and afterwards it is
    open, the state is connected, the error is cleared and the attempt
    counter is 0. *)
Theorem connected_only_by_open (w : World) (occ : Occurrence) :
  valid_oracle (oracle occ) ->
  isConnected (hook w) = false ->
  isConnected (hook (dispatch occ w)) = true ->
  exists i s,
    event occ = SockOpen i /\ wsRef (hook w) = Some i /\
    sockets w !! i = Some s /\ readyState s = CONNECTING /\ onopen s = true /\
    let w' := dispatch occ w in
    state_of i w' = OPEN /\ connectionStateRef (hook w') = Connected /\
    error (hook w') = None /\ reconnectAttemptsRef (hook w') = 0.
Proof.
  intros Hv H0 H1. unfold dispatch in *.
  destruct (Z.ltb _ _); [congruence|].
  destruct (event occ) as [| | | v | | | id | i | i parsed | i | i code reason] eqn:Ee;
    try (apply deliver_not_raised in H1; [simpl in H1; congruence|done|done]).
  unfold deliver in *. simpl sockets in *.
  destruct (sockets w !! i) as [s|] eqn:El; [|simpl in H1; congruence].
  destruct (readyState s) eqn:Es; try (simpl in H1; congruence).
  cbv zeta in *.
  destruct (onopen s) eqn:Eo; [|simpl in H1; congruence].
  destruct (decide (wsRef (hook w) = Some i)) as [E|E].
  - exists i, s. repeat split; try done.
    all: rewrite ws_onopen_eq by done; rewrite startPingInterval_eq; simpl; try done.
    unfold state_of; simpl. rewrite list_lookup_alter, El. simpl. by rewrite decide_True.
  - unfold ws_onopen in H1. rewrite stale_guard in H1 by done.
    simpl in H1. congruence.
Qed.

(** X6. After an offline event the hook reports disconnected until a socket
    opens: neither frames on the socket that is still open nor the online
    event raise [isConnected] again. *)
Theorem offline_until_reopen (w : World) (t : Z) (o : Oracle) (tr : list Occurrence) :
  listeners w = true -> clock w <= t ->
  Forall (fun occ => valid_oracle (oracle occ)) tr -> no_open tr ->
  isConnected (hook (run (mkOcc t Offline o :: tr) w)) = false.
Proof.
  intros Hl Hc Hv Hn.
  destruct (isConnected (hook (run _ w))) eqn:E; [|done].
  simpl in E. apply run_not_raised in E; [|done|done].
  rewrite dispatch_on_time in E by done. simpl in E. by rewrite Hl in E.
Qed.

(** ** Scenarios *)

Lemma find_last l t :
  (forall x, In x l -> tid x <> tid t) ->
  List.find (fun x => Nat.eqb (tid x) (tid t)) (l ++ [t]) = Some t.
Proof.
  induction l as [|a l IH]; simpl; intros H.
  - by rewrite Nat.eqb_refl.
  - destruct (Nat.eqb_spec (tid a) (tid t)) as [E|E].
    + by destruct (H a); [left|].
    + apply IH. intros x Hx. apply H. by right.
Qed.

Lemma filter_last l t :
  (forall x, In x l -> tid x <> tid t) ->
  List.filter (fun x => negb (Nat.eqb (tid x) (tid t))) (l ++ [t]) = l.
Proof.
  induction l as [|a l IH]; simpl; intros H.
  - by rewrite Nat.eqb_refl.
  - destruct (Nat.eqb_spec (tid a) (tid t)) as [E|E]; simpl.
    + by destruct (H a); [left|].
    + f_equal. apply IH. intros x Hx. apply H. by right.
Qed.

(** The newest timer fires, and it is a timeout. *)
Lemma dispatch_fire_last o t' w l t :
  timers w = (l ++ [t])%list -> (forall x, In x l -> tid x <> tid t) ->
  act t <> PingT -> due t <= t' -> clock w <= t' ->
  dispatch (mkOcc t' (TimerFire (tid t)) o) w =
  timer_callback o (act t) (set_timers l (set_clock t' w)).
Proof.
  intros Et Hl Ha Hd Hc. rewrite dispatch_on_time by done.
  unfold deliver; simpl. rewrite Et, find_last by done.
  destruct (Z.leb_spec (due t) t'); [|lia].
  f_equal. unfold fire; simpl. rewrite Et, filter_last by done.
  by destruct (act t).
Qed.

(** [connect] on a mounted session that holds no socket, when the
    constructor does not throw. *)
Lemma connect_new o w :
  isMountedRef (hook w) = true -> isCleaningUpRef (hook w) = false ->
  wsRef (hook w) = None -> ctorThrows o = false ->
  connect o w =
  mkWorld
    (set_connectionTimeoutRef (Some (nextTimer w))
       (set_wsRef (Some (length (sockets w)))
          (setError (Some "Connecting...")
             (set_connectionStateRef Connecting (clear_refs (hook w))))))
    (sockets w ++ [fresh_socket])
    (drop (pingIntervalRef (hook w))
       (drop (connectionTimeoutRef (hook w))
          (drop (reconnectTimeoutRef (hook w)) (timers w)))
     ++ [mkTimer (nextTimer w) (clock w + CONNECTION_TIMEOUT)
           (ConnTimeoutT (length (sockets w)))])
    (S (nextTimer w)) (clock w) (connectTimeout w) (listeners w)
    (console w ++ [(LLog, "Connecting to WebSocket:")]).
Proof.
  intros Hm Hc Hw Ho. unfold connect. rewrite Hm, Hc, Hw, Ho. simpl.
  rewrite clearTimers_eq. reflexivity.
Qed.

Lemma no_pending_if_unset w :
  timers_ok w -> reconnectTimeoutRef (hook w) = None -> pending_reconnects w = [].
Proof.
  intros Ht Hr. apply filter_none. intros t Hin.
  specialize (Ht t Hin). unfold tracked, is_reconnect in *.
  destruct (act t); try done. congruence.
Qed.

Lemma reachable_dispatch occ w :
  reachable w -> valid_oracle (oracle occ) -> reachable (dispatch occ w).
Proof. intros. by constructor. Qed.

(** X7. [reconnect()] on a mounted session: at once the session holds no
    socket, every socket created so far is let go of, the attempt counter
    is 0 and no reconnect is pending.  If its 100 ms timer is the next
    event to arrive and the constructor does not throw, one new socket is
    created when it fires and is the current one, connecting, still with
    counter 0 and no reconnect pending. *)
Theorem manual_reconnect_restarts (w : World) (t1 t2 : Z) (o1 o2 : Oracle) :
  reachable w -> isMountedRef (hook w) = true ->
  valid_oracle o1 -> valid_oracle o2 -> ctorThrows o2 = false ->
  clock w <= t1 -> t1 + 100 <= t2 ->
  let w1 := dispatch (mkOcc t1 ManualReconnect o1) w in
  let w2 := dispatch (mkOcc t2 (TimerFire (nextTimer w)) o2) w1 in
  (wsRef (hook w1) = None /\ reconnectAttemptsRef (hook w1) = 0 /\
   pending_reconnects w1 = [] /\
   (forall s, In s (sockets w1) -> dead s = true)) /\
  (wsRef (hook w2) = Some (length (sockets w)) /\
   sockets w2 = (sockets w1 ++ [fresh_socket])%list /\
   length (sockets w1) = length (sockets w) /\
   reconnectAttemptsRef (hook w2) = 0 /\
   connectionStateRef (hook w2) = Connecting /\
   pending_reconnects w2 = []).
Proof.
  intros Hr Hm Hv1 Hv2 Ho Hc1 Hc2 w1 w2.
  assert (R1 : reachable w1) by (by apply reachable_dispatch).
  pose proof (reachable_Inv _ R1) as [S1 T1].
  pose proof (reachable_ids_ok _ Hr) as (_ & _ & Hlt).
  subst w2. clear R1. revert S1 T1. subst w1.
  rewrite dispatch_on_time by (simpl; lia).
  cbn [event oracle at_time].
  change (deliver o1 ManualReconnect (set_clock t1 w))
    with (reconnect (set_clock t1 w)).
  rewrite reconnect_eq.
  match goal with |- context [cleanup true ?W0] =>
    destruct (cleanup_frame W0) as (Eh & Et & En & Ek & _ & _ & _ & El & _);
    revert Eh Et En Ek El; generalize (cleanup true W0)
  end.
  intros C Eh Et En Ek El S1 T1. simpl in Eh, Et, En, Ek, El.
  assert (Hfresh : forall x, In x (timers C) -> tid x <> nextTimer w).
  { intros x Hx. rewrite Et, !In_drop in Hx. destruct Hx as [[[Hx _] _] _].
    specialize (Hlt x Hx). lia. }
  assert (P1 : pending_reconnects (setTimeout GraceT 100 C) = []).
  { apply no_pending_if_unset; [done|]. by rewrite setTimeout_hook, Eh. }
  assert (PC : List.filter is_reconnect (timers C) = []).
  { unfold pending_reconnects in P1. cbn [timers setTimeout] in P1.
    rewrite List.filter_app in P1. by apply app_eq_nil in P1 as [? _]. }
  assert (D1 : forall s, In s (sockets C) -> dead s = true).
  { apply stale_list_all_dead. unfold stale_ok in S1.
    rewrite setTimeout_hook, Eh in S1. exact S1. }
  clear S1 T1.
  pose proof (dispatch_fire_last o2 t2 (setTimeout GraceT 100 C) (timers C)
                (mkTimer (nextTimer w) (t1 + 100) GraceT)) as DF.
  cbn [tid due act] in DF.
  rewrite DF;
    [|cbn [timers setTimeout]; by rewrite En, Ek|done|done|lia
     |cbn [clock setTimeout]; lia].
  clear DF.
  unfold timer_callback.
  cbn [hook sockets timers nextTimer clock connectTimeout listeners console
       set_timers set_clock setTimeout].
  rewrite Eh. cbn [isMountedRef set_isCleaningUpRef set_connectionStateRef
                   set_wsRef clear_refs set_pingIntervalRef
                   set_connectionTimeoutRef set_reconnectTimeoutRef
                   set_reconnectAttemptsRef].
  rewrite Hm.
  rewrite connect_new; [|by simpl; rewrite ?Eh..|done].
  simpl. rewrite El, Eh. simpl.
  split; [by repeat split|].
  repeat split; try done.
  unfold pending_reconnects. simpl.
  rewrite List.filter_app. simpl. unfold drop. by rewrite PC.
Qed.

(** Mounting and unmounting a stopped session before the 50 ms timer fires
    gives the stopped session back: same refs and state, same sockets, same
    timers; only the clock, the console and the id counter moved. *)
Lemma mount_unmount_stopped w t1 t2 o1 o2 :
  reachable w -> stopped w -> clock w <= t1 <= t2 ->
  let w2 := run [mkOcc t1 Mount o1; mkOcc t2 Unmount o2] w in
  hook w2 = hook w /\ sockets w2 = sockets w /\ timers w2 = timers w /\
  nextTimer w2 = S (nextTimer w) /\ clock w2 = t2 /\ listeners w2 = false.
Proof.
  intros Hr Hs [Hc1 Hc2] w2. subst w2.
  pose proof (reachable_ids_ok _ Hr) as (_ & _ & Hlt).
  pose proof Hs as (Hm & _ & _ & _ & _ & _ & _ & Hl & _ & _).
  set (W := mkWorld (hook w) (sockets w) (timers w) (S (nextTimer w)) t2
              (Some (nextTimer w)) false
              (console w ++ [(LLog, "WebSocket hook unmounting")])%list).
  assert (E : run [mkOcc t1 Mount o1; mkOcc t2 Unmount o2] w = cleanup true W).
  { unfold run. rewrite (dispatch_on_time _ w) by (simpl; lia).
    unfold deliver. cbn [event oracle at_time]. simpl listeners. rewrite Hl.
    rewrite dispatch_on_time by (simpl; lia).
    unfold deliver. cbn [event oracle at_time]. simpl listeners.
    rewrite effect_unmount_eq.
    unfold effect_mount.
    cbn [set_listeners upd_hook set_connectTimeout setTimeout set_clock
         hook sockets timers nextTimer clock connectTimeout listeners console].
    assert (Eid : forall h, isMountedRef h = false ->
              set_isMountedRef false (set_isMountedRef true h) = h)
      by (intros h; destruct h; simpl; by intros ->).
    rewrite Eid by done.
    change (drop (Some (nextTimer w))
              (timers w ++ [mkTimer (nextTimer w) (t1 + 50) MountT])%list)
      with (List.filter (fun x => negb (Nat.eqb (tid x)
               (tid (mkTimer (nextTimer w) (t1 + 50) MountT))))
              (timers w ++ [mkTimer (nextTimer w) (t1 + 50) MountT])).
    rewrite filter_last
      by (intros x Hx; specialize (Hlt x Hx); simpl; lia).
    reflexivity. }
  rewrite E.
  assert (S0 : stopped W) by (by apply (stopped_same w)).
  destruct (cleanup_stopped W S0) as (Eh & Es & Et).
  destruct (cleanup_frame W) as (_ & _ & En & Ek & _ & El & _).
  rewrite Eh, Es, Et, En, Ek, El. by repeat split.
Qed.

(** X8. React StrictMode mounts, unmounts and mounts again, on a stopped
    session and with no other event in between.  The unmount cancels the
    first 50 ms timer, so the only mount timer left is the second one and
    no socket was created meanwhile.  If that timer is the next event to
    arrive and the constructor does not throw, exactly one socket is
    created when it fires and becomes the current one. *)
Theorem strict_mode_double_mount (w : World) (t1 t2 t3 t4 : Z) (o1 o2 o3 o4 : Oracle) :
  reachable w -> stopped w ->
  clock w <= t1 -> t1 <= t2 -> t2 <= t3 -> t3 + 50 <= t4 ->
  ctorThrows o4 = false ->
  let m := nextTimer w in
  let w3 := run [mkOcc t1 Mount o1; mkOcc t2 Unmount o2; mkOcc t3 Mount o3] w in
  let w4 := dispatch (mkOcc t4 (TimerFire (S m)) o4) w3 in
  (sockets w3 = sockets w /\
   forall x, In x (timers w3) -> act x = MountT ->
             x = mkTimer (S m) (t3 + 50) MountT) /\
  (sockets w4 = (sockets w ++ [fresh_socket])%list /\
   wsRef (hook w4) = Some (length (sockets w)) /\
   connectionStateRef (hook w4) = Connecting /\
   forall x, In x (timers w4) -> act x <> MountT).
Proof.
  intros Hr Hs Hc1 Hc2 Hc3 Hc4 Ho m w3 w4.
  pose proof (reachable_ids_ok _ Hr) as (_ & _ & Hlt).
  pose proof Hs as (Hm & Hf & Hw & Hrr & Hcr & Hpr & _ & Hl & _ & Hg).
  destruct (mount_unmount_stopped w t1 t2 o1 o2 Hr Hs (conj Hc1 Hc2))
    as (Eh & Es & Et & En & Ek & El).
  subst w4 w3.
  change (run [mkOcc t1 Mount o1; mkOcc t2 Unmount o2; mkOcc t3 Mount o3] w)
    with (dispatch (mkOcc t3 Mount o3)
            (run [mkOcc t1 Mount o1; mkOcc t2 Unmount o2] w)).
  generalize dependent (run [mkOcc t1 Mount o1; mkOcc t2 Unmount o2] w).
  intros w2 Eh Es Et En Ek El.
  assert (E3 : dispatch (mkOcc t3 Mount o3) w2 = effect_mount (set_clock t3 w2)).
  { rewrite dispatch_on_time by (simpl; lia).
    unfold deliver. cbn [event oracle at_time]. simpl listeners. by rewrite El. }
  rewrite E3. clear E3.
  assert (T3 : timers (effect_mount (set_clock t3 w2)) =
               (timers w ++ [mkTimer (S m) (t3 + 50) MountT])%list).
  { simpl. by rewrite Et, En. }
  assert (H3 : hook (effect_mount (set_clock t3 w2)) =
               set_isMountedRef true (hook w)) by (simpl; by rewrite Eh).
  assert (S3 : sockets (effect_mount (set_clock t3 w2)) = sockets w)
    by (simpl; by rewrite Es).
  assert (K3 : clock (effect_mount (set_clock t3 w2)) = t3) by reflexivity.
  assert (N3 : nextTimer (effect_mount (set_clock t3 w2)) = S (S m))
    by (simpl; by rewrite En).
  generalize dependent (effect_mount (set_clock t3 w2)).
  intros w3 T3 H3 S3 K3 N3.
  split.
  - split; [done|]. intros x Hx Hax. rewrite T3 in Hx.
    apply in_app_iff in Hx as [Hx|[<-|[]]]; [|done].
    specialize (Hg x Hx). congruence.
  - pose proof (dispatch_fire_last o4 t4 w3 (timers w)
                  (mkTimer (S m) (t3 + 50) MountT)) as DF.
    cbn [tid due act] in DF.
    rewrite DF;
      [|done|intros x Hx; specialize (Hlt x Hx); subst m; lia|done|lia|lia].
    unfold timer_callback. simpl hook. rewrite H3. simpl isMountedRef.
    rewrite connect_new; [|by simpl; rewrite H3..|done].
    simpl. rewrite H3, S3. simpl. rewrite Hrr, Hcr, Hpr.
    repeat split; try done.
    intros x Hx. apply in_app_iff in Hx as [Hx|[<-|[]]]; [|done].
    unfold drop in Hx. specialize (Hg x Hx). congruence.
Qed.

(** X9. The interval fires: nothing but the table entry and, on an open current
    socket, one more ping. *)
Theorem ping_keepalive (w : World) (t' : Z) (o : Oracle) (p : Timer) :
  reachable w -> In p (timers w) -> act p = PingT ->
  due p <= t' -> clock w <= t' ->
  let w' := dispatch (mkOcc t' (TimerFire (tid p)) o) w in
  hook w' = hook w /\
  In (mkTimer (tid p) (t' + PING_INTERVAL) PingT) (timers w') /\
  match wsRef (hook w) with
  | Some i =>
      if bool_decide (state_of i w = OPEN) then
        sockets w' = alter (ws_send ping_frame) i (sockets w)
      else sockets w' = sockets w
  | None => sockets w' = sockets w
  end.
Proof.
  intros Hr Hp Ha Hd Hc w'. subst w'.
  rewrite dispatch_on_time by (simpl; lia).
  unfold deliver. cbn [event oracle at_time]. simpl timers.
  destruct (List.find _ (timers w)) as [q|] eqn:Ef.
  2:{ exfalso. apply (find_none _ _ Ef) in Hp. by rewrite Nat.eqb_refl in Hp. }
  apply find_some in Ef as [Hq Eq]. apply Nat.eqb_eq in Eq.
  assert (q = p) as ->.
  { destruct (reachable_ids_ok w Hr) as (_ & Hn & _).
    by apply (NoDup_tid_inj (timers w)). }
  simpl clock. destruct (Z.leb_spec (due p) t'); [|lia].
  rewrite Ha. unfold timer_callback, fire, ping_tick. rewrite Ha.
  simpl. destruct (wsRef (hook w)) as [i|]; simpl.
  - change (state_of i _) with (state_of i w).
    destruct (state_of i w); simpl; repeat split; try done;
      apply in_app_iff; right; by left.
  - repeat split; try done. apply in_app_iff; right; by left.
Qed.




(** ** The socket URL and the highlighted columns *)

Lemma prefix_spec sub s :
  String.prefix sub s = true <-> exists b, s = sub +:+ b.
Proof.
  revert s. induction sub as [|c sub IH]; intros s; simpl.
  - destruct s; simpl; (split; [intros _; by eexists|done]).
  - destruct s as [|d s]; [split; [done|by intros [b ?]]|].
    simpl. destruct (Ascii.ascii_dec c d) as [->|Hne].
    + rewrite IH. split; intros [b E]; exists b; [by rewrite E|by injection E].
    + split; [done|]. intros [b E]. injection E as ? ?. by subst.
Qed.

Lemma includes_nil sub : includes "" sub = String.prefix sub "".
Proof. unfold includes. by destruct (String.prefix sub ""). Qed.

Lemma includes_cons c s sub :
  includes (String c s) sub =
  if String.prefix sub (String c s) then true else includes s sub.
Proof. reflexivity. Qed.

Lemma includes_spec s sub :
  includes s sub = true <-> exists a b, s = a +:+ sub +:+ b.
Proof.
  induction s as [|c s IH].
  - rewrite includes_nil, prefix_spec. split.
    + intros [b E]. by exists "", b.
    + intros (a & b & E). destruct a; simpl in E; [by exists b|done].
  - rewrite includes_cons.
    destruct (String.prefix sub (String c s)) eqn:E.
    + apply prefix_spec in E as [b E]. split; [intros _|intros _; reflexivity].
      by exists "", b.
    + rewrite IH. split.
      * intros (a & b & ->). by exists (String c a), b.
      * intros (a & b & E'). destruct a as [|c' a]; simpl in E'.
        -- assert (String.prefix sub (String c s) = true)
             by (apply prefix_spec; by exists b).
           congruence.
        -- injection E' as _ ->. by exists a, b.
Qed.

(** X12. A page whose host contains "localhost" or "127.0.0.1" anywhere (a port
    suffix, a subdomain such as app.localhost.example.com) gets the
    development socket, whatever its protocol; every other page gets
    //host/ws with the scheme wss: exactly when the page is served over
    https:. *)
Theorem getWebSocketURL_spec (protocol host : string) :
  ((exists a b, host = a +:+ "localhost" +:+ b) \/
   (exists a b, host = a +:+ "127.0.0.1" +:+ b) ->
   getWebSocketURL protocol host = "ws://localhost:8765") /\
  (~ (exists a b, host = a +:+ "localhost" +:+ b) ->
   ~ (exists a b, host = a +:+ "127.0.0.1" +:+ b) ->
   (protocol = "https:" -> getWebSocketURL protocol host = "wss://" +:+ host +:+ "/ws") /\
   (protocol <> "https:" -> getWebSocketURL protocol host = "ws://" +:+ host +:+ "/ws")).
Proof.
  unfold getWebSocketURL. split.
  - intros [H|H]; apply includes_spec in H; rewrite H; [done|by rewrite orb_true_r].
  - intros H1 H2.
    destruct (includes host "localhost") eqn:E1; [by apply includes_spec in E1|].
    destruct (includes host "127.0.0.1") eqn:E2; [by apply includes_spec in E2|].
    simpl. split.
    + by intros ->.
    + intros Hp. by destruct (String.eqb_spec protocol "https:").
Qed.

Lemma direction_up (oldVal newVal : option JValue) :
  direction oldVal newVal = Some Up <->
  exists o n, oldVal = Some (JNum o) /\ newVal = Some (JNum n) /\ (o < n)%Q.
Proof.
  split.
  - destruct oldVal as [[| |o| | |]|], newVal as [[| |n| | |]|]; try done.
    unfold direction. intros H. exists o, n. split; [done|]. split; [done|].
    destruct (Qle_bool n o) eqn:E; simpl in H.
    + by destruct (Qle_bool o n).
    + apply Qnot_le_lt. intros H'. apply Qle_bool_iff in H'. congruence.
  - intros (o & n & -> & -> & H). unfold direction.
    destruct (Qle_bool n o) eqn:E; [|done].
    apply Qle_bool_iff in E. lra.
Qed.

Lemma direction_down (oldVal newVal : option JValue) :
  direction oldVal newVal = Some Down <->
  exists o n, oldVal = Some (JNum o) /\ newVal = Some (JNum n) /\ (n < o)%Q.
Proof.
  split.
  - destruct oldVal as [[| |o| | |]|], newVal as [[| |n| | |]|]; try done.
    unfold direction. intros H. exists o, n. split; [done|]. split; [done|].
    destruct (Qle_bool n o) eqn:E; simpl in H; [|done].
    destruct (Qle_bool o n) eqn:E'; simpl in H; [done|].
    apply Qnot_le_lt. intros H'. apply Qle_bool_iff in H'. congruence.
  - intros (o & n & -> & -> & H). unfold direction.
    destruct (Qle_bool n o) eqn:E; simpl.
    + destruct (Qle_bool o n) eqn:E'; [|done].
      apply Qle_bool_iff in E'. lra.
    + assert (Qle_bool n o = true) by (apply Qle_bool_iff; lra). congruence.
Qed.

Lemma strict_eq_spec (a b : option JValue) :
  strict_eq a b = true <->
  (a = None /\ b = None) \/
  (a = Some JNull /\ b = Some JNull) \/
  (exists x, a = Some (JBool x) /\ b = Some (JBool x)) \/
  (exists x y, a = Some (JNum x) /\ b = Some (JNum y) /\ (x == y)%Q) \/
  (exists x, a = Some (JStr x) /\ b = Some (JStr x)).
Proof.
  split.
  - destruct a as [[|x|x|x|x|x]|], b as [[|y|y|y|y|y]|]; simpl; try done; intros H.
    + tauto.
    + right. right. left. exists x. apply eqb_prop in H. by subst.
    + right. right. right. left. exists x, y. by apply Qeq_bool_iff in H.
    + right. right. right. right. exists x. apply String.eqb_eq in H. by subst.
    + tauto.
  - intros [[-> ->]|[[-> ->]|[(x & -> & ->)|[(x & y & -> & -> & H)|(x & -> & ->)]]]];
      simpl; try done.
    + by destruct x.
    + by apply Qeq_bool_iff.
    + apply String.eqb_refl.
Qed.

(** X13. The highlighted columns are listed in the fixed column order, each
    at most once.  A column is highlighted exactly when its new value is
    not strictly equal to the old one: not both absent, both null, the
    same boolean, the same number or the same string.  A highlighted
    column carries an up arrow exactly when both values are numbers and
    the number grew, a down arrow exactly when both are numbers and it
    shrank, and no arrow otherwise.  With no previous snapshot nothing is
    highlighted. *)
Theorem changed_cols_spec (p latest : JValue) :
  changed_cols None latest = [] /\
  sublist (col <$> changed_cols (Some p) latest) columns /\
  (forall c ch, In (mkItem c ch) (changed_cols (Some p) latest) <->
     In c columns /\
     ~ ((prop c latest = None /\ prop c p = None) \/
        (prop c latest = Some JNull /\ prop c p = Some JNull) \/
        (exists x, prop c latest = Some (JBool x) /\ prop c p = Some (JBool x)) \/
        (exists x y, prop c latest = Some (JNum x) /\ prop c p = Some (JNum y) /\
                     (x == y)%Q) \/
        (exists x, prop c latest = Some (JStr x) /\ prop c p = Some (JStr x))) /\
     (ch = Some Up <->
      exists o n, prop c p = Some (JNum o) /\ prop c latest = Some (JNum n) /\
                  (o < n)%Q) /\
     (ch = Some Down <->
      exists o n, prop c p = Some (JNum o) /\ prop c latest = Some (JNum n) /\
                  (n < o)%Q)).
Proof.
  split; [done|]. split.
  - unfold changed_cols. generalize columns. intros l.
    induction l as [|c l IH]; simpl; [constructor|].
    destruct (strict_eq _ _); simpl; [by apply sublist_cons|by apply sublist_skip].
  - intros c ch.
    rewrite <- strict_eq_spec, <- direction_up, <- direction_down.
    assert (D : (ch = Some Up <-> direction (prop c p) (prop c latest) = Some Up) /\
                (ch = Some Down <-> direction (prop c p) (prop c latest) = Some Down)
                <-> ch = direction (prop c p) (prop c latest)).
    { split; [|by intros ->].
      intros [[U1 U2] [D1 D2]].
      destruct ch as [[|]|].
      - symmetry. by apply U1.
      - symmetry. by apply D1.
      - destruct (direction _ _) as [[|]|]; [| |done].
        + by discriminate U2.
        + by discriminate D2. }
    rewrite D. clear D.
    assert (N : forall b : bool, ~ b = true <-> b = false)
      by (intros []; split; congruence).
    rewrite N. clear N.
    unfold changed_cols. generalize columns. intros l.
    induction l as [|c' l IH]; simpl; [naive_solver|].
    destruct (strict_eq (prop c' latest) (prop c' p)) eqn:E; simpl.
    + rewrite IH. split; [naive_solver|].
      intros ([->|H] & H2 & H3); [congruence|done].
    + rewrite IH. split.
      * intros [[= -> ->]|H]; naive_solver.
      * intros ([->|H] & H2 & ->); [by left|by right].
Qed.

(** ** Drag and drop *)

Lemma splice_out_in_range from l x :
  l !! from = Some x ->
  splice_out from l = (x, (take from l ++ skipn (S from) l)%list) /\
  l = (take from l ++ x :: skipn (S from) l)%list.
Proof.
  intros H. unfold splice_out. rewrite H. split; [done|].
  rewrite <- (take_drop_middle l from x) at 1 by done. done.
Qed.

(** X14. Dropping a card that was picked up at a valid position moves it: the
    cards are the same ones (a permutation, so no card is lost or
    duplicated), and none is added. *)
Theorem handleDrop_permutes (index from : nat) (c : Cards) :
  draggedFrom c = Some from ->
  (from < length (activeIndicators c))%nat ->
  activeIndicators (handleDrop index c) ≡ₚ activeIndicators c /\
  length (activeIndicators (handleDrop index c)) = length (activeIndicators c) /\
  (NoDup (activeIndicators c) -> NoDup (activeIndicators (handleDrop index c))) /\
  draggedFrom (handleDrop index c) = None.
Proof.
  intros Hd Hlt. unfold handleDrop. rewrite Hd.
  destruct (lookup_lt_is_Some_2 _ _ Hlt) as [x Hx].
  destruct (splice_out_in_range from _ x Hx) as [-> E]. simpl.
  assert (P : splice_in index x (take from (activeIndicators c) ++
                                 skipn (S from) (activeIndicators c))%list
              ≡ₚ activeIndicators c).
  { unfold splice_in. rewrite <- Permutation_middle.
    rewrite take_drop. rewrite E at 3. by rewrite <- Permutation_middle. }
  split; [exact P|]. split; [by rewrite P|]. split; [|done].
  intros Hn. by rewrite P.
Qed.

(** X15. The moved card lands at the drop position, whichever position of the
    list that is. *)
Theorem handleDrop_position (index from : nat) (c : Cards) (x : Slot) :
  draggedFrom c = Some from ->
  activeIndicators c !! from = Some x ->
  (index < length (activeIndicators c))%nat ->
  activeIndicators (handleDrop index c) !! index = Some x.
Proof.
  intros Hd Hx Hlt. unfold handleDrop. rewrite Hd.
  destruct (splice_out_in_range from _ x Hx) as [-> E]. simpl.
  unfold splice_in.
  assert (Hlen : length (take from (activeIndicators c) ++ skipn (S from) (activeIndicators c))%list
                 = (length (activeIndicators c) - 1)%nat).
  { apply lookup_lt_Some in Hx. rewrite length_app, length_take, length_drop. lia. }
  rewrite lookup_app_r; rewrite length_take, Hlen; [|lia].
  replace (index - index `min` (length (activeIndicators c) - 1))%nat with 0%nat by lia.
  done.
Qed.

(** X16. Dropping a card on its own position changes nothing. *)
Theorem handleDrop_same_place (index : nat) (c : Cards) :
  draggedFrom c = Some index ->
  (index < length (activeIndicators c))%nat ->
  activeIndicators (handleDrop index c) = activeIndicators c.
Proof.
  intros Hd Hlt. unfold handleDrop. rewrite Hd.
  destruct (lookup_lt_is_Some_2 _ _ Hlt) as [x Hx].
  destruct (splice_out_in_range index _ x Hx) as [-> E]. simpl.
  unfold splice_in.
  rewrite take_app_le by (rewrite length_take; lia).
  rewrite take_take, Nat.min_id.
  rewrite drop_app_ge by (rewrite length_take; lia).
  rewrite length_take.
  replace (index - index `min` length (activeIndicators c))%nat with 0%nat by lia.
  change (skipn 0 (skipn (S index) (activeIndicators c)))
    with (skipn (S index) (activeIndicators c)). by rewrite <- E.
Qed.

(** X17. A drop with a stale pick-up position (past the end of the list) removes
    nothing and inserts [undefined]: the list grows by one. *)
Theorem handleDrop_stale (index from : nat) (c : Cards) :
  draggedFrom c = Some from ->
  (length (activeIndicators c) <= from)%nat ->
  activeIndicators (handleDrop index c) =
    (take index (activeIndicators c) ++ None :: skipn index (activeIndicators c))%list /\
  length (activeIndicators (handleDrop index c)) = S (length (activeIndicators c)).
Proof.
  intros Hd Hge. unfold handleDrop. rewrite Hd. unfold splice_out.
  rewrite lookup_ge_None_2 by done. simpl.
  rewrite take_ge by done. rewrite drop_ge by lia. rewrite app_nil_r.
  unfold splice_in. split; [done|].
  rewrite length_app. simpl. rewrite length_take, length_drop. lia.
Qed.

(** ** The trade log *)

Lemma distinct_neighbours_take n l :
  distinct_neighbours l -> distinct_neighbours (take n l).
Proof.
  revert n. induction l as [|a l IH]; intros [|n] H; simpl; try done.
  destruct l as [|b l]; [by destruct n|].
  destruct H as [Hab H]. specialize (IH n H).
  destruct n as [|n]; simpl in *; [done|]. by split.
Qed.

Lemma tradeHistory_update_ok t prev :
  (length prev <= 20)%nat -> distinct_neighbours prev ->
  (length (tradeHistory_update t prev) <= 20)%nat /\
  distinct_neighbours (tradeHistory_update t prev).
Proof.
  intros Hl Hd. unfold tradeHistory_update.
  destruct prev as [|first rest].
  - simpl. split; [lia|done].
  - destruct (String.eqb_spec (timestamp first) (timestamp t)) as [E|E]; simpl negb; cbv iota.
    + by split.
    + split; [rewrite length_take; lia|].
      apply distinct_neighbours_take. simpl. split; [congruence|done].
Qed.

(** X18. The trade log never holds more than 20 entries, and no two neighbouring
    entries carry the same timestamp, whatever snapshots arrive. *)
Theorem trade_log_bounded (events : list (string * JValue)) :
  (length (trades_after events) <= 20)%nat /\
  distinct_neighbours (trades_after events).
Proof.
  unfold trades_after.
  assert (G : forall acc, (length acc <= 20)%nat -> distinct_neighbours acc ->
    (length (fold_left (fun acc e => track_trade (fst e) (snd e) acc) events acc) <= 20)%nat /\
    distinct_neighbours (fold_left (fun acc e => track_trade (fst e) (snd e) acc) events acc)).
  { induction events as [|e events IH]; intros acc Hl Hd; simpl; [by split|].
    apply IH; unfold track_trade; destruct (has_trade_signal _); try done;
      by apply tradeHistory_update_ok. }
  apply G; simpl; [lia|done].
Qed.

(** X19. A snapshot with a trade signal other than HOLD is logged at the head of
    the log, in front of the 19 most recent earlier entries, unless the head
    already carries the same wall-clock second: then the snapshot is not
    logged, whatever its signal. *)
Theorem trade_logged_newest_first (now : string) (latest : JValue) (prev : list TradeEntry) :
  has_trade_signal latest = true ->
  let entry := mkTrade now (default JNull (prop "trading_signal" latest))
                 (prop "close" latest) (prop "pnl_pct" latest) in
  (head (timestamp <$> prev) <> Some now ->
   track_trade now latest prev = entry :: take 19 prev) /\
  (head (timestamp <$> prev) = Some now ->
   track_trade now latest prev = prev).
Proof.
  intros Hs entry. unfold track_trade. rewrite Hs. fold entry.
  unfold tradeHistory_update. destruct prev as [|first rest]; simpl.
  - split; [done|discriminate].
  - destruct (String.eqb_spec (timestamp first) now) as [E|E]; simpl.
    + split; [by rewrite E|done].
    + split; [done|]. intros [= E']. done.
Qed.

(** ** The sparkline windows *)

Lemma slice_last_app_one {A} (l : list A) (x : A) :
  (slice_last 49 (slice_last 50 l) ++ [x])%list = slice_last 50 (l ++ [x]).
Proof.
  unfold slice_last. rewrite length_drop, length_app. simpl.
  rewrite drop_drop.
  rewrite drop_app_le by lia.
  f_equal. f_equal. lia.
Qed.

Lemma slice_last_short {A} n (l : list A) : (length l <= n)%nat -> slice_last n l = l.
Proof. intros H. unfold slice_last. by replace (length l - n)%nat with 0%nat by lia. Qed.

Lemma slice_last_length {A} n (l : list A) :
  length (slice_last n l) = (length l `min` n)%nat.
Proof. unfold slice_last. rewrite length_drop. lia. Qed.

(** X20. The sparkline window holds exactly the last 50 truthy values of its
    field, oldest first; a snapshot whose value is 0, null or missing
    leaves it as it is. *)
Theorem recent_window (field : string) (snapshots : list JValue) :
  recent_after field snapshots = slice_last 50 (truthy_values field snapshots) /\
  (length (recent_after field snapshots) <= 50)%nat.
Proof.
  assert (E : recent_after field snapshots = slice_last 50 (truthy_values field snapshots)).
  { unfold recent_after, truthy_values.
    induction snapshots as [|a l IH] using rev_ind; [done|].
    rewrite fold_left_app, omap_app. simpl. rewrite IH.
    unfold track_recent.
    destruct (prop field a) as [v|]; [destruct (truthy v)|]; simpl;
      rewrite ?app_nil_r; try done.
    unfold recent_update. apply slice_last_app_one. }
  split; [exact E|]. rewrite E, slice_last_length. lia.
Qed.

(** ** Instances of the further properties *)

Lemma pinged_world_reachable : reachable pinged_world.
Proof.
  apply reachable_run; [constructor|]. repeat constructor; apply valid_quiet.
Qed.

Lemma handleDrop_permutes_witness :
  activeIndicators (handleDrop 2 three_cards) ≡ₚ activeIndicators three_cards /\
  draggedFrom (handleDrop 2 three_cards) = None.
Proof.
  destruct (handleDrop_permutes 2 0 three_cards) as (H1 & _ & _ & H2).
  - vm_compute. reflexivity.
  - simpl. lia.
  - split; [exact H1|exact H2].
Defined.

Lemma handleDrop_position_witness :
  activeIndicators (handleDrop 2 three_cards) !! 2%nat = Some (Some "tf_mod").
Proof.
  apply (handleDrop_position 2 0 three_cards (Some "tf_mod")).
  - vm_compute. reflexivity.
  - vm_compute. reflexivity.
  - simpl. lia.
Defined.

Lemma handleDrop_same_place_witness :
  activeIndicators (handleDrop 0 three_cards) = activeIndicators three_cards.
Proof.
  apply (handleDrop_same_place 0 three_cards).
  - vm_compute. reflexivity.
  - simpl. lia.
Defined.

Lemma handleDrop_stale_witness :
  activeIndicators (handleDrop 0 stale_cards) = [None; Some "tf_mod"].
Proof.
  destruct (handleDrop_stale 0 2 stale_cards) as [H _].
  - vm_compute. reflexivity.
  - simpl. lia.
  - exact H.
Defined.

Lemma trade_logged_newest_first_witness :
  track_trade "12:00:01" buy_snapshot [] =
  [mkTrade "12:00:01" (JStr "BUY") (Some (JNum 100)) (Some (JNum 1))].
Proof.
  destruct (trade_logged_newest_first "12:00:01" buy_snapshot []) as [H _].
  - vm_compute. reflexivity.
  - apply H. discriminate.
Defined.

Lemma one_timer_per_kind_witness :
  In ping_timer (timers open_world) /\ ping_timer = ping_timer.
Proof.
  split; [vm_compute; left; reflexivity|].
  apply (one_timer_per_kind open_world ping_timer ping_timer).
  - apply open_world_reachable.
  - vm_compute. left. reflexivity.
  - vm_compute. left. reflexivity.
  - right. split; [reflexivity|vm_compute; discriminate].
Defined.

Lemma only_pings_sent_witness :
  In pinged_socket (sockets pinged_world) /\ ping_frame = ping_frame.
Proof.
  split; [vm_compute; left; reflexivity|].
  apply (only_pings_sent pinged_world pinged_socket ping_frame).
  - apply pinged_world_reachable.
  - vm_compute. left. reflexivity.
  - vm_compute. left. reflexivity.
Defined.

Lemma retry_delay_window_witness :
  let t := mkTimer 4 (100 + reconnect_delay 1 0) ReconnectT in
  100 + 2000 <= due t <= 100 + 31000.
Proof.
  intros t.
  destruct (retry_delay_window open_world (lost 100 0) t) as [_ H].
  - apply open_world_reachable.
  - apply valid_quiet.
  - vm_compute. discriminate.
  - apply H.
    + vm_compute. left. reflexivity.
    + reflexivity.
    + vm_compute. intros [E|[]]. discriminate E.
Defined.

Lemma cleaning_flag_never_seen_witness :
  isCleaningUpRef (hook pinged_world) = false.
Proof.
  apply (cleaning_flag_never_seen pinged_world). apply pinged_world_reachable.
Defined.

Lemma connected_only_by_open_witness :
  let occ := mkOcc 60 (SockOpen 0) quiet in
  exists i s,
    event occ = SockOpen i /\ wsRef (hook connecting_world) = Some i /\
    sockets connecting_world !! i = Some s /\ readyState s = CONNECTING /\
    onopen s = true /\
    state_of i (dispatch occ connecting_world) = OPEN /\
    connectionStateRef (hook (dispatch occ connecting_world)) = Connected /\
    error (hook (dispatch occ connecting_world)) = None /\
    reconnectAttemptsRef (hook (dispatch occ connecting_world)) = 0.
Proof.
  intros occ.
  apply (connected_only_by_open connecting_world occ).
  - apply valid_quiet.
  - vm_compute. reflexivity.
  - vm_compute. reflexivity.
Defined.

Lemma offline_until_reopen_witness :
  let tr := [mkOcc 80 (SockMessage 0 (Some data_frame)) quiet;
             mkOcc 90 Online quiet] in
  isConnected (hook (run (mkOcc 70 Offline quiet :: tr) open_world)) = false /\
  state_of 0 (run (mkOcc 70 Offline quiet :: tr) open_world) = OPEN /\
  data (hook (run (mkOcc 70 Offline quiet :: tr) open_world)) = Some buy_snapshot.
Proof.
  intros tr. split; [|split; vm_compute; reflexivity].
  apply (offline_until_reopen open_world 70 quiet tr).
  - vm_compute. reflexivity.
  - vm_compute. discriminate.
  - repeat constructor; apply valid_quiet.
  - repeat constructor; discriminate.
Defined.

Lemma manual_reconnect_restarts_witness :
  let w1 := dispatch (mkOcc 100 ManualReconnect quiet) open_world in
  let w2 := dispatch (mkOcc 200 (TimerFire 4) quiet) w1 in
  wsRef (hook w1) = None /\ wsRef (hook w2) = Some 1%nat /\
  sockets w2 = (sockets w1 ++ [fresh_socket])%list.
Proof.
  intros w1 w2.
  destruct (manual_reconnect_restarts open_world 100 200 quiet quiet)
    as ((H1 & _) & (H2 & H3 & _)).
  - apply open_world_reachable.
  - vm_compute. reflexivity.
  - apply valid_quiet.
  - apply valid_quiet.
  - vm_compute. reflexivity.
  - vm_compute. discriminate.
  - vm_compute. discriminate.
  - split; [exact H1|]. split; [exact H2|exact H3].
Defined.

Lemma strict_mode_double_mount_witness :
  let w3 := run [mkOcc 0 Mount quiet; mkOcc 0 Unmount quiet; mkOcc 0 Mount quiet] init in
  sockets w3 = [] /\
  sockets (dispatch (mkOcc 50 (TimerFire 2) quiet) w3) = [fresh_socket].
Proof.
  intros w3.
  destruct (strict_mode_double_mount init 0 0 0 50 quiet quiet quiet quiet)
    as ((H1 & _) & (H2 & _)).
  - constructor.
  - repeat split; intros x [].
  - vm_compute. discriminate.
  - vm_compute. discriminate.
  - vm_compute. discriminate.
  - vm_compute. discriminate.
  - reflexivity.
  - split; [exact H1|exact H2].
Defined.

Lemma ping_keepalive_witness :
  let w' := dispatch (mkOcc 25060 (TimerFire 3) quiet) open_world in
  hook w' = hook open_world /\
  In (mkTimer 3 (25060 + PING_INTERVAL) PingT) (timers w') /\
  sockets w' = alter (ws_send ping_frame) 0%nat (sockets open_world).
Proof.
  intros w'.
  destruct (ping_keepalive open_world 25060 quiet ping_timer) as (H1 & H2 & H3).
  - apply open_world_reachable.
  - vm_compute. left. reflexivity.
  - vm_compute. reflexivity.
  - vm_compute. discriminate.
  - vm_compute. discriminate.
  - split; [exact H1|]. split; [exact H2|exact H3].
Defined.



(** * The attempt counter along a run *)

Lemma connect_attempts o w :
  ctorThrows o = false -> attempts (connect o w) = attempts w.
Proof.
  intros Ho. unfold connect. rewrite Ho.
  destruct (_ || _); [done|].
  destruct (wsRef (hook w)) as [i|]; [destruct (state_of i w)|];
    try done; by rewrite clearTimers_eq.
Qed.

Lemma ws_onmessage_attempts ws p w : attempts (ws_onmessage ws p w) = attempts w.
Proof. unfold ws_onmessage. keep. Qed.

Lemma timer_callback_attempts o a w :
  match a with
  | ConnTimeoutT _ => False
  | PingT => True
  | _ => ctorThrows o = false
  end ->
  attempts (timer_callback o a w) = attempts w.
Proof.
  destruct a as [|ws| | |]; simpl; intros H; try done.
  - destruct (_ && _); [by apply connect_attempts|done].
  - unfold ping_tick. keep.
  - destruct (isMountedRef _); [by apply connect_attempts|done].
  - destruct (isMountedRef _); [by apply connect_attempts|done].
Qed.

Lemma fire_attempts t w : attempts (fire t w) = attempts w.
Proof. unfold fire. by destruct (act t). Qed.

(** A lost closure counts one attempt and arms the one reconnect timer. *)
Lemma loss_step occ w :
  reachable w -> clock w <= at_time occ ->
  is_loss w (event occ) = true ->
  let w' := dispatch occ w in
  let n := attempts w + 1 in
  attempts w' = n /\
  pending_reconnects w' =
    [mkTimer (nextTimer w) (at_time occ + reconnect_delay n (random (oracle occ)))
       ReconnectT].
Proof.
  intros Hr Ht Hl w' n. subst w' n.
  destruct (reachable_Inv w Hr) as [_ Htk].
  destruct (event occ) as [| | | v | | | id | i | i parsed | i | i code reason] eqn:Ee;
    try discriminate Hl.
  unfold is_loss in Hl.
  destruct (sockets w !! i) as [s|] eqn:Es;
    [|by rewrite andb_false_r in Hl].
  cbv iota beta in Hl. rewrite !andb_true_iff in Hl.
  destruct Hl as ((((Hw & Hc & Ho) & Hi) & Hm) & Hf).
  apply bool_decide_eq_true in Hw.
  apply negb_true_iff, bool_decide_eq_false in Hc.
  apply negb_true_iff in Hi. apply negb_true_iff in Hf.
  rewrite dispatch_on_time by done. rewrite Ee.
  rewrite (deliver_close _ i _ _ _ s) by done.
  rewrite ws_onclose_eq by done. simpl.
  rewrite Hm, Hf, Hi. simpl.
  rewrite scheduleReconnect_eq by done. simpl.
  unfold pending_reconnects; simpl. unfold drop at 1.
  rewrite List.filter_app, no_reconnect_after_clear by done.
  by repeat split.
Qed.

(** Any other event that neither times out nor throws leaves the counter,
    or sets it back to 0 if it is one of the events that reset. *)
Lemma quiet_step occ w :
  clock w <= at_time occ ->
  fails w occ = false -> is_loss w (event occ) = false ->
  let w' := dispatch occ w in
  (resets (event occ) = false -> attempts w' = attempts w) /\
  (attempts w' = attempts w \/ attempts w' = 0).
Proof.
  intros Ht Hf Hl w'. subst w'.
  rewrite dispatch_on_time by done.
  assert (G : forall b : bool,
    attempts (deliver (oracle occ) (event occ) (set_clock (at_time occ) w)) = attempts w \/
    (b = true /\ resets (event occ) = true /\
     attempts (deliver (oracle occ) (event occ) (set_clock (at_time occ) w)) = 0) ->
    (resets (event occ) = false ->
     attempts (deliver (oracle occ) (event occ) (set_clock (at_time occ) w)) = attempts w) /\
    (attempts (deliver (oracle occ) (event occ) (set_clock (at_time occ) w)) = attempts w \/
     attempts (deliver (oracle occ) (event occ) (set_clock (at_time occ) w)) = 0)).
  { intros b [E|(_ & Er & E)]; [by split; [|left]|].
    split; [congruence|by right]. }
  apply (G true). clear G.
  unfold fails in Hf.
  destruct (event occ) as [| | | v | | | id | i | i parsed | i | i code reason] eqn:Ee;
    unfold deliver; simpl listeners; simpl sockets; simpl timers; simpl clock.
  - left. by destruct (listeners w).
  - left. destruct (listeners w); [|done].
    rewrite effect_unmount_eq. by rewrite cleanup_attempts.
  - right. split; [done|]. split; [done|].
    rewrite reconnect_eq, setTimeout_hook. by rewrite cleanup_attempts.
  - destruct (listeners w); [|by left].
    unfold handleVisibilityChange. destruct v; [|by left].
    simpl. destruct (isMountedRef (hook w)); [|by left].
    match goal with |- context [if ?c then _ else _] => destruct c end;
      [|by left].
    right. split; [done|]. split; [done|]. by rewrite connect_attempts.
  - destruct (listeners w); [|by left].
    unfold handleOnline. simpl. destruct (isMountedRef (hook w)); [|by left].
    right. split; [done|]. split; [done|]. by rewrite connect_attempts.
  - left. by destruct (listeners w).
  - left. destruct (List.find _ (timers w)) as [t|]; [|done].
    destruct (Z.leb _ _); [|done].
    rewrite timer_callback_attempts, fire_attempts; [done|].
    by destruct (act t).
  - destruct (sockets w !! i) as [s|]; [|by left].
    destruct (readyState s); try by left.
    cbv zeta. destruct (onopen s); [|by left].
    destruct (decide (wsRef (hook w) = Some i)) as [E|E].
    + right. split; [done|]. split; [done|]. by apply ws_onopen_attempts.
    + left. by rewrite ws_onopen_stale.
  - left. destruct (sockets w !! i) as [s|]; [|done].
    destruct (readyState s); try done.
    destruct (onmessage s); [|done]. by rewrite ws_onmessage_attempts.
  - left. destruct (sockets w !! i) as [s|]; [|done].
    unfold ws_onerror. destruct (readyState s); try done;
      (destruct (onerror s); [|done]); by destruct (negb _).
  - left. unfold is_loss in Hl.
    destruct (sockets w !! i) as [s|] eqn:Es; [|done].
    destruct (decide (wsRef (hook w) = Some i)) as [Ew|Ew].
    2:{ destruct (readyState s); try done;
          (destruct (onclose s); [|done]); by rewrite ws_onclose_stale. }
    rewrite (bool_decide_eq_true_2 _ Ew) in Hl.
    destruct (readyState s) eqn:Er; try done;
      (destruct (onclose s) eqn:Eo; [|done]);
      rewrite ws_onclose_eq by done; simpl; simpl in Hl;
      (destruct (isCleaningUpRef (hook w)); simpl; [done|]);
      (destruct (isMountedRef (hook w)); simpl; [|done]);
      rewrite !andb_true_r in Hl; simpl in Hl; apply negb_false_iff in Hl;
      by rewrite Hl.
Qed.

Lemma losses_nonneg tr w : 0 <= losses tr w.
Proof.
  revert w. induction tr as [|occ tr IH]; intros w; simpl; [done|].
  specialize (IH (dispatch occ w)). destruct (is_loss _ _); lia.
Qed.

Lemma steady_app b tr occ w :
  steady b (tr ++ [occ]) w <->
  steady b tr w /\
  clock (run tr w) <= at_time occ /\ valid_oracle (oracle occ) /\
  fails (run tr w) occ = false /\ (b = false -> resets (event occ) = false).
Proof.
  revert w. induction tr as [|o tr IH]; intros w; simpl.
  - tauto.
  - rewrite IH. tauto.
Qed.

Lemma steady_reachable b tr w :
  reachable w -> steady b tr w -> reachable (run tr w).
Proof.
  revert w. induction tr as [|occ tr IH]; intros w Hr Hs; simpl; [done|].
  destruct Hs as (_ & Hv & _ & _ & Hs). apply IH; [|done]. by constructor.
Qed.

(** In a run without failed attempts and without resets the counter counts
    the lost closures. *)
Lemma steady_counter tr w :
  reachable w -> steady false tr w ->
  attempts (run tr w) = attempts w + losses tr w.
Proof.
  revert w. induction tr as [|occ tr IH]; intros w Hr Hs; simpl; [lia|].
  destruct Hs as (Ht & Hv & Hf & Hn & Hs).
  rewrite IH; [|by constructor|done].
  destruct (is_loss w (event occ)) eqn:El.
  - destruct (loss_step occ w Hr Ht El) as [-> _]. lia.
  - destruct (quiet_step occ w Ht Hf El) as [E _].
    rewrite E by (by apply Hn). lia.
Qed.

(** In a run without failed attempts and without lost closures the counter
    stays at 0. *)
Lemma steady_zero tr w :
  reachable w -> steady true tr w -> losses tr w = 0 -> attempts w = 0 ->
  attempts (run tr w) = 0.
Proof.
  revert w. induction tr as [|occ tr IH]; intros w Hr Hs Hl H0; simpl; [done|].
  destruct Hs as (Ht & Hv & Hf & Hn & Hs). simpl in Hl.
  pose proof (losses_nonneg tr (dispatch occ w)).
  destruct (is_loss w (event occ)) eqn:El; [lia|].
  apply IH; [by constructor|done|lia|].
  destruct (quiet_step occ w Ht Hf El) as [_ [E|E]]; congruence.
Qed.

Lemma Qfloor_plus_Z (x : Q) (k : Z) : Qfloor (x + inject_Z k) = Qfloor x + k.
Proof.
  pose proof (Qfloor_le x) as F1.
  pose proof (Qlt_floor x) as F2.
  rewrite inject_Z_plus in F2. change (inject_Z 1) with 1%Q in F2.
  apply Z.le_antisymm.
  - apply Z.lt_succ_r. rewrite Zlt_Qlt.
    apply Qle_lt_trans with (x + inject_Z k)%Q; [apply Qfloor_le|].
    unfold Z.succ. rewrite !inject_Z_plus. change (inject_Z 1) with 1%Q. lra.
  - rewrite <- (Qfloor_Z (Qfloor x + k)).
    apply Qfloor_resp_le. rewrite inject_Z_plus. lra.
Qed.

(** ** The backoff formula *)

(** C4, as stated, fails, in five ways.
    - The delay is floored: after six lost closures in a row, with
      [Math.random()] returning 0 at the sixth, the delay is 15187 while
      min(2000 * 1.5^5, 30000) is 15187.5; no jitter in [0, 1000) makes up
      the difference.
    - The sum is rounded to binary64: with [Math.random()] returning the
      largest number below 1 the first delay is 3000, that is 2000 + 1000.
    - The tab becoming visible resets the counter: the third lost closure
      in a row, no socket having opened, is scheduled with n = 1.
    - A connection timeout counts twice: the second lost closure, that of
      a retry that timed out, is scheduled with n = 3.
    - A throwing constructor counts too: the first lost closure after it
      is scheduled with n = 2. *)
Lemma backoff_formula_counterexample :
  (let w := run six_losses init in
   reconnectAttemptsRef (hook w) = 6 /\
   timers w = [mkTimer 13 (clock w + 15187) ReconnectT] /\
   ~ exists j : Q, (0 <= j)%Q /\ (j < 1000)%Q /\
                   (inject_Z 15187 == Qmin (2000 * (3 # 2) ^ (6 - 1)) 30000 + j)%Q) /\
  (let w := dispatch (mkOcc 100 (SockClose 0 1006 "") top) open_world in
   valid_oracle top /\ binary64 (random top) /\
   losses [mkOcc 100 (SockClose 0 1006 "") top] open_world = 1 /\
   timers w = [mkTimer 4 (clock w + 3000) ReconnectT] /\
   ~ exists j : Q, (0 <= j)%Q /\ (j < 1000)%Q /\
                   (inject_Z 3000 == Qmin (2000 * (3 # 2) ^ (1 - 1)) 30000 + j)%Q) /\
  (let w := run losses_with_reset init in
   losses losses_with_reset init = 3 /\
   Forall (fun occ => forall i, event occ <> SockOpen i) losses_with_reset /\
   reconnectAttemptsRef (hook w) = 1 /\
   timers w = [mkTimer 7 (clock w + 2000) ReconnectT] /\
   (Qmin (2000 * (3 # 2) ^ (3 - 1)) 30000 == 4500)%Q) /\
  (let w := run loss_then_timeout init in
   losses loss_then_timeout init = 2 /\
   Forall (fun occ => forall i, event occ <> SockOpen i) loss_then_timeout /\
   reconnectAttemptsRef (hook w) = 3 /\
   timers w = [mkTimer 6 (clock w + 4500) ReconnectT] /\
   (Qmin (2000 * (3 # 2) ^ (2 - 1)) 30000 == 3000)%Q) /\
  (let w := run throw_then_loss init in
   losses throw_then_loss init = 1 /\
   Forall (fun occ => forall i, event occ <> SockOpen i) throw_then_loss /\
   reconnectAttemptsRef (hook w) = 2 /\
   timers w = [mkTimer 4 (clock w + 3000) ReconnectT] /\
   (Qmin (2000 * (3 # 2) ^ (1 - 1)) 30000 == 2000)%Q).
Proof.
  split; [|split; [|split; [|split]]].
  - split; [by vm_compute|]. split; [by vm_compute|].
    intros (j & H0 & H1 & E).
    assert (Eb : (Qmin (2000 * (3 # 2) ^ (6 - 1)) 30000 == 30375 # 2)%Q) by reflexivity.
    rewrite Eb in E.
    assert (Ej : (j == inject_Z 15187 - (30375 # 2))%Q) by (rewrite E; ring).
    rewrite Ej in H0. vm_compute in H0. by apply H0.
  - split; [by vm_compute|].
    split; [apply reconnect_delay_ends|].
    split; [by vm_compute|]. split; [by vm_compute|].
    intros (j & H0 & H1 & E).
    assert (Eb : (Qmin (2000 * (3 # 2) ^ (1 - 1)) 30000 == 2000)%Q) by reflexivity.
    rewrite Eb in E.
    assert (Ej : (j == inject_Z 3000 - 2000)%Q) by (rewrite E; ring).
    rewrite Ej in H1. vm_compute in H1. discriminate H1.
  - split; [by vm_compute|]. split; [repeat constructor; discriminate|].
    split; [by vm_compute|]. split; [by vm_compute|]. reflexivity.
  - split; [by vm_compute|]. split; [repeat constructor; discriminate|].
    split; [by vm_compute|]. split; [by vm_compute|]. reflexivity.
  - split; [by vm_compute|]. split; [repeat constructor; discriminate|].
    split; [by vm_compute|]. split; [by vm_compute|]. reflexivity.
Qed.

(** C4, amended.  In a run that starts with the attempt count at 0 and in
    which nothing resets the counter (no open, manual reconnect, online or
    tab-visible event), no connection timeout fires and the constructor
    never throws, the n-th lost closure raises the count to [n]
    before the delay is computed, so the first uses n = 1, and schedules
    exactly one reconnect.  Its delay is floor(base + j) for some j in
    [0, 1000], with base = min(2000 * 1.5^(n-1), 30000); so it lies between
    floor(base) and floor(base) + 1000.  The base delay never decreases
    from one attempt to the next and never exceeds 30000. *)
Theorem backoff_delay_formula (w0 : World) (tr : list Occurrence) (occ : Occurrence) :
  reachable w0 -> reconnectAttemptsRef (hook w0) = 0 ->
  steady false (tr ++ [occ]) w0 ->
  is_loss (run tr w0) (event occ) = true ->
  let n := losses tr w0 + 1 in
  let w := run tr w0 in
  let w' := dispatch occ w in
  let base := Qmin (2000 * (3 # 2) ^ (n - 1)) 30000 in
  let d := reconnect_delay n (random (oracle occ)) in
  1 <= n /\
  reconnectAttemptsRef (hook w') = n /\
  pending_reconnects w' = [mkTimer (nextTimer w) (at_time occ + d) ReconnectT] /\
  (exists j : Q, (0 <= j)%Q /\ (j <= 1000)%Q /\ d = Qfloor (base + j)) /\
  Qfloor base <= d <= Qfloor base + 1000 /\
  (base <= Qmin (2000 * (3 # 2) ^ n) 30000)%Q /\
  (Qmin (2000 * (3 # 2) ^ n) 30000 <= 30000)%Q.
Proof.
  intros Hr H0 Hs Hl n w w' base d.
  apply steady_app in Hs as (Hs & Ht & Hv & _ & _).
  pose proof (losses_nonneg tr w0) as Hn.
  assert (Hw : reachable w) by (by apply (steady_reachable false)).
  assert (Ea : attempts w + 1 = n).
  { unfold w, n. rewrite steady_counter by done. lia. }
  destruct (loss_step occ w Hw Ht Hl) as [E1 E2]. rewrite Ea in E1, E2.
  assert (Hd : Qfloor base <= d <= Qfloor base + 1000).
  { unfold base. rewrite <- (Qfloor_comp _ _ (baseDelay_exact n ltac:(lia))).
    destruct Hv. apply reconnect_delay_bounds; [lia|done|done]. }
  split; [lia|]. split; [done|]. split; [done|]. split; [|split; [done|]].
  - exists (inject_Z (d - Qfloor base)). split; [|split].
    + change 0%Q with (inject_Z 0). rewrite <- Zle_Qle. lia.
    + change 1000%Q with (inject_Z 1000). rewrite <- Zle_Qle. lia.
    + rewrite Qfloor_plus_Z. lia.
  - split; [|apply Q.le_min_r].
    apply Q.min_le_compat_r. apply Qmult_le_l; [reflexivity|].
    apply Qpower_le_compat_l; [lia|]. discriminate.
Qed.

(** ** Reset on success *)

(** C8, as stated, fails, in two ways.
    - The first delay can be 3000: with [Math.random()] returning the
      largest number below 1, the lost closure of a socket that had opened
      arms the retry 3000 ms later.
    - A connection timeout counts twice: after an open and a manual
      reconnect whose attempt times out, the first lost closure is
      scheduled with the count at 2, 3000 ms later with [Math.random()]
      returning 0. *)
Lemma reset_on_success_counterexample :
  (let loss := mkOcc 100 (SockClose 0 1006 "") top in
   valid_oracle top /\ binary64 (random top) /\
   reconnectAttemptsRef (hook open_world) = 0 /\
   is_loss open_world (event loss) = true /\
   pending_reconnects (dispatch loss open_world) = [mkTimer 4 (100 + 3000) ReconnectT]) /\
  (let before := firstn 6 open_then_timeout in
   let loss := lost 10201 1 in
   open_then_timeout = (before ++ [loss])%list /\
   event (mkOcc 60 (SockOpen 0) quiet) = SockOpen 0 /\
   In (mkOcc 60 (SockOpen 0) quiet) before /\
   losses before init = 0 /\
   is_loss (run before init) (event loss) = true /\
   reconnectAttemptsRef (hook (run open_then_timeout init)) = 2 /\
   pending_reconnects (run open_then_timeout init) =
     [mkTimer 7 (10201 + 3000) ReconnectT]).
Proof.
  split.
  - split; [by vm_compute|]. split; [apply reconnect_delay_ends|].
    by vm_compute.
  - split; [reflexivity|]. split; [reflexivity|].
    split; [vm_compute; right; right; left; reflexivity|].
    by vm_compute.
Qed.

(** C8, amended.  An open event on the current socket sets the state to
    connected and the attempt counter to 0, whatever the counter was.  In
    every run that follows in which no connection timeout fires and the
    constructor never throws, the first lost closure raises the
    counter to 1 and schedules exactly one reconnect, with the delay
    computed from attempt 1: between 2000 and 3000, both ends included. *)
Theorem reset_on_success
  (w : World) (occ : Occurrence) (ws : nat) (s : Socket) :
  reachable w -> valid_oracle (oracle occ) ->
  event occ = SockOpen ws ->
  clock w <= at_time occ ->
  wsRef (hook w) = Some ws ->
  sockets w !! ws = Some s -> readyState s = CONNECTING -> onopen s = true ->
  let w1 := dispatch occ w in
  connectionStateRef (hook w1) = Connected /\
  reconnectAttemptsRef (hook w1) = 0 /\
  forall (tr : list Occurrence) (loss : Occurrence),
    steady true (tr ++ [loss]) w1 ->
    losses tr w1 = 0 ->
    is_loss (run tr w1) (event loss) = true ->
    let w2 := run tr w1 in
    let w3 := dispatch loss w2 in
    let d := reconnect_delay 1 (random (oracle loss)) in
    reconnectAttemptsRef (hook w3) = 1 /\
    pending_reconnects w3 = [mkTimer (nextTimer w2) (at_time loss + d) ReconnectT] /\
    2000 <= d <= 3000.
Proof.
  intros Hr Hv He Ht Hc Hl Hs Ho w1.
  assert (R1 : reachable w1) by (by constructor).
  assert (E1 : w1 = ws_onopen ws (upd_sock ws (set_readyState OPEN)
                                   (set_clock (at_time occ) w))).
  { subst w1. rewrite dispatch_on_time by done. rewrite He.
    by apply deliver_open with s. }
  assert (H0 : attempts w1 = 0) by (rewrite E1; by apply ws_onopen_attempts).
  assert (HC : connectionStateRef (hook w1) = Connected).
  { rewrite E1, ws_onopen_eq by done. by rewrite startPingInterval_eq. }
  clear E1. generalize dependent w1. intros w1 R1 H0 HC.
  split; [done|]. split; [done|].
  intros tr loss Hst Hls Hloss w2 w3 d.
  apply steady_app in Hst as (Hst & Htl & Hvl & _ & _).
  assert (R2 : reachable w2) by (by apply (steady_reachable true)).
  assert (Z2 : attempts w2 = 0) by (by apply steady_zero).
  destruct (loss_step loss w2 R2 Htl Hloss) as [E3 P3].
  rewrite Z2 in E3, P3. simpl in E3, P3.
  split; [done|]. split; [done|].
  destruct Hvl. by apply reconnect_delay_first.
Qed.

(** ** Instances *)

Lemma backoff_delay_formula_witness :
  let tr := [mkOcc 0 Mount quiet; tick 50 1; lost 100 0; tick 2100 3] in
  let w' := dispatch (lost 2200 1) (run tr init) in
  reconnectAttemptsRef (hook w') = 2 /\
  pending_reconnects w' = [mkTimer 5 (2200 + reconnect_delay 2 0) ReconnectT] /\
  3000 <= reconnect_delay 2 0 <= 4000.
Proof.
  intros tr w'.
  destruct (backoff_delay_formula init tr (lost 2200 1))
    as (_ & H1 & H2 & _ & H3 & _).
  - constructor.
  - reflexivity.
  - cbn [steady app tr].
    repeat split; try apply valid_quiet; try (intros _; reflexivity);
      try (vm_compute; reflexivity); vm_compute; discriminate.
  - vm_compute. reflexivity.
  - vm_compute in H1, H2. vm_compute.
    split; [exact H1|]. split; [exact H2|]. split; discriminate.
Defined.

Lemma reset_on_success_witness :
  let occ := mkOcc 60 (SockOpen 0) quiet in
  let w1 := dispatch occ connecting_world in
  let w3 := dispatch (lost 100 0) (dispatch (mkOcc 80 Online quiet) w1) in
  reconnectAttemptsRef (hook w1) = 0 /\
  reconnectAttemptsRef (hook w3) = 1 /\
  pending_reconnects w3 = [mkTimer 4 (100 + reconnect_delay 1 0) ReconnectT].
Proof.
  intros occ w1 w3.
  destruct (reset_on_success connecting_world occ 0%nat fresh_socket)
    as (_ & _ & H).
  - apply connecting_world_reachable.
  - apply valid_quiet.
  - reflexivity.
  - vm_compute. discriminate.
  - vm_compute. reflexivity.
  - vm_compute. reflexivity.
  - reflexivity.
  - reflexivity.
  - split; [vm_compute; reflexivity|].
    destruct (H [mkOcc 80 Online quiet] (lost 100 0)) as (H1 & H2 & _).
    + cbn [steady app].
      repeat split; try apply valid_quiet; try (intros _; reflexivity);
        try (vm_compute; reflexivity); try discriminate; vm_compute; discriminate.
    + vm_compute. reflexivity.
    + vm_compute. reflexivity.
    + vm_compute in H1, H2. vm_compute. split; [exact H1|exact H2].
Defined.
